(** * Real-Time-Tracker: the presence protocol

    A shallow embedding of the location-sharing protocol of the repository:

    - the relay of the server (the second document of [src/unnamed/part_000],
      lines 804-833): [io.on('connection')] with its [send-location] and
      [disconnect] handlers;
    - the client of [src/public/js/script.js]: the socket handlers, the two
      [watchPosition] registrations and the 30 second clean-up timer;
    - the second client, the first document of [src/unnamed/part_000]
      (lines 1-802), whose registry is fed by the relay's echo.

    Conventions.  A JavaScript handler is a function from the state of the
    page to an [outcome]: the state it leaves behind, and whether it returned
    or ended with an exception.  [new Date()] is an argument [now], in
    milliseconds.  Coordinates are binary64 floats.  A string is the list
    of its UTF-16 code units.  [activeUsers], a JavaScript object used as a
    dictionary, is a [JsObject.obj]: its own properties in the order of
    their creation, read with the properties that every object inherits
    from [Object.prototype].  Leaflet markers are objects shared between
    [myMarker] and the registry, so they live in a store and are referred to
    by index.  What is only display (popup text, the content of the side bar
    list, reverse geocoding) is left out, except where it can end a handler
    early. *)

From Stdlib Require Import ZArith NArith Ascii Floats.PrimFloat.
From stdpp Require Import gmap strings list fin_maps sorting.

Local Open Scope Z_scope.

(** ** JavaScript values of the protocol *)

(** A JavaScript string: its UTF-16 code units. *)
Definition jsstring : Type := list N.

(** The string that a literal of the source denotes. *)
Definition js (s : string) : jsstring :=
  Ascii.N_of_ascii <$> String.list_ascii_of_string s.

(** An identity as the handlers see it: a missing field reads [undefined],
    [mySocketId] starts as [null], a socket id is a string. *)
Inductive jsid :=
  | Undefined
  | Null
  | Str (s : jsstring).

#[global] Instance jsid_eq_dec : EqDecision jsid.
Proof. solve_decision. Defined.

(** [a === b] on identities. *)
Definition strict_eq (a b : jsid) : bool := bool_decide (a = b).

(** The property key [obj[id]] uses, and the string that [btoa(id)]
    encodes: [ToString(id)]. *)
Definition key_of (i : jsid) : jsstring :=
  match i with
  | Undefined => js "undefined"
  | Null => js "null"
  | Str s => s
  end.

(** [typeof id === 'string']: only then has [id] a method [substring]. *)
Definition is_string (i : jsid) : bool :=
  match i with
  | Str _ => true
  | _ => false
  end.

(** The object carried by [send-location] and [receive-location].  A field
    that is absent is [Undefined] or [None]. *)
Record location := {
  data_id : jsid;
  data_latitude : option float;
  data_longitude : option float
}.

(** [{...base, ...over}]: the properties of [over] win. *)
Definition spread (base over : location) : location :=
  {| data_id := match data_id over with
                | Undefined => data_id base
                | i => i
                end;
     data_latitude := match data_latitude over with
                      | Some x => Some x
                      | None => data_latitude base
                      end;
     data_longitude := match data_longitude over with
                       | Some x => Some x
                       | None => data_longitude base
                       end |}.

(** How a handler ends. *)
Inductive outcome (S : Type) :=
  | Returned (s : S)
  | Threw (s : S).
Arguments Returned {S} s.
Arguments Threw {S} s.

Definition state_of {S : Type} (o : outcome S) : S :=
  match o with
  | Returned s => s
  | Threw s => s
  end.

Definition threw {S : Type} (o : outcome S) : bool :=
  match o with
  | Returned _ => false
  | Threw _ => true
  end.

(** A call that has no value because it threw. *)
Definition throws {A : Type} (r : option A) : bool :=
  match r with
  | Some _ => false
  | None => true
  end.

(** ** An object used as a dictionary *)

Module JsObject.

(** The properties that an object made by [{}] inherits from
    [Object.prototype] in a browser.  All of them are functions, except
    [__proto__], which reads as [Object.prototype] itself: every one is
    truthy and has no property [marker] or [lastUpdate] of its own. *)
Definition Object_prototype : list jsstring :=
  js <$> ["constructor"; "__defineGetter__"; "__defineSetter__";
          "hasOwnProperty"; "__lookupGetter__"; "__lookupSetter__";
          "isPrototypeOf"; "propertyIsEnumerable"; "toString"; "valueOf";
          "__proto__"; "toLocaleString"]%string.

Definition inherited (k : jsstring) : bool :=
  bool_decide (k ∈ Object_prototype).

(** The own properties, in the order of their creation. *)
Record obj (V : Type) := Obj { own : list (jsstring * V) }.
Arguments Obj {V} own.
Arguments own {V} o.

(** What [o[k]] finds. *)
Inductive slot (V : Type) :=
  | Own (v : V)          (* an own property *)
  | Inherited            (* a property of the prototype *)
  | Missing.             (* [undefined] *)
Arguments Own {V} v.
Arguments Inherited {V}.
Arguments Missing {V}.

Section Operations.
Context {V : Type}.

Fixpoint find (k : jsstring) (l : list (jsstring * V)) : option V :=
  match l with
  | [] => None
  | (j, v) :: l' => if decide (j = k) then Some v else find k l'
  end.

(** A write to a property that exists keeps its place. *)
Fixpoint replace (k : jsstring) (v : V) (l : list (jsstring * V))
  : list (jsstring * V) :=
  match l with
  | [] => []
  | (j, w) :: l' =>
      if decide (j = k) then (j, v) :: l' else (j, w) :: replace k v l'
  end.

#[global] Instance obj_lookup : Lookup jsstring V (obj V) :=
  fun k o => find k (own o).

(** [o[k] = v], for a key that is not [__proto__]: the property is written
    where it is, or created after the others. *)
#[global] Instance obj_insert : Insert jsstring V (obj V) :=
  fun k v o =>
    Obj (match find k (own o) with
         | Some _ => replace k v (own o)
         | None => own o ++ [(k, v)]
         end).

(** [delete o[k]]. *)
#[global] Instance obj_delete : Delete jsstring (obj V) :=
  fun k o => Obj (filter (fun p => p.1 <> k) (own o)).

(** [{}]. *)
#[global] Instance obj_empty : Empty (obj V) := Obj [].

#[global] Instance obj_dom : Dom (obj V) (gset jsstring) :=
  fun o => list_to_set (own o).*1.

(** [o[k]], for an object whose prototype has the properties [inh]. *)
Definition get (inh : jsstring -> bool) (o : obj V) (k : jsstring) : slot V :=
  match o !! k with
  | Some v => Own v
  | None => if inh k then Inherited else Missing
  end.

(** [o] has no own property [k]. *)
Definition lacks (o : obj V) (k : jsstring) : bool :=
  match o !! k with
  | Some _ => false
  | None => true
  end.

End Operations.

(** The order of [Object.keys] and [Object.values] (OrdinaryOwnPropertyKeys):
    first the keys that are array indices, by increasing value, then the
    other keys in the order of their creation. *)

Definition digit (c : N) : option N :=
  if ((48 <=? c) && (c <=? 57))%N then Some (c - 48)%N else None.

Fixpoint numeral (acc : N) (k : jsstring) : option N :=
  match k with
  | [] => Some acc
  | c :: k' => d ← digit c; numeral (10 * acc + d)%N k'
  end.

(** An array index is the canonical decimal numeral of an integer between
    0 and 2^32 - 2. *)
Definition array_index (k : jsstring) : option N :=
  match k with
  | [] => None
  | [c] => digit c
  | c :: _ =>
      if (c =? 48)%N then None
      else n ← numeral 0 k; if (n <? 4294967295)%N then Some n else None
  end.

Definition index_le (a b : jsstring) : Prop :=
  (default 0 (array_index a) <= default 0 (array_index b))%N.

#[global] Instance index_le_dec : RelDecision index_le.
Proof. intros a b. unfold index_le. apply _. Defined.

Definition property_order (ks : list jsstring) : list jsstring :=
  merge_sort index_le (filter (fun k => is_Some (array_index k)) ks)
  ++ filter (fun k => ~ is_Some (array_index k)) ks.

(** [Object.keys(o)]. *)
Definition keys {V : Type} (o : obj V) : list jsstring :=
  property_order (remove_dups (own o).*1).

(** [Object.values(o)]. *)
Definition values {V : Type} (o : obj V) : list V :=
  omap (fun k => o !! k) (keys o).

End JsObject.

(** ** The display of identities: [hashId] *)

Module Base64.

(** The base64 encoding of RFC 4648, with padding, of a string of bytes. *)

Definition alphabet : string :=
  "ABCDEFGHIJKLMNOPQRSTUVWXYZabcdefghijklmnopqrstuvwxyz0123456789+/".

(** The character for six bits, the most significant first. *)
Definition digit (b5 b4 b3 b2 b1 b0 : bool) : Ascii.ascii :=
  default "="%char
    (String.get (N.to_nat (Ascii.N_of_digits [b0; b1; b2; b3; b4; b5]))
       alphabet).

(** Three bytes give four characters. *)
Definition encode3 (a b c : Ascii.ascii) : string :=
  let '(Ascii.Ascii a0 a1 a2 a3 a4 a5 a6 a7) := a in
  let '(Ascii.Ascii b0 b1 b2 b3 b4 b5 b6 b7) := b in
  let '(Ascii.Ascii c0 c1 c2 c3 c4 c5 c6 c7) := c in
  String (digit a7 a6 a5 a4 a3 a2)
    (String (digit a1 a0 b7 b6 b5 b4)
       (String (digit b3 b2 b1 b0 c7 c6)
          (String (digit c5 c4 c3 c2 c1 c0) ""))).

(** Two bytes at the end: three characters and one padding. *)
Definition encode2 (a b : Ascii.ascii) : string :=
  let '(Ascii.Ascii a0 a1 a2 a3 a4 a5 a6 a7) := a in
  let '(Ascii.Ascii b0 b1 b2 b3 b4 b5 b6 b7) := b in
  String (digit a7 a6 a5 a4 a3 a2)
    (String (digit a1 a0 b7 b6 b5 b4)
       (String (digit b3 b2 b1 b0 false false) "=")).

(** One byte at the end: two characters and two paddings. *)
Definition encode1 (a : Ascii.ascii) : string :=
  let '(Ascii.Ascii a0 a1 a2 a3 a4 a5 a6 a7) := a in
  String (digit a7 a6 a5 a4 a3 a2)
    (String (digit a1 a0 false false false false) "==").

Fixpoint encode (s : string) : string :=
  match s with
  | "" => ""
  | String a "" => encode1 a
  | String a (String b "") => encode2 a b
  | String a (String b (String c rest)) => encode3 a b c +:+ encode rest
  end.

(** The bytes of a string whose code units are all below 256. *)
Fixpoint latin1 (s : jsstring) : option string :=
  match s with
  | [] => Some ""%string
  | c :: s' =>
      if (c <? 256)%N then String (Ascii.ascii_of_N c) <$> latin1 s'
      else None
  end.

(** [btoa(s)], the base64 encoder of the browser: it throws an
    InvalidCharacterError ([None]) when a code unit of [s] is above 255. *)
Definition btoa (s : jsstring) : option string := encode <$> latin1 s.

(** [function hashId(id) { return btoa(id).substring(0, 12); }]; [btoa]
    converts its argument to a string. *)
Definition hashId (id : jsid) : option string :=
  String.substring 0 12 <$> btoa (key_of id).

(** ['User ' + hashId(id).substring(0, 6)], the name of somebody else in
    the popup of the marker and in the side bar. *)
Definition user_label (id : jsid) : option string :=
  (fun h => "User " +:+ String.substring 0 6 h) <$> hashId id.

End Base64.

(** ** Leaflet markers *)

Module Leaflet.

Record Marker := {
  latlng : float * float;
  self_icon : bool          (* createCustomIcon(isCurrentUser) *)
}.

(** [L.latLng([lat, lng])]: the [LatLng] constructor throws
    "Invalid LatLng object" when [isNaN] holds of a coordinate, which it
    does of [undefined]. *)
Definition toLatLng (lat lng : option float) : option (float * float) :=
  match lat, lng with
  | Some a, Some b => if is_nan a || is_nan b then None else Some (a, b)
  | _, _ => None
  end.

(** Two numbers that Leaflet accepts as a position. *)
Definition valid (lat lng : float) : bool := negb (is_nan lat || is_nan lng).

(** [marker.setLatLng(ll)] on the marker stored at index [m]. *)
Definition setLatLng (m : nat) (ll : float * float) (h : list Marker)
  : list Marker :=
  alter (fun mk => {| latlng := ll; self_icon := self_icon mk |}) m h.

(** [marker.getLatLng()]. *)
Definition getLatLng (h : list Marker) (m : nat) : option (float * float) :=
  latlng <$> h !! m.

End Leaflet.

(** ** The relay *)

Module Relay.

(** What [io] holds: the ids of the sockets that are connected; and the
    console. *)
Record server := {
  sockets : gset jsstring;
  console : list string
}.

(** One message put on one socket. *)
Record delivery := {
  recipient : jsstring;
  event_name : string;
  payload : location
}.

(** [io.emit(ev, msg)]: to every connected socket. *)
Definition io_emit (srv : server) (ev : string) (msg : location)
  : list delivery :=
  (fun r => {| recipient := r; event_name := ev; payload := msg |})
    <$> elements (sockets srv).

(** [io.on('connection', (socket) => ...)]; socket.io has added the socket
    to the connected ones. *)
Definition on_connection (sid : jsstring) (srv : server) : server :=
  {| sockets := {[sid]} ∪ sockets srv;
     console := console srv ++ ["A user connected"%string] |}.

(** [socket.on('send-location', (data) =>
      io.emit('receive-location', {id:socket.id,...data}))]. *)
Definition on_send_location (sid : jsstring) (data : location) (srv : server)
  : server * list delivery :=
  (srv,
   io_emit srv "receive-location"
     (spread {| data_id := Str sid;
                data_latitude := None;
                data_longitude := None |} data)).

(** [socket.on('disconnect', ...)]; socket.io has removed the socket. *)
Definition on_disconnect (sid : jsstring) (srv : server)
  : server * list delivery :=
  ({| sockets := sockets srv ∖ {[sid]};
      console := console srv ++ ["A user disconnected"%string] |},
   []).

(** The messages of [ds] put on socket [r]. *)
Definition received_by (r : jsstring) (ds : list delivery) : list location :=
  payload <$> filter (fun d => recipient d = r) ds.

End Relay.

(** ** Positioning *)

(** [GeolocationPositionError.code]. *)
Inductive position_error :=
  | PERMISSION_DENIED
  | POSITION_UNAVAILABLE
  | TIMEOUT.

(** The two [watchPosition] registrations of [script.js]: the one at the top
    level and the one of [initializeApp]. *)
Inductive watcher :=
  | TopLevel
  | InitializeApp.

(** ** The client of [src/public/js/script.js] *)

Module Script.
Import Leaflet.

(** A value of [activeUsers]: [{id, marker, lastUpdate}].  Both places that
    build one give it a marker. *)
Record user := {
  user_id : jsid;
  marker : nat;
  lastUpdate : Z
}.

(** The page elements the handlers of the protocol use.  [script.js]
    writes the texts and the toast without testing that their elements were
    found: the page is taken to have them.  It does test the side bar list
    before it draws it.  The timer that takes the toast down after 3 s is
    left out. *)
Record ui := {
  connectionText : string;
  trackingText : string;
  pulse : bool;                (* trackingIcon.classList has 'pulse' *)
  toast : option string;       (* the #loading-toast element *)
  has_users_list : bool        (* [activeUsersList] was found *)
}.

(** [mySocketId] is [null] or [socket.id], an id that the server has made
    (twenty characters): the write [activeUsers[mySocketId] = ...] is an
    ordinary write of a property, [__proto__] being no such id. *)
Record state := {
  mySocketId : jsid;
  myMarker : option nat;
  activeUsers : JsObject.obj user;
  markers : list Marker;       (* the marker objects created so far *)
  layers : gset nat;           (* the markers that are on the map *)
  page : ui;
  emitted : list location      (* socket.emit('send-location', ...) *)
}.

Definition init : state :=
  {| mySocketId := Null;
     myMarker := None;
     activeUsers := ∅;
     markers := [];
     layers := ∅;
     page := {| connectionText := ""; trackingText := "";
                pulse := false; toast := None; has_users_list := true |};
     emitted := [] |}.

Definition with_page (f : ui -> ui) (s : state) : state :=
  {| mySocketId := mySocketId s; myMarker := myMarker s;
     activeUsers := activeUsers s; markers := markers s;
     layers := layers s; page := f (page s); emitted := emitted s |}.

(** [socket.on('connect', ...)]: [mySocketId] is set, then the text of
    [userIdElement] is made with [hashId(mySocketId)]. *)
Definition on_connect (sid : jsstring) (s : state) : outcome state :=
  let s1 :=
    {| mySocketId := Str sid; myMarker := myMarker s;
       activeUsers := activeUsers s; markers := markers s;
       layers := layers s; page := page s; emitted := emitted s |} in
  if throws (Base64.hashId (Str sid)) then Threw s1
  else
    Returned
      (with_page (fun p => {| connectionText := "Connected";
                              trackingText := trackingText p;
                              pulse := pulse p; toast := toast p;
                              has_users_list := has_users_list p |}) s1).

(** [socket.on('disconnect', ...)]. *)
Definition on_disconnect (s : state) : outcome state :=
  Returned
    (with_page (fun p => {| connectionText := "Disconnected";
                            trackingText := "Tracking Inactive";
                            pulse := pulse p; toast := toast p;
                            has_users_list := has_users_list p |}) s).

(** Whether [updateActiveUsersList()] ends with an exception: when the list
    is there, it evaluates [hashId(user.id)] for every user that is not the
    current one, and [btoa] throws on a character above 255. *)
Definition updateActiveUsersList_throws (s : state) : bool :=
  has_users_list (page s)
  && existsb (fun u => negb (strict_eq (user_id u) (mySocketId s))
                       && throws (Base64.hashId (user_id u)))
             (JsObject.values (activeUsers s)).

(** [socket.on('receive-location', (data) => ...)]. *)
Definition receive_location (now : Z) (data : location) (s : state)
  : outcome state :=
  let id := data_id data in
  if strict_eq id (mySocketId s) then Returned s
  else
    match JsObject.get JsObject.inherited (activeUsers s) (key_of id) with
    | JsObject.Missing =>
        match toLatLng (data_latitude data) (data_longitude data) with
        | None => Threw s
        | Some ll =>
            let m := length (markers s) in
            let s1 :=
              {| mySocketId := mySocketId s; myMarker := myMarker s;
                 activeUsers :=
                   <[key_of id := {| user_id := id; marker := m;
                                     lastUpdate := now |}]> (activeUsers s);
                 markers := markers s ++ [{| latlng := ll;
                                             self_icon := false |}];
                 layers := {[m]} ∪ layers s;
                 page := page s; emitted := emitted s |} in
            (* the text of the popup: [hashId(id).substring(0, 6)] *)
            if throws (Base64.hashId id) then Threw s1
            else if updateActiveUsersList_throws s1 then Threw s1
            else Returned s1
        end
    | JsObject.Own u =>
        match toLatLng (data_latitude data) (data_longitude data) with
        | None => Threw s
        | Some ll =>
            Returned
              {| mySocketId := mySocketId s; myMarker := myMarker s;
                 activeUsers :=
                   <[key_of id := {| user_id := user_id u;
                                     marker := marker u;
                                     lastUpdate := now |}]> (activeUsers s);
                 markers := setLatLng (marker u) ll (markers s);
                 layers := layers s;
                 page := page s; emitted := emitted s |}
        end
    | JsObject.Inherited =>
        (* [activeUsers[id]] is truthy and its [marker] is undefined *)
        Threw s
    end.

(** The success callback of [watchPosition]; the two registrations differ
    only in the order of the branches on [myMarker]. *)
Definition position_success (now : Z) (latitude longitude : float)
    (s : state) : outcome state :=
  let sent := emitted s ++ [{| data_id := Undefined;
                               data_latitude := Some latitude;
                               data_longitude := Some longitude |}] in
  let tracking p := {| connectionText := connectionText p;
                       trackingText := "Tracking Active";
                       pulse := true; toast := toast p;
                       has_users_list := has_users_list p |} in
  match toLatLng (Some latitude) (Some longitude) with
  | None =>
      Threw {| mySocketId := mySocketId s; myMarker := myMarker s;
               activeUsers := activeUsers s; markers := markers s;
               layers := layers s; page := page s; emitted := sent |}
  | Some ll =>
      match myMarker s with
      | Some m =>
          Returned
            {| mySocketId := mySocketId s; myMarker := Some m;
               activeUsers := activeUsers s;
               markers := setLatLng m ll (markers s);
               layers := layers s;
               page := tracking (page s); emitted := sent |}
      | None =>
          let m := length (markers s) in
          Returned
            {| mySocketId := mySocketId s; myMarker := Some m;
               activeUsers :=
                 <[key_of (mySocketId s) :=
                     {| user_id := mySocketId s; marker := m;
                        lastUpdate := now |}]> (activeUsers s);
               markers := markers s ++ [{| latlng := ll;
                                           self_icon := true |}];
               layers := {[m]} ∪ layers s;
               page := tracking (page s); emitted := sent |}
      end
  end.

Definition toast_text : string :=
  "Could not get your location. Please check GPS settings.".

(** The error callback of [watchPosition], of either registration. *)
Definition position_failure (w : watcher) (e : position_error) (s : state)
  : outcome state :=
  Returned
    (with_page
       (fun p =>
          match w with
          | TopLevel =>
              {| connectionText := connectionText p;
                 trackingText := "Tracking Error";
                 pulse := false; toast := Some toast_text;
                 has_users_list := has_users_list p |}
          | InitializeApp =>
              {| connectionText := connectionText p;
                 trackingText := "Tracking Failed";
                 pulse := pulse p; toast := Some toast_text;
                 has_users_list := has_users_list p |}
          end) s).

(** The test of the clean-up timer,
    [now - activeUsers[id].lastUpdate > 30000 && id !== mySocketId];
    [th] stands for the literal 30000. *)
Definition expired (th now : Z) (s : state) (k : jsstring) (u : user) : bool :=
  bool_decide (now - lastUpdate u > th)
  && negb (strict_eq (Str k) (mySocketId s)).

(** The state after [map.removeLayer(activeUsers[id].marker)] and
    [delete activeUsers[id]]. *)
Definition remove (k : jsstring) (u : user) (s : state) : state :=
  {| mySocketId := mySocketId s; myMarker := myMarker s;
     activeUsers := delete k (activeUsers s);
     markers := markers s;
     layers := layers s ∖ {[marker u]};
     page := page s; emitted := emitted s |}.

(** The body of the [forEach] of the clean-up timer, for the key [k]; an
    exception of [updateActiveUsersList()] ends the whole [forEach].  The
    key has an entry when its turn comes: [Object.keys] lists each own key
    once, and a round removes no entry but that of its own key. *)
Definition sweep_one (th now : Z) (o : outcome state) (k : jsstring)
  : outcome state :=
  match o with
  | Threw s => Threw s
  | Returned s =>
      match activeUsers s !! k with
      | None => Returned s
      | Some u =>
          if expired th now s k u then
            let s' := remove k u s in
            if updateActiveUsersList_throws s' then Threw s'
            else Returned s'
          else Returned s
      end
  end.

(** [Object.keys(activeUsers).forEach(...)]: the keys are listed once,
    before the first removal. *)
Definition sweep (th now : Z) (s : state) : outcome state :=
  foldl (sweep_one th now) (Returned s) (JsObject.keys (activeUsers s)).

(** The callback of [setInterval(..., 30000)]. *)
Definition cleanup (now : Z) (s : state) : outcome state :=
  sweep 30000 now s.

(** What the event loop of the page delivers. *)
Inductive event :=
  | Connect (sid : jsstring)
  | Disconnect
  | ReceiveLocation (now : Z) (data : location)
  | Position (w : watcher) (now : Z) (latitude longitude : float)
  | PositionError (w : watcher) (e : position_error)
  | Tick (now : Z).

Definition handle (e : event) (s : state) : outcome state :=
  match e with
  | Connect sid => on_connect sid s
  | Disconnect => on_disconnect s
  | ReceiveLocation now data => receive_location now data s
  | Position _ now lat lng => position_success now lat lng s
  | PositionError w e => position_failure w e s
  | Tick now => cleanup now s
  end.

(** An exception ends the handler, not the page: the next event finds the
    state the handler left. *)
Definition step (s : state) (e : event) : state := state_of (handle e s).

Definition run (es : list event) (s : state) : state := foldl step s es.

Definition is_tick (e : event) : bool :=
  match e with
  | Tick _ => true
  | _ => false
  end.

(** The messages the relay sends for the fixes [(now, lat, lng)] of the
    identity [i], in the order in which they arrive. *)
Definition upserts (i : jsstring) (fixes : list (Z * float * float))
  : list event :=
  (fun f => ReceiveLocation f.1.1
              {| data_id := Str i; data_latitude := Some f.1.2;
                 data_longitude := Some f.2 |}) <$> fixes.

(** The fixes [(watcher, now, lat, lng)] that the positioning source
    reports, in order. *)
Definition fixes (fs : list (watcher * Z * float * float)) : list event :=
  (fun f => Position f.1.1.1 f.1.1.2 f.1.2 f.2) <$> fs.

(** Where the marker of a participant is. *)
Definition position_of (s : state) (u : user) : option (float * float) :=
  getLatLng (markers s) (marker u).

(** Every marker the state refers to has been created. *)
Definition wf (s : state) : Prop :=
  (forall k u, activeUsers s !! k = Some u ->
               (marker u < length (markers s))%nat)
  /\ (forall m, myMarker s = Some m -> (m < length (markers s))%nat).

End Script.

(** ** The client of [src/unnamed/part_000] *)

Module Part000.
Import Leaflet.

(** A value of [activeUsers]; it is created with [marker: null]. *)
Record user := {
  user_id : jsid;
  marker : option nat;
  lastUpdate : Z
}.

(** This client tests every page element before it writes it; [None] is an
    element that [getElementById] did not find.

    When the key of a message names a property that [activeUsers] inherits,
    the handler writes [lastUpdate] and [marker] on the value of that
    property, a built-in object: [written] has the built-in objects that
    were written, under the name by which [activeUsers] inherits them, each
    with the marker that was put on it, if any.  Under [__proto__] that
    object is [Object.prototype] itself: from then on [activeUsers] also
    inherits [lastUpdate], a [Date], and [marker], once there is one, and
    every object that has no [marker] of its own reads that one.  (Leaflet
    is taken not to be disturbed by these two properties.) *)
Record state := {
  mySocketId : jsid;
  myMarker : option nat;
  activeUsers : JsObject.obj user;
  written : gmap jsstring (option nat);
  markers : list Marker;
  layers : gset nat;
  has_map : bool;                   (* [map] is defined *)
  has_users_list : bool;            (* [activeUsersList] was found *)
  connectionText : option string;
  trackingText : option string;
  pulse : option bool;
  emitted : list location
}.

Definition with_registry (f : JsObject.obj user -> JsObject.obj user)
    (s : state) : state :=
  {| mySocketId := mySocketId s; myMarker := myMarker s;
     activeUsers := f (activeUsers s); written := written s;
     markers := markers s;
     layers := layers s; has_map := has_map s;
     has_users_list := has_users_list s;
     connectionText := connectionText s; trackingText := trackingText s;
     pulse := pulse s; emitted := emitted s |}.

Definition with_written (w : gmap jsstring (option nat)) (s : state)
  : state :=
  {| mySocketId := mySocketId s; myMarker := myMarker s;
     activeUsers := activeUsers s; written := w;
     markers := markers s;
     layers := layers s; has_map := has_map s;
     has_users_list := has_users_list s;
     connectionText := connectionText s; trackingText := trackingText s;
     pulse := pulse s; emitted := emitted s |}.

Definition with_markers (h : list Marker) (l : gset nat) (s : state)
  : state :=
  {| mySocketId := mySocketId s; myMarker := myMarker s;
     activeUsers := activeUsers s; written := written s;
     markers := h;
     layers := l; has_map := has_map s;
     has_users_list := has_users_list s;
     connectionText := connectionText s; trackingText := trackingText s;
     pulse := pulse s; emitted := emitted s |}.

Definition with_myMarker (m : option nat) (s : state) : state :=
  {| mySocketId := mySocketId s; myMarker := m;
     activeUsers := activeUsers s; written := written s;
     markers := markers s;
     layers := layers s; has_map := has_map s;
     has_users_list := has_users_list s;
     connectionText := connectionText s; trackingText := trackingText s;
     pulse := pulse s; emitted := emitted s |}.

(** The properties that [activeUsers] inherits. *)
Definition inherits (s : state) (k : jsstring) : bool :=
  JsObject.inherited k
  || bool_decide (k = js "lastUpdate")
     && bool_decide (is_Some (written s !! js "__proto__"))
  || bool_decide (k = js "marker")
     && bool_decide (is_Some (mjoin (written s !! js "__proto__"))).

(** Whether [updateActiveUsersList()] ends with a TypeError: when the list
    is there, it evaluates [user.id.substring(0, 6)] for every user that is
    not the current one. *)
Definition updateActiveUsersList_throws (s : state) : bool :=
  has_users_list s
  && existsb (fun u => negb (strict_eq (user_id u) (mySocketId s))
                       && negb (is_string (user_id u)))
             (JsObject.values (activeUsers s)).

(** Lines 194-227 of the handler: the marker of [activeUsers[id]], an
    entry that the lines before have created or refreshed. *)
Definition place_marker (data : location) (s : state) : outcome state :=
  let id := data_id data in
  let isCurrentUser := strict_eq id (mySocketId s) in
  let finish (s' : state) (m : nat) : outcome state :=
    if isCurrentUser then Returned (with_myMarker (Some m) s')
    else Returned s' in
  match activeUsers s !! key_of id with
  | None => Threw s
  | Some u =>
      match marker u with
      | Some m =>
          match toLatLng (data_latitude data) (data_longitude data) with
          | None => Threw s
          | Some ll =>
              finish (with_markers (setLatLng m ll (markers s)) (layers s) s)
                     m
          end
      | None =>
          match toLatLng (data_latitude data) (data_longitude data) with
          | None => Threw s
          | Some ll =>
              let m := length (markers s) in
              let s' :=
                with_registry
                  (insert (key_of id)
                          {| user_id := user_id u; marker := Some m;
                             lastUpdate := lastUpdate u |})
                  (with_markers
                     (markers s ++ [{| latlng := ll;
                                       self_icon := isCurrentUser |}])
                     ({[m]} ∪ layers s) s) in
              (* the popup text: ['User ' + id.substring(0, 6)] *)
              if negb isCurrentUser && negb (is_string id) then Threw s'
              else finish s' m
          end
      end
  end.

(** The marker that [activeUsers[id].marker] reads when [activeUsers[id]]
    is the built-in object inherited under [k]: its own, or else the one of
    [Object.prototype]. *)
Definition builtin_marker (w : gmap jsstring (option nat)) (k : jsstring)
  : option nat :=
  match mjoin (w !! k) with
  | Some m => Some m
  | None =>
      if bool_decide (k = js "__proto__") then None
      else mjoin (w !! js "__proto__")
  end.

(** The handler from line 190 on, when [activeUsers[id]] is a built-in
    object: [lastUpdate] is written on it (on [Object.prototype] that makes
    a new [Date] the value that is inherited under [lastUpdate]), then its
    marker is moved or made. *)
Definition place_on_builtin (data : location) (s : state) : outcome state :=
  let id := data_id data in
  let k := key_of id in
  let isCurrentUser := strict_eq id (mySocketId s) in
  let finish (s' : state) (m : nat) : outcome state :=
    if isCurrentUser then Returned (with_myMarker (Some m) s')
    else Returned s' in
  let w :=
    <[k := mjoin (written s !! k)]>
      (if bool_decide (k = js "__proto__")
       then delete (js "lastUpdate") (written s)
       else written s) in
  let s1 := with_written w s in
  match builtin_marker w k with
  | Some m =>
      match toLatLng (data_latitude data) (data_longitude data) with
      | None => Threw s1
      | Some ll =>
          finish (with_markers (setLatLng m ll (markers s1)) (layers s1) s1)
                 m
      end
  | None =>
      match toLatLng (data_latitude data) (data_longitude data) with
      | None => Threw s1
      | Some ll =>
          let m := length (markers s1) in
          let s' :=
            with_written (<[k := Some m]> w)
              (with_markers
                 (markers s1 ++ [{| latlng := ll;
                                    self_icon := isCurrentUser |}])
                 ({[m]} ∪ layers s1) s1) in
          if negb isCurrentUser && negb (is_string id) then Threw s'
          else finish s' m
      end
  end.

(** [socket.on("receive-location", (data) => ...)]. *)
Definition receive_location (now : Z) (data : location) (s : state)
  : outcome state :=
  if negb (has_map s) then Returned s
  else
    let id := data_id data in
    match JsObject.get (inherits s) (activeUsers s) (key_of id) with
    | JsObject.Missing =>
        let s1 :=
          with_registry
            (insert (key_of id)
                    {| user_id := id; marker := None; lastUpdate := now |})
            s in
        if updateActiveUsersList_throws s1 then Threw s1
        else place_marker data s1
    | JsObject.Own u =>
        place_marker data
          (with_registry
             (insert (key_of id)
                     {| user_id := user_id u; marker := marker u;
                        lastUpdate := now |})
             s)
    | JsObject.Inherited => place_on_builtin data s
    end.

(** [socket.on('connect', ...)]. *)
Definition on_connect (sid : jsstring) (s : state) : outcome state :=
  Returned
    {| mySocketId := Str sid; myMarker := myMarker s;
       activeUsers := activeUsers s; written := written s;
       markers := markers s;
       layers := layers s; has_map := has_map s;
       has_users_list := has_users_list s;
       connectionText := (fun _ => "Connected"%string) <$> connectionText s;
       trackingText := trackingText s;
       pulse := pulse s; emitted := emitted s |}.

(** [socket.on('disconnect', ...)]. *)
Definition on_disconnect (s : state) : outcome state :=
  Returned
    {| mySocketId := mySocketId s; myMarker := myMarker s;
       activeUsers := activeUsers s; written := written s;
       markers := markers s;
       layers := layers s; has_map := has_map s;
       has_users_list := has_users_list s;
       connectionText :=
         (fun _ => "Disconnected"%string) <$> connectionText s;
       trackingText :=
         (fun _ => "Tracking Inactive"%string) <$> trackingText s;
       pulse := pulse s; emitted := emitted s |}.

(** The success callback of [watchPosition]: the position goes to the
    relay only; the marker follows when the relay sends it back. *)
Definition position_success (latitude longitude : float) (s : state)
  : outcome state :=
  Returned
    {| mySocketId := mySocketId s; myMarker := myMarker s;
       activeUsers := activeUsers s; written := written s;
       markers := markers s;
       layers := layers s; has_map := has_map s;
       has_users_list := has_users_list s;
       connectionText := connectionText s;
       trackingText :=
         (fun _ => "Tracking Active"%string) <$> trackingText s;
       pulse := (fun _ => true) <$> pulse s;
       emitted := emitted s ++ [{| data_id := Undefined;
                                   data_latitude := Some latitude;
                                   data_longitude := Some longitude |}] |}.

(** The error callback of [watchPosition]. *)
Definition position_failure (e : position_error) (s : state)
  : outcome state :=
  Returned
    {| mySocketId := mySocketId s; myMarker := myMarker s;
       activeUsers := activeUsers s; written := written s;
       markers := markers s;
       layers := layers s; has_map := has_map s;
       has_users_list := has_users_list s;
       connectionText := connectionText s;
       trackingText :=
         (fun _ => "Tracking Error"%string) <$> trackingText s;
       pulse := (fun _ => false) <$> pulse s;
       emitted := emitted s |}.

(** The state after [map.removeLayer(user.marker)], for a marker that is
    not [null], and [delete activeUsers[id]]. *)
Definition remove (k : jsstring) (u : user) (s : state) : state :=
  with_registry (delete k)
    (with_markers (markers s)
       (match marker u with
        | Some m => layers s ∖ {[m]}
        | None => layers s
        end) s).

(** The body of the [forEach] of the clean-up timer; an exception of
    [updateActiveUsersList()] ends the whole [forEach].  The key has an
    entry when its turn comes, as in [script.js]. *)
Definition sweep_one (now : Z) (o : outcome state) (k : jsstring)
  : outcome state :=
  match o with
  | Threw s => Threw s
  | Returned s =>
      match activeUsers s !! k with
      | None => Returned s
      | Some u =>
          if bool_decide (now - lastUpdate u > 30000) then
            let s' := remove k u s in
            if updateActiveUsersList_throws s' then Threw s'
            else Returned s'
          else Returned s
      end
  end.

(** The callback of [setInterval(..., 30000)]. *)
Definition cleanup (now : Z) (s : state) : outcome state :=
  if negb (has_map s) then Returned s
  else foldl (sweep_one now) (Returned s) (JsObject.keys (activeUsers s)).

Inductive event :=
  | Connect (sid : jsstring)
  | Disconnect
  | ReceiveLocation (now : Z) (data : location)
  | Position (latitude longitude : float)
  | PositionError (e : position_error)
  | Tick (now : Z).

Definition handle (e : event) (s : state) : outcome state :=
  match e with
  | Connect sid => on_connect sid s
  | Disconnect => on_disconnect s
  | ReceiveLocation now data => receive_location now data s
  | Position lat lng => position_success lat lng s
  | PositionError e => position_failure e s
  | Tick now => cleanup now s
  end.

Definition step (s : state) (e : event) : state := state_of (handle e s).

Definition run (es : list event) (s : state) : state := foldl step s es.

Definition is_tick (e : event) : bool :=
  match e with
  | Tick _ => true
  | _ => false
  end.

Definition upserts (i : jsstring) (fixes : list (Z * float * float))
  : list event :=
  (fun f => ReceiveLocation f.1.1
              {| data_id := Str i; data_latitude := Some f.1.2;
                 data_longitude := Some f.2 |}) <$> fixes.

Definition position_of (s : state) (u : user) : option (float * float) :=
  marker u ≫= getLatLng (markers s).

(** Every marker the registry refers to has been created. *)
Definition wf (s : state) : Prop :=
  forall k u m, activeUsers s !! k = Some u -> marker u = Some m ->
                (m < length (markers s))%nat.

End Part000.

(** ** Scenarios *)

Module Scenario.

(** A fix at the default location of the map. *)
Definition here : location :=
  {| data_id := Undefined;
     data_latitude := Some 37.75%float;
     data_longitude := Some (-122.5)%float |}.

(** The same fix, with an identity the sender made up. *)
Definition spoofed : location :=
  {| data_id := Str (js "victim");
     data_latitude := Some 37.75%float;
     data_longitude := Some (-122.5)%float |}.

(** What the relay sends for a fix of the socket [k]. *)
Definition from (k : jsstring) (lat lng : float) : location :=
  {| data_id := Str k;
     data_latitude := Some lat;
     data_longitude := Some lng |}.

(** A relay with two connected sockets. *)
Definition two_sockets : Relay.server :=
  Relay.on_connection (js "b")
    (Relay.on_connection (js "a") {| Relay.sockets := ∅; Relay.console := [] |}).

(** The page of [script.js], connected as [me]. *)
Definition connected : Script.state :=
  Script.run [Script.Connect (js "me")] Script.init.

(** ... after its first fix, at time 0. *)
Definition tracking : Script.state :=
  Script.run [Script.Position TopLevel 0 10 10] connected.

(** ... after it has also heard of [a] at time 100 and of [b] at time
    20000. *)
Definition crowded : Script.state :=
  Script.run [Script.ReceiveLocation 100 (from (js "a") 1 2);
              Script.ReceiveLocation 20000 (from (js "b") 3 4)] tracking.

Definition part000_init : Part000.state :=
  {| Part000.mySocketId := Null; Part000.myMarker := None;
     Part000.activeUsers := ∅; Part000.written := ∅;
     Part000.markers := [];
     Part000.layers := ∅; Part000.has_map := true;
     Part000.has_users_list := true;
     Part000.connectionText := Some ""%string;
     Part000.trackingText := Some ""%string;
     Part000.pulse := Some false; Part000.emitted := [] |}.

(** The page of [part_000], connected as [me], after the relay has sent its own
    first fix back at time 0. *)
Definition part000_tracking : Part000.state :=
  Part000.run [Part000.Connect (js "me");
              Part000.Position 10 10;
              Part000.ReceiveLocation 0 (from (js "me") 10 10)] part000_init.

(** The page of [part_000], connected as [me], after a message that had
    coordinates and no identity, at time 1: the registry has an entry under
    the key [undefined], and the side bar cannot be drawn any more. *)
Definition part000_nameless : Part000.state :=
  Part000.run [Part000.Connect (js "me");
              Part000.ReceiveLocation 1 here] part000_init.

(** What the page on socket [r] is given to handle, at time [now], out of
    the messages [ds] that left the relay. *)
Definition inbox (r : jsstring) (now : Z) (ds : list Relay.delivery)
  : list Script.event :=
  Script.ReceiveLocation now <$> Relay.received_by r ds.

(** The relay with the sockets [a1] and [b1], and the page of [b1] after
    its first fix. *)
Definition relay_a1_b1 : Relay.server :=
  Relay.on_connection (js "b1")
    (Relay.on_connection (js "a1") {| Relay.sockets := ∅; Relay.console := [] |}).

Definition page_b1 : Script.state :=
  Script.run [Script.Connect (js "b1"); Script.Position TopLevel 0 48 2]
    Script.init.

End Scenario.

(** ** The search box of [script.js]: [extractKeywords] *)

Module Search.

(** [String.prototype.toLowerCase] on the characters below 256: the
    letters A-Z and the accented capitals 192-222, the sign 215 apart, move
    up by 32. *)
Definition lower_char (c : Ascii.ascii) : Ascii.ascii :=
  let n := Ascii.N_of_ascii c in
  if ((65 <=? n) && (n <=? 90)
      || (192 <=? n) && (n <=? 222) && negb (n =? 215))%N
  then Ascii.ascii_of_N (n + 32)
  else c.

Fixpoint toLowerCase (s : string) : string :=
  match s with
  | "" => ""
  | String c s' => String (lower_char c) (toLowerCase s')
  end.

(** [s.includes(t)]. *)
Fixpoint includes (s t : string) : bool :=
  String.prefix t s
  || match s with
     | "" => false
     | String _ s' => includes s' t
     end.

(** The table [amenityKeywords]: the term and its [osmTag]. *)
Definition amenityKeywords : list (string * string) :=
  [("restaurant", "amenity=restaurant");
   ("cafe", "amenity=cafe");
   ("coffee", "amenity=cafe");
   ("bar", "amenity=bar");
   ("pub", "amenity=pub");
   ("hotel", "tourism=hotel");
   ("supermarket", "shop=supermarket");
   ("market", "amenity=market");
   ("hospital", "amenity=hospital");
   ("park", "leisure=park");
   ("fuel", "amenity=fuel")]%string.

(** [amenityKeywords.filter(({term}) => lowerQuery.includes(term))
      .map(({osmTag}) => osmTag)]. *)
Definition amenities (lowerQuery : string) : list string :=
  snd <$> List.filter (fun kw => includes lowerQuery kw.1) amenityKeywords.

(** [function extractKeywords(query)]. *)
Definition extractKeywords (query : string) : string :=
  let lowerQuery := toLowerCase query in
  match amenities lowerQuery with
  | [] => query
  | tags => String.concat " " tags +:+ " " +:+ lowerQuery
  end.

End Search.

(** ** The markers of the registry of [script.js], on the map *)

Module Shown.

(** The marker of every entry is on the map. *)
Definition shown (s : Script.state) : Prop :=
  forall k u, Script.activeUsers s !! k = Some u ->
              Script.marker u ∈ Script.layers s.

(** Two entries never have the same marker. *)
Definition apart (s : Script.state) : Prop :=
  forall k1 k2 u1 u2,
    Script.activeUsers s !! k1 = Some u1 ->
    Script.activeUsers s !! k2 = Some u2 ->
    Script.marker u1 = Script.marker u2 -> k1 = k2.

Definition inv (s : Script.state) : Prop :=
  Script.wf s /\ shown s /\ apart s.

(** The event is a message about the entry of key [j]. *)
Definition is_message_for (j : jsstring) (e : Script.event) : bool :=
  match e with
  | Script.ReceiveLocation _ data => bool_decide (key_of (data_id data) = j)
  | _ => false
  end.

End Shown.

Module Scenario2.


End Scenario2.

(** ** The relay, one event after the other *)

Module Session.

(** What reaches the server: a socket connects, a connected socket sends a
    fix, a socket disconnects. *)
Inductive event :=
  | Connection (sid : jsstring)
  | SendLocation (sid : jsstring) (data : location)
  | Disconnect (sid : jsstring).

Definition handle (e : event) (srv : Relay.server)
  : Relay.server * list Relay.delivery :=
  match e with
  | Connection sid => (Relay.on_connection sid srv, [])
  | SendLocation sid data => Relay.on_send_location sid data srv
  | Disconnect sid => Relay.on_disconnect sid srv
  end.

(** The server handles the events in the order in which they come; the
    messages leave in the order in which they are emitted. *)
Fixpoint run (es : list event) (srv : Relay.server)
  : Relay.server * list Relay.delivery :=
  match es with
  | [] => (srv, [])
  | e :: es' =>
      let out := handle e srv in
      let rest := run es' out.1 in
      (rest.1, out.2 ++ rest.2)
  end.

(** What the socket [r] is to hear of the events [es], said without the
    relay: the fixes sent while it is connected, in their order, each
    under the identity the relay gives it; [connected] tells whether [r] is
    connected when [es] begins. *)
Fixpoint heard (r : jsstring) (connected : bool) (es : list event)
  : list location :=
  match es with
  | [] => []
  | Connection sid :: es' =>
      heard r (connected || bool_decide (sid = r)) es'
  | Disconnect sid :: es' =>
      heard r (connected && negb (bool_decide (sid = r))) es'
  | SendLocation sid data :: es' =>
      (if connected
       then [spread {| data_id := Str sid; data_latitude := None;
                       data_longitude := None |} data]
       else [])
      ++ heard r connected es'
  end.

End Session.

(** ** The markers of places: [script.js] *)

Module Poi.

(** A marker made by [addPoiMarker]: where it is and the name in its
    popup.  These markers are objects of their own, never those of the
    registry, so they have their own store. *)
Record marker := {
  latlng : float * float;
  name : string
}.

Record state := {
  poiMarkers : list nat;        (* the array [poiMarkers] *)
  created : list marker;        (* the markers made so far *)
  on_map : gset nat;            (* those that are on the map *)
  center : float * float        (* where [map.setView] has put the map *)
}.

(** [DEFAULT_LOCATION], the nearest binary64 numbers to 37.7749 and
    -122.4194. *)
Definition DEFAULT_LOCATION : float * float :=
  (0x1.2e32fec56d5dp+5%float, (-0x1.e9ad77318fc5p+6)%float).

Definition init : state :=
  {| poiMarkers := []; created := []; on_map := ∅;
     center := DEFAULT_LOCATION |}.

(** [function addPoiMarker(lat, lng, name)]; a coordinate is the number
    that Leaflet makes of the argument, [None] when there is none. *)
Definition addPoiMarker (lat lng : option float) (n : string) (s : state)
  : outcome state :=
  match Leaflet.toLatLng lat lng with
  | None => Threw s
  | Some ll =>
      let m := length (created s) in
      Returned
        {| poiMarkers := poiMarkers s ++ [m];
           created := created s ++ [{| latlng := ll; name := n |}];
           on_map := {[m]} ∪ on_map s;
           center := center s |}
  end.

(** [function clearPoiMarkers()]. *)
Definition clearPoiMarkers (s : state) : outcome state :=
  Returned
    {| poiMarkers := [];
       created := created s;
       on_map := foldl (fun l m => l ∖ {[m]}) (on_map s) (poiMarkers s);
       center := center s |}.

(** [function clearSearchResults()]; the text it puts in the results panel
    is display. *)
Definition clearSearchResults (s : state) : outcome state :=
  clearPoiMarkers s.

(** [function viewOnMap(lat, lng, name)]; [map.setView] throws like
    [L.marker] when a coordinate is not a number. *)
Definition viewOnMap (lat lng : option float) (n : string) (s : state)
  : outcome state :=
  match Leaflet.toLatLng lat lng with
  | None => Threw s
  | Some ll =>
      addPoiMarker lat lng n
        {| poiMarkers := poiMarkers s; created := created s;
           on_map := on_map s; center := ll |}
  end.

(** The calls that the page makes, from its buttons and its search
    functions. *)
Inductive call :=
  | AddPoiMarker (lat lng : option float) (n : string)
  | ViewOnMap (lat lng : option float) (n : string)
  | ClearPoiMarkers
  | ClearSearchResults.

Definition handle (c : call) (s : state) : outcome state :=
  match c with
  | AddPoiMarker lat lng n => addPoiMarker lat lng n s
  | ViewOnMap lat lng n => viewOnMap lat lng n s
  | ClearPoiMarkers => clearPoiMarkers s
  | ClearSearchResults => clearSearchResults s
  end.

Definition step (s : state) (c : call) : state := state_of (handle c s).

Definition run (cs : list call) (s : state) : state := foldl step s cs.

(** The markers of the array are made, differ from one another and are
    the markers of places that are on the map. *)
Definition inv (s : state) : Prop :=
  Forall (fun m => (m < length (created s))%nat) (poiMarkers s)
  /\ NoDup (poiMarkers s)
  /\ on_map s = list_to_set (poiMarkers s).

End Poi.

(** ** The markers of places: [src/unnamed/part_000] *)

Module Part000Poi.

Record state := {
  poiMarkers : list nat;
  created : list Poi.marker;
  on_map : gset nat;
  center : float * float;       (* where the map is centred *)
  popup : option nat;           (* the marker whose popup is open *)
  has_map : bool;               (* [map] is defined *)
  routeLayer : bool;            (* [routeLayer] is not null *)
  route_on_map : bool;          (* the layer of the route is on the map *)
  routeInfoControl : bool;      (* [routeInfoControl] is not null *)
  control_on_map : bool;
  panel_active : option bool    (* [searchResultsPanel], if found *)
}.

Definition with_pois (p : list nat) (c : list Poi.marker) (l : gset nat)
    (s : state) : state :=
  {| poiMarkers := p; created := c; on_map := l; center := center s;
     popup := popup s; has_map := has_map s; routeLayer := routeLayer s;
     route_on_map := route_on_map s;
     routeInfoControl := routeInfoControl s;
     control_on_map := control_on_map s; panel_active := panel_active s |}.

Definition with_center (ll : float * float) (s : state) : state :=
  {| poiMarkers := poiMarkers s; created := created s; on_map := on_map s;
     center := ll; popup := popup s; has_map := has_map s;
     routeLayer := routeLayer s; route_on_map := route_on_map s;
     routeInfoControl := routeInfoControl s;
     control_on_map := control_on_map s; panel_active := panel_active s |}.

(** [marker.openPopup()] on the marker [m], which is on the map: its popup
    is the one that is open, and Leaflet moves the map when the popup does
    not fit in it, by an amount that depends on the sizes of the page and
    of the popup; [view] is where the map is centred once the popup is
    open. *)
Definition openPopup (m : nat) (view : float * float) (s : state) : state :=
  {| poiMarkers := poiMarkers s; created := created s; on_map := on_map s;
     center := view; popup := Some m; has_map := has_map s;
     routeLayer := routeLayer s; route_on_map := route_on_map s;
     routeInfoControl := routeInfoControl s;
     control_on_map := control_on_map s; panel_active := panel_active s |}.

(** [function addPoiMarker(lat, lng, name)]; the arguments are numbers
    ([lat.toFixed] is called on them). *)
Definition addPoiMarker (lat lng : float) (n : string)
    (view : float * float) (s : state) : outcome state :=
  if negb (has_map s) then Returned s
  else
    match Leaflet.toLatLng (Some lat) (Some lng) with
    | None => Threw s
    | Some ll =>
        let m := length (created s) in
        (* L.marker([lat, lng], ...).addTo(map) *)
        let s1 :=
          with_pois (poiMarkers s)
            (created s ++ [{| Poi.latlng := ll; Poi.name := n |}])
            ({[m]} ∪ on_map s) s in
        (* marker.bindPopup(...).openPopup() *)
        let s2 := openPopup m view s1 in
        (* poiMarkers.push(marker) *)
        Returned (with_pois (poiMarkers s2 ++ [m]) (created s2) (on_map s2) s2)
    end.

(** The test of the loop of [viewOnMap]:
    [m._latlng && m._latlng.lat === lat && m._latlng.lng === lng]. *)
Definition is_at (lat lng : float) (s : state) (m : nat) : bool :=
  match created s !! m with
  | Some p => PrimFloat.eqb (Poi.latlng p).1 lat
              && PrimFloat.eqb (Poi.latlng p).2 lng
  | None => false
  end.

(** [function viewOnMap(lat, lng, name)]. *)
Definition viewOnMap (lat lng : float) (n : string) (view : float * float)
    (s : state) : outcome state :=
  if negb (has_map s) then Returned s
  else
    match Leaflet.toLatLng (Some lat) (Some lng) with
    | None => Threw s
    | Some ll =>
        let s1 := with_center ll s in
        match List.find (is_at lat lng s1) (poiMarkers s1) with
        | None => addPoiMarker lat lng n view s1
        | Some m => Returned (openPopup m view s1)
        end
    end.

(** [function clearSearchResults()]; a marker that leaves the map closes
    its popup. *)
Definition clearSearchResults (s : state) : outcome state :=
  if negb (has_map s) then Returned s
  else
    Returned
      {| poiMarkers := [];
         created := created s;
         on_map := foldl (fun l m => l ∖ {[m]}) (on_map s) (poiMarkers s);
         center := center s;
         popup := match popup s with
                  | Some m =>
                      if bool_decide (m ∈ poiMarkers s) then None else Some m
                  | None => None
                  end;
         has_map := has_map s;
         routeLayer := false;
         route_on_map := if routeLayer s then false else route_on_map s;
         routeInfoControl := false;
         control_on_map :=
           if routeInfoControl s then false else control_on_map s;
         panel_active := (fun _ => false) <$> panel_active s |}.

Inductive call :=
  | AddPoiMarker (lat lng : float) (n : string) (view : float * float)
  | ViewOnMap (lat lng : float) (n : string) (view : float * float)
  | ClearSearchResults.

Definition handle (c : call) (s : state) : outcome state :=
  match c with
  | AddPoiMarker lat lng n view => addPoiMarker lat lng n view s
  | ViewOnMap lat lng n view => viewOnMap lat lng n view s
  | ClearSearchResults => clearSearchResults s
  end.

Definition step (s : state) (c : call) : state := state_of (handle c s).

Definition run (cs : list call) (s : state) : state := foldl step s cs.

(** Every marker of the array has been made and is on the map. *)
Definition wf (s : state) : Prop :=
  Forall (fun m => (m < length (created s))%nat /\ m ∈ on_map s)
         (poiMarkers s).

Definition sample : state :=
  {| poiMarkers := []; created := []; on_map := ∅;
     center := Poi.DEFAULT_LOCATION; popup := None; has_map := true;
     routeLayer := false; route_on_map := false; routeInfoControl := false;
     control_on_map := false; panel_active := Some false |}.

End Part000Poi.

(** ** The distance tool of [script.js] *)

Module Measure.

(** The markers and the lines of the tool are objects of their own, kept
    in two stores.  The distance that [handleMeasureClick] computes goes to
    a popup and a toast only, which are display and are left out. *)
Record state := {
  distanceMeasurementActive : bool;
  listening : bool;              (* [handleMeasureClick] is on 'click' *)
  measurePoints : list (float * float);
  measureMarkers : list nat;
  measureLines : list nat;
  markers : list (float * float);          (* the markers made so far *)
  lines : list (list (float * float));     (* the polylines made so far *)
  markers_on_map : gset nat;
  lines_on_map : gset nat
}.

Definition init : state :=
  {| distanceMeasurementActive := false; listening := false;
     measurePoints := []; measureMarkers := []; measureLines := [];
     markers := []; lines := []; markers_on_map := ∅; lines_on_map := ∅ |}.

(** [measurePoints.slice(-2)]. *)
Definition last_two {A : Type} (l : list A) : list A :=
  drop (length l - 2) l.

(** [function handleMeasureClick(e)], for a click at [e.latlng]. *)
Definition handleMeasureClick (latlng : float * float) (s : state) : state :=
  let points := measurePoints s ++ [latlng] in
  let m := length (markers s) in
  if bool_decide (1 < length points)%nat then
    let l := length (lines s) in
    {| distanceMeasurementActive := distanceMeasurementActive s;
       listening := listening s;
       measurePoints := points;
       measureMarkers := measureMarkers s ++ [m];
       measureLines := measureLines s ++ [l];
       markers := markers s ++ [latlng];
       lines := lines s ++ [last_two points];
       markers_on_map := {[m]} ∪ markers_on_map s;
       lines_on_map := {[l]} ∪ lines_on_map s |}
  else
    {| distanceMeasurementActive := distanceMeasurementActive s;
       listening := listening s;
       measurePoints := points;
       measureMarkers := measureMarkers s ++ [m];
       measureLines := measureLines s;
       markers := markers s ++ [latlng];
       lines := lines s;
       markers_on_map := {[m]} ∪ markers_on_map s;
       lines_on_map := lines_on_map s |}.

(** [function clearMeasurement()]. *)
Definition clearMeasurement (s : state) : state :=
  {| distanceMeasurementActive := distanceMeasurementActive s;
     listening := listening s;
     measurePoints := [];
     measureMarkers := [];
     measureLines := [];
     markers := markers s;
     lines := lines s;
     markers_on_map :=
       foldl (fun l m => l ∖ {[m]}) (markers_on_map s) (measureMarkers s);
     lines_on_map :=
       foldl (fun l m => l ∖ {[m]}) (lines_on_map s) (measureLines s) |}.

(** The click handler of the button [measure-distance]. *)
Definition toggle (s : state) : state :=
  if negb (distanceMeasurementActive s) then
    (* map.on('click', handleMeasureClick) *)
    {| distanceMeasurementActive := true; listening := true;
       measurePoints := measurePoints s;
       measureMarkers := measureMarkers s;
       measureLines := measureLines s;
       markers := markers s; lines := lines s;
       markers_on_map := markers_on_map s;
       lines_on_map := lines_on_map s |}
  else
    (* map.off('click', handleMeasureClick); clearMeasurement() *)
    clearMeasurement
      {| distanceMeasurementActive := false; listening := false;
         measurePoints := measurePoints s;
         measureMarkers := measureMarkers s;
         measureLines := measureLines s;
         markers := markers s; lines := lines s;
         markers_on_map := markers_on_map s;
         lines_on_map := lines_on_map s |}.

(** What the user does: a click on the button, a click on the map. *)
Inductive event :=
  | Button
  | MapClick (latlng : float * float).

Definition step (s : state) (e : event) : state :=
  match e with
  | Button => toggle s
  | MapClick latlng => if listening s then handleMeasureClick latlng s else s
  end.

Definition run (es : list event) (s : state) : state := foldl step s es.

(** What holds of the tool at any time. *)
Definition inv (s : state) : Prop :=
  listening s = distanceMeasurementActive s
  /\ length (measureMarkers s) = length (measurePoints s)
  /\ length (measureLines s) = pred (length (measurePoints s))
  /\ markers_on_map s = list_to_set (measureMarkers s)
  /\ lines_on_map s = list_to_set (measureLines s)
  /\ (distanceMeasurementActive s = false -> measurePoints s = []).

End Measure.

(** * Properties *)

(** ** Lists *)

Section Lists.
Context {A : Type} `{EqDecision A}.

(** In a list without duplicates, how often [r] is met. *)
Lemma filter_eq_NoDup {B : Type} (f : A -> B) (g : B -> A) (r : A)
    (l : list A) :
  (forall x, g (f x) = x) ->
  NoDup l ->
  filter (fun y => g y = r) (f <$> l)
  = if bool_decide (r ∈ l) then [f r] else [].
Proof.
  intros Hgf. induction 1 as [|x l Hx Hl IH]; [done|].
  rewrite fmap_cons. destruct (decide (x = r)) as [->|Hne].
  - rewrite filter_cons_True by apply Hgf.
    rewrite IH, bool_decide_eq_false_2 by done.
    by rewrite bool_decide_eq_true_2 by apply list_elem_of_here.
  - rewrite filter_cons_False by (by rewrite Hgf).
    rewrite IH. apply (f_equal (fun b : bool => if b then [f r] else [])).
    symmetry. apply bool_decide_ext. rewrite elem_of_cons. intuition congruence.
Qed.

Lemma bool_decide_elem_of_cons_ne (j k : A) (l : list A) :
  j <> k -> bool_decide (j ∈ k :: l) = bool_decide (j ∈ l).
Proof. intros Hne. apply bool_decide_ext. rewrite elem_of_cons. tauto. Qed.

(** A key that a list without duplicates holds is met once. *)
Lemma filter_key_once (i : A) (l : list A) :
  NoDup l -> i ∈ l -> filter (fun k => k = i) l = [i].
Proof.
  induction 1 as [|x l Hx Hl IH]; [by intros ?%elem_of_nil|].
  rewrite elem_of_cons. intros Hin. destruct (decide (x = i)) as [->|Hne].
  - rewrite filter_cons_True by done. f_equal.
    clear IH Hin Hl. induction l as [|y l IH]; [done|].
    apply not_elem_of_cons in Hx as [Hy Hx].
    rewrite filter_cons_False by congruence. by apply IH.
  - rewrite filter_cons_False by done. apply IH.
    destruct Hin as [?|?]; [congruence|done].
Qed.

End Lists.

(** ** Objects used as dictionaries *)

Section ObjectFacts.
Import JsObject.
Context {V : Type}.
Implicit Types (o : obj V) (k j : jsstring) (v : V) (l : list (jsstring * V)).

Lemma find_app_r k v l :
  find k l = None -> find k (l ++ [(k, v)]) = Some v.
Proof.
  induction l as [|[j w] l IH]; cbn.
  - intros _. by rewrite decide_True.
  - destruct (decide (j = k)); [done|]. apply IH.
Qed.

Lemma find_app_ne k j v l : k <> j -> find j (l ++ [(k, v)]) = find j l.
Proof.
  intros Hne. induction l as [|[i w] l IH]; cbn.
  - by rewrite decide_False.
  - by destruct (decide (i = j)).
Qed.

Lemma find_replace_eq k v l :
  is_Some (find k l) -> find k (replace k v l) = Some v.
Proof.
  induction l as [|[j w] l IH]; cbn; [by intros [? ?]|].
  destruct (decide (j = k)) as [->|Hne]; cbn.
  - by rewrite decide_True.
  - by rewrite decide_False.
Qed.

Lemma find_replace_ne k j v l : k <> j -> find j (replace k v l) = find j l.
Proof.
  intros Hne. induction l as [|[i w] l IH]; cbn; [done|].
  destruct (decide (i = k)) as [->|Hik]; cbn.
  - by rewrite !decide_False.
  - by destruct (decide (i = j)).
Qed.

Lemma find_filter_eq k l : find k (filter (fun p => p.1 <> k) l) = None.
Proof.
  induction l as [|[j w] l IH]; [done|].
  destruct (decide (j = k)) as [->|Hne].
  - by rewrite filter_cons_False by (cbn; tauto).
  - rewrite filter_cons_True by done. cbn. by rewrite decide_False.
Qed.

Lemma find_filter_ne k j l :
  k <> j -> find j (filter (fun p => p.1 <> k) l) = find j l.
Proof.
  intros Hne. induction l as [|[i w] l IH]; [done|].
  destruct (decide (i = k)) as [->|Hik].
  - rewrite filter_cons_False by (cbn; tauto). cbn.
    by rewrite decide_False.
  - rewrite filter_cons_True by done. cbn. by rewrite IH.
Qed.

Lemma find_is_Some k l : is_Some (find k l) <-> k ∈ l.*1.
Proof.
  induction l as [|[j w] l IH]; cbn.
  - split; [by intros [? ?]|by intros ?%elem_of_nil].
  - rewrite elem_of_cons. destruct (decide (j = k)) as [->|Hne].
    + split; [by left|by eexists].
    + rewrite IH. split; [by right|]. intros [?|?]; [congruence|done].
Qed.

Lemma replace_keys k v l : (replace k v l).*1 = l.*1.
Proof.
  induction l as [|[j w] l IH]; cbn; [done|].
  destruct (decide (j = k)); cbn; by rewrite ?IH.
Qed.

Lemma replace_replace k v v' l : replace k v (replace k v' l) = replace k v l.
Proof.
  induction l as [|[j w] l IH]; cbn; [done|].
  destruct (decide (j = k)) as [->|Hne]; cbn.
  - by rewrite decide_True.
  - by rewrite decide_False, IH.
Qed.

Lemma replace_app_new k v v' l :
  find k l = None -> replace k v (l ++ [(k, v')]) = l ++ [(k, v)].
Proof.
  induction l as [|[j w] l IH]; cbn.
  - intros _. by rewrite decide_True.
  - destruct (decide (j = k)); [done|]. intros Hk. by rewrite IH.
Qed.

Lemma obj_lookup_empty k : (∅ : obj V) !! k = None.
Proof. done. Qed.

Lemma obj_lookup_insert_eq o k v : <[k := v]> o !! k = Some v.
Proof.
  unfold lookup, insert, obj_lookup, obj_insert. cbn.
  destruct (find k (own o)) eqn:Hk.
  - apply find_replace_eq. by rewrite Hk.
  - by apply find_app_r.
Qed.

Lemma obj_lookup_insert_ne o k j v : k <> j -> <[k := v]> o !! j = o !! j.
Proof.
  intros Hne. unfold lookup, insert, obj_lookup, obj_insert. cbn.
  destruct (find k (own o)).
  - by apply find_replace_ne.
  - by apply find_app_ne.
Qed.

Lemma obj_lookup_delete_eq o k : delete k o !! k = None.
Proof. apply find_filter_eq. Qed.

Lemma obj_lookup_delete_ne o k j : k <> j -> delete k o !! j = o !! j.
Proof. apply find_filter_ne. Qed.

Lemma obj_lookup_delete_Some o k j v :
  delete k o !! j = Some v -> k <> j /\ o !! j = Some v.
Proof.
  destruct (decide (k = j)) as [->|Hne].
  - by rewrite obj_lookup_delete_eq.
  - by rewrite obj_lookup_delete_ne.
Qed.

Lemma obj_insert_insert_eq o k v v' :
  <[k := v]> (<[k := v']> o) = <[k := v]> o.
Proof.
  unfold insert, obj_insert. cbn. f_equal.
  destruct (find k (own o)) eqn:Hk.
  - rewrite find_replace_eq by (by rewrite Hk). apply replace_replace.
  - rewrite find_app_r by done. by apply replace_app_new.
Qed.

Lemma obj_elem_of_dom o k : k ∈ dom o <-> is_Some (o !! k).
Proof.
  unfold dom, obj_dom. rewrite elem_of_list_to_set. symmetry.
  apply find_is_Some.
Qed.

Lemma obj_dom_insert o k v : dom (<[k := v]> o) = {[k]} ∪ dom o.
Proof.
  apply set_eq. intros j.
  rewrite elem_of_union, elem_of_singleton, !obj_elem_of_dom.
  destruct (decide (k = j)) as [->|Hne].
  - rewrite obj_lookup_insert_eq. split; [by left|by eexists].
  - rewrite obj_lookup_insert_ne by done. split; [by right|].
    intros [?|?]; [congruence|done].
Qed.

Lemma obj_dom_insert_subseteq o k v : dom o ⊆ dom (<[k := v]> o).
Proof. rewrite obj_dom_insert. apply union_subseteq_r. Qed.

Lemma property_order_Permutation (ks : list jsstring) :
  property_order ks ≡ₚ ks.
Proof.
  unfold property_order. rewrite merge_sort_Permutation.
  apply filter_app_complement.
Qed.

(** [Object.keys] lists the keys of the own properties, each once. *)
Lemma obj_elem_of_keys o k : k ∈ keys o <-> is_Some (o !! k).
Proof.
  unfold keys. rewrite property_order_Permutation, elem_of_remove_dups.
  symmetry. apply find_is_Some.
Qed.

Lemma obj_NoDup_keys o : NoDup (keys o).
Proof.
  unfold keys. rewrite property_order_Permutation. apply NoDup_remove_dups.
Qed.

(** [Object.values] lists the values of the own properties. *)
Lemma obj_elem_of_values o v : v ∈ values o <-> exists k, o !! k = Some v.
Proof.
  unfold values. rewrite list_elem_of_omap. split.
  - intros (k & _ & Hk). by exists k.
  - intros (k & Hk). exists k. split; [|done].
    apply obj_elem_of_keys. by rewrite Hk.
Qed.

Lemma get_Own inh o k v : o !! k = Some v -> get inh o k = Own v.
Proof. unfold get. by intros ->. Qed.

Lemma get_Missing inh o k :
  o !! k = None -> inh k = false -> get inh o k = Missing.
Proof. unfold get. by intros -> ->. Qed.

Lemma get_Inherited inh o k :
  o !! k = None -> inh k = true -> get inh o k = Inherited.
Proof. unfold get. by intros -> ->. Qed.

End ObjectFacts.

(** A run of [existsb] that finds nothing. *)
Lemma existsb_false_Forall {A : Type} (f : A -> bool) (l : list A) :
  existsb f l = false <-> Forall (fun x => f x = false) l.
Proof.
  induction l as [|x l IH]; cbn; [by split; [constructor|]|].
  rewrite orb_false_iff, IH, Forall_cons. tauto.
Qed.
(** ** The relay *)

Section RelayFacts.
Import Relay.

(** What [io.emit] puts on the socket [r]. *)
Lemma received_by_io_emit (srv : server) (ev : string) (msg : location)
    (r : jsstring) :
  received_by r (io_emit srv ev msg)
  = if bool_decide (r ∈ sockets srv) then [msg] else [].
Proof.
  unfold received_by, io_emit.
  rewrite (filter_eq_NoDup _ recipient r) by (done || apply NoDup_elements).
  rewrite (bool_decide_ext (r ∈ elements (sockets srv)) (r ∈ sockets srv))
    by apply elem_of_elements.
  by case_bool_decide.
Qed.

Lemma length_io_emit (srv : server) (ev : string) (msg : location) :
  length (io_emit srv ev msg) = size (sockets srv).
Proof. unfold io_emit. by rewrite length_fmap. Qed.

End RelayFacts.

(** C1, as the specification states it, fails: the relay uses [io.emit],
    which also reaches the socket the fix came from.  With the sockets [a]
    and [b] connected and a fix from [a], the socket [a] is sent the
    [receive-location] message too, and two messages leave the relay, not
    one. *)
Lemma relay_echoes_to_sender :
  let ds := (Relay.on_send_location (js "a") Scenario.here
               Scenario.two_sockets).2 in
  js "a" ∈ Relay.sockets Scenario.two_sockets
  /\ size (Relay.sockets Scenario.two_sockets) = 2%nat
  /\ Relay.received_by (js "a") ds
     = [Scenario.from (js "a") 37.75%float (-122.5)%float]
  /\ length ds = 2%nat.
Proof. vm_compute. split; [|done]. set_solver. Qed.

(** C1, amended: for every set of connected sockets and every
    [send-location] of the socket [k] that carries a latitude and a
    longitude, every connected socket, [k] among them, is sent exactly one
    [receive-location] message, whose identity is [k] and whose coordinates
    are the ones sent; a socket that is not connected is sent nothing; the
    relay sends as many messages as there are connected sockets and keeps no
    trace of the fix. *)
Theorem relay_fanout_reaches_every_socket
    (srv : Relay.server) (k : jsstring) (lat lng : float) (r : jsstring) :
  let data := {| data_id := Undefined;
                 data_latitude := Some lat;
                 data_longitude := Some lng |} in
  let out := Relay.on_send_location k data srv in
  Relay.received_by r out.2
  = (if bool_decide (r ∈ Relay.sockets srv)
     then [Scenario.from k lat lng] else [])
  /\ length out.2 = size (Relay.sockets srv)
  /\ Forall (fun d => Relay.event_name d = "receive-location"%string
                      /\ Relay.payload d = Scenario.from k lat lng) out.2
  /\ out.1 = srv.
Proof.
  cbn zeta. unfold Relay.on_send_location. cbn [fst snd].
  split; [apply received_by_io_emit|].
  split; [apply length_io_emit|].
  split; [|done].
  unfold Relay.io_emit. apply Forall_fmap, Forall_forall. by intros x _.
Qed.

(** C4 fails on the code: in [{id:socket.id,...data}] the fields of [data]
    come last, so an [id] sent by the client replaces the id of its socket.
    A fix that the socket [attacker] sends with [id: "victim"] reaches every
    socket under the identity [victim]. *)
Lemma relay_forwards_client_identity :
  Relay.payload <$> (Relay.on_send_location (js "attacker") Scenario.spoofed
                       Scenario.two_sockets).2
  = [Scenario.from (js "victim") 37.75%float (-122.5)%float;
     Scenario.from (js "victim") 37.75%float (-122.5)%float].
Proof. vm_compute. reflexivity. Qed.

(** The relay's identity survives only when the client sends none. *)
Lemma relay_identity (srv : Relay.server) (k : jsstring) (data : location) :
  Forall (fun d => data_id (Relay.payload d)
                   = match data_id data with
                     | Undefined => Str k
                     | i => i
                     end)
         (Relay.on_send_location k data srv).2.
Proof.
  unfold Relay.on_send_location, Relay.io_emit. cbn [snd].
  apply Forall_fmap, Forall_forall. by intros x _.
Qed.

(** ** The clean-up timer of [script.js] *)

Section ScriptSweep.
Import Script.
Variables th now : Z.

(** Once [updateActiveUsersList()] has thrown, the loop is over. *)
Lemma script_sweep_Threw (l : list jsstring) (s : state) :
  foldl (sweep_one th now) (Threw s) l = Threw s.
Proof. induction l as [|k l IH]; [done|]. cbn [foldl]. apply IH. Qed.

(** A round of the loop writes the registry and the layers of the map
    only. *)
Lemma sweep_one_frame (o : outcome state) (k : jsstring) :
  let s := state_of o in
  let s' := state_of (sweep_one th now o k) in
  mySocketId s' = mySocketId s /\ myMarker s' = myMarker s
  /\ markers s' = markers s /\ page s' = page s /\ emitted s' = emitted s.
Proof.
  destruct o as [s|s]; [|done]. cbn [sweep_one state_of].
  destruct (activeUsers s !! k) as [u|]; [|done].
  destruct (expired th now s k u); [|done].
  by destruct (updateActiveUsersList_throws (remove k u s)).
Qed.

Lemma foldl_sweep_one_frame (l : list jsstring) (o : outcome state) :
  let s := state_of o in
  let s' := state_of (foldl (sweep_one th now) o l) in
  mySocketId s' = mySocketId s /\ myMarker s' = myMarker s
  /\ markers s' = markers s /\ page s' = page s /\ emitted s' = emitted s.
Proof.
  revert o. induction l as [|k l IH]; intros o; [done|].
  cbn [foldl]. cbn zeta in *.
  destruct (IH (sweep_one th now o k)) as (-> & -> & -> & -> & ->).
  apply sweep_one_frame.
Qed.

Lemma expired_mySocketId (s s' : state) (k : jsstring) (u : user) :
  mySocketId s' = mySocketId s ->
  expired th now s' k u = expired th now s k u.
Proof. unfold expired. by intros ->. Qed.

(** One round of the loop removes the entry of [k] when it is expired and
    touches no other entry, whether the side bar is drawn afterwards or
    not. *)
Lemma sweep_one_lookup (s : state) (k j : jsstring) :
  activeUsers (state_of (sweep_one th now (Returned s) k)) !! j
  = activeUsers s !! j ≫= fun u =>
      if bool_decide (j = k) && expired th now s j u then None else Some u.
Proof.
  assert (forall u, activeUsers (remove k u s) = delete k (activeUsers s))
    as Hrm by done.
  cbn [sweep_one]. destruct (decide (j = k)) as [->|Hne].
  - rewrite bool_decide_eq_true_2 by done.
    destruct (activeUsers s !! k) as [u|] eqn:Hk; cbn; [|by rewrite Hk].
    destruct (expired th now s k u); cbn; [|by rewrite Hk].
    destruct (updateActiveUsersList_throws (remove k u s)); cbn [state_of];
      rewrite Hrm; apply obj_lookup_delete_eq.
  - rewrite bool_decide_eq_false_2 by done. cbn.
    destruct (activeUsers s !! k) as [u|] eqn:Hk.
    + destruct (expired th now s k u); cbn.
      * destruct (updateActiveUsersList_throws (remove k u s));
          cbn [state_of]; rewrite Hrm, obj_lookup_delete_ne by done;
          by destruct (activeUsers s !! j).
      * by destruct (activeUsers s !! j).
    + cbn. by destruct (activeUsers s !! j).
Qed.

(** What the loop over the keys [l] leaves of the entry of [j], whether it
    came to its end or not: the entry as it was, or nothing, and then the
    entry was expired. *)
Lemma foldl_sweep_one_lookup (l : list jsstring) (o : outcome state)
    (j : jsstring) :
  let s := state_of o in
  let s' := state_of (foldl (sweep_one th now) o l) in
  activeUsers s' !! j = activeUsers s !! j
  \/ (activeUsers s' !! j = None /\ j ∈ l
      /\ exists u, activeUsers s !! j = Some u
                   /\ expired th now s j u = true).
Proof.
  cbn zeta. revert o. induction l as [|k l IH]; intros o; [by left|].
  cbn [foldl]. destruct o as [s|s];
    [|cbn [sweep_one]; rewrite script_sweep_Threw; by left].
  cbn [state_of].
  pose proof (sweep_one_frame (Returned s) k) as (Hmy & _).
  cbn zeta in Hmy. cbn [state_of] in Hmy.
  pose proof (sweep_one_lookup s k j) as H1.
  destruct (IH (sweep_one th now (Returned s) k))
    as [H|(H & Hin & u & Hu & He)].
  - rewrite H, H1. destruct (activeUsers s !! j) as [u|] eqn:Hj; [|by left].
    cbn. destruct (bool_decide (j = k) && expired th now s j u) eqn:Hb;
      [|by left].
    right. apply andb_true_iff in Hb as [Hjk He].
    apply bool_decide_eq_true in Hjk as ->.
    split; [done|]. split; [apply list_elem_of_here|]. by exists u.
  - right. split; [done|]. split; [by apply list_elem_of_further|].
    rewrite H1 in Hu. destruct (activeUsers s !! j) as [v|]; [|done].
    cbn in Hu. destruct (bool_decide (j = k) && expired th now s j v);
      [done|]. simplify_eq.
    exists u. split; [done|]. by rewrite <- (expired_mySocketId s _ j u Hmy).
Qed.


Lemma sweep_one_layers (s : state) (a : jsstring) (m : nat) :
  m ∈ layers (state_of (sweep_one th now (Returned s) a))
  <-> m ∈ layers s
      /\ forall u, activeUsers s !! a = Some u ->
                   expired th now s a u = true -> marker u <> m.
Proof.
  cbn [sweep_one]. destruct (activeUsers s !! a) as [u|];
    [|split; [intros Hm; split; [done|]; by intros ? [=] | tauto]].
  destruct (expired th now s a u) eqn:He.
  - assert (layers (state_of
                      (if updateActiveUsersList_throws (remove a u s)
                       then Threw (remove a u s)
                       else Returned (remove a u s)))
            = layers s ∖ {[marker u]}) as ->
      by (by destruct (updateActiveUsersList_throws (remove a u s))).
    rewrite elem_of_difference, elem_of_singleton. split.
    + intros [Hm Hne]. split; [done|]. intros ? [= <-] _. congruence.
    + intros [Hm Hne]. split; [done|]. intros ->. by apply (Hne u).
  - cbn. split; [|tauto]. intros Hm. split; [done|].
    intros ? [= <-]. congruence.
Qed.

(** After the loop over the keys [l], whether it came to its end or not,
    the layers of the map are the former ones without the markers of the
    entries that it has removed. *)
Lemma foldl_sweep_one_layers (l : list jsstring) (o : outcome state)
    (m : nat) :
  let s := state_of o in
  let s' := state_of (foldl (sweep_one th now) o l) in
  m ∈ layers s'
  <-> m ∈ layers s
      /\ forall k u, activeUsers s !! k = Some u ->
                     activeUsers s' !! k = None -> marker u <> m.
Proof.
  cbn zeta. revert o. induction l as [|a l IH]; intros o.
  - cbn. split; [|tauto]. intros Hm. split; [done|].
    intros k u Hk Hk'. congruence.
  - cbn [foldl].
    destruct o as [s|s].
    2:{ cbn [sweep_one]. rewrite script_sweep_Threw. cbn. split; [|tauto].
        intros Hm. split; [done|]. intros k u Hk Hk'. congruence. }
    cbn [state_of]. rewrite IH, sweep_one_layers.
    set (o1 := sweep_one th now (Returned s) a).
    assert (forall k, activeUsers (state_of o1) !! k = None ->
                      activeUsers (state_of (foldl (sweep_one th now) o1 l))
                        !! k = None) as Hgone.
    { intros k Hk.
      destruct (foldl_sweep_one_lookup l o1 k) as [H|(H & _)]; [|done].
      cbn zeta in H. congruence. }
    split.
    + intros [[Hm Ha] Hl]. split; [done|]. intros k u Hu Hu'.
      pose proof (sweep_one_lookup s a k) as H1. fold o1 in H1.
      rewrite Hu in H1. cbn in H1.
      destruct (bool_decide (k = a) && expired th now s k u) eqn:Hb.
      * apply andb_true_iff in Hb as [Hka He].
        apply bool_decide_eq_true in Hka as ->. by apply Ha.
      * by apply (Hl k u).
    + intros [Hm Hall]. split; [split; [done|]|].
      * intros u Hu He. apply (Hall a u Hu). apply Hgone.
        pose proof (sweep_one_lookup s a a) as H1. fold o1 in H1.
        rewrite Hu in H1. cbn in H1.
        by rewrite bool_decide_eq_true_2, He in H1.
      * intros k u Hu Hu'. apply (Hall k u); [|done].
        pose proof (sweep_one_lookup s a k) as H1. fold o1 in H1.
        rewrite Hu in H1. destruct (activeUsers s !! k) as [v|]; [|done].
        cbn in H1. destruct (bool_decide (k = a) && expired th now s k v);
          by simplify_eq.
Qed.

(** The tick, whether it came to its end or not: an entry is left as it
    was, or it is removed, and then it was expired. *)
Lemma sweep_lookup (s : state) (j : jsstring) :
  let s' := state_of (sweep th now s) in
  activeUsers s' !! j = activeUsers s !! j
  \/ (activeUsers s' !! j = None
      /\ exists u, activeUsers s !! j = Some u
                   /\ expired th now s j u = true).
Proof.
  destruct (foldl_sweep_one_lookup (JsObject.keys (activeUsers s))
              (Returned s) j) as [H|(H & _ & Hu)]; [by left|by right].
Qed.


Lemma sweep_layers (s : state) (m : nat) :
  let s' := state_of (sweep th now s) in
  m ∈ layers s'
  <-> m ∈ layers s
      /\ forall k u, activeUsers s !! k = Some u ->
                     activeUsers s' !! k = None -> marker u <> m.
Proof.
  apply (foldl_sweep_one_layers (JsObject.keys (activeUsers s)) (Returned s)).
Qed.

Lemma sweep_frame (s : state) :
  let s' := state_of (sweep th now s) in
  mySocketId s' = mySocketId s /\ myMarker s' = myMarker s
  /\ markers s' = markers s /\ page s' = page s /\ emitted s' = emitted s.
Proof.
  apply (foldl_sweep_one_frame (JsObject.keys (activeUsers s)) (Returned s)).
Qed.

End ScriptSweep.

(** The side bar of [script.js] is drawn without an exception when the list
    is not there, or when [btoa] takes every identity of the registry. *)
Lemma script_list_is_drawn (s : Script.state) :
  Script.has_users_list (Script.page s) = false
  \/ (forall k u, Script.activeUsers s !! k = Some u ->
                  throws (Base64.hashId (Script.user_id u)) = false) ->
  Script.updateActiveUsersList_throws s = false.
Proof.
  unfold Script.updateActiveUsersList_throws. intros [->|Hall]; [done|].
  apply andb_false_intro2, existsb_false_Forall, Forall_forall.
  intros u (k & Hk)%obj_elem_of_values.
  by rewrite (Hall k u Hk), andb_false_r.
Qed.

(** Then the clean-up timer comes to its end. *)
Lemma script_sweep_returns (th now : Z) (s : Script.state) :
  Script.has_users_list (Script.page s) = false
  \/ (forall k u, Script.activeUsers s !! k = Some u ->
                  throws (Base64.hashId (Script.user_id u)) = false) ->
  threw (Script.sweep th now s) = false.
Proof.
  unfold Script.sweep. generalize (JsObject.keys (Script.activeUsers s)).
  intros l. revert s. induction l as [|k l IH]; intros s Hs; [done|].
  cbn [foldl Script.sweep_one].
  destruct (Script.activeUsers s !! k) as [u|] eqn:Hk; [|by apply IH].
  destruct (Script.expired th now s k u); [|by apply IH].
  assert (Script.has_users_list (Script.page (Script.remove k u s)) = false
          \/ (forall j v,
                Script.activeUsers (Script.remove k u s) !! j = Some v ->
                throws (Base64.hashId (Script.user_id v)) = false)) as Hs'.
  { destruct Hs as [Hs|Hs]; [by left|right]. intros j v Hj.
    apply obj_lookup_delete_Some in Hj as [_ Hj]. by apply (Hs j). }
  rewrite (script_list_is_drawn _ Hs'). by apply IH.
Qed.

(** C6 fails on the code.  The loop of the timer of [script.js] draws the
    side bar after every removal, and [hashId] throws on an identity that
    has a character above 255: the exception ends the loop before the
    entries that come later are looked at.  The page connected as [me]
    has heard of [a] at time 100 and, at time 200, of an identity of two
    Chinese characters; both entries are older than 30000 ms at the tick of
    time 31000.  The tick removes the entry of [a], throws, and leaves the
    other entry, which is not the client's own, with its marker on the
    map. *)
Lemma reaper_stops_at_first_unprintable_identity :
  let han := [20320; 22909]%N in
  let s := Script.run [Script.Connect (js "me");
                       Script.ReceiveLocation 100
                         (Scenario.from (js "a") 1 2);
                       Script.ReceiveLocation 200 (Scenario.from han 3 4)]
             Script.init in
  let o := Script.cleanup 31000 s in
  JsObject.keys (Script.activeUsers s) = [js "a"; han]
  /\ threw o = true
  /\ Script.activeUsers (state_of o) !! js "a" = None
  /\ Script.activeUsers (state_of o) !! han
     = Some {| Script.user_id := Str han; Script.marker := 1;
               Script.lastUpdate := 200 |}
  /\ Str han <> Script.mySocketId (state_of o)
  /\ 31000 - 200 > 30000
  /\ 1%nat ∈ Script.layers (state_of o).
Proof. vm_compute. by split_and!. Qed.

(** ** The clean-up timer of the client of [part_000] *)

Section Part000Sweep.
Import Part000.
Variable now : Z.

Lemma part000_sweep_Threw (l : list jsstring) (s : state) :
  foldl (sweep_one now) (Threw s) l = Threw s.
Proof. induction l as [|k l IH]; [done|]. cbn [foldl]. apply IH. Qed.

(** A loop over the keys [l] that came to its end has removed the entries
    of [l] that are older than 30000 ms, whoever they belong to. *)
Lemma part000_sweep_Returned (l : list jsstring) (s s' : state)
    (j : jsstring) :
  foldl (sweep_one now) (Returned s) l = Returned s' ->
  activeUsers s' !! j
  = activeUsers s !! j ≫= fun u =>
      if bool_decide (j ∈ l) && bool_decide (now - lastUpdate u > 30000)
      then None else Some u.
Proof.
  revert s. induction l as [|k l IH]; intros s.
  - cbn. intros [= <-]. by destruct (activeUsers s !! j).
  - cbn [foldl sweep_one].
    destruct (activeUsers s !! k) as [v|] eqn:Hk.
    + destruct (bool_decide (now - lastUpdate v > 30000)) eqn:Hold.
      * destruct (updateActiveUsersList_throws (remove k v s));
          [by rewrite part000_sweep_Threw|].
        intros Hr. rewrite (IH _ Hr). cbn.
        destruct (decide (j = k)) as [->|Hne].
        -- rewrite obj_lookup_delete_eq, Hk. cbn.
           rewrite bool_decide_eq_true_2 by apply list_elem_of_here.
           by rewrite Hold.
        -- rewrite obj_lookup_delete_ne by done.
           destruct (activeUsers s !! j) as [u|]; [|done]. cbn.
           by rewrite bool_decide_elem_of_cons_ne.
      * intros Hr. rewrite (IH _ Hr).
        destruct (activeUsers s !! j) as [u|] eqn:Hj; [|done]. cbn.
        destruct (decide (j = k)) as [->|Hne].
        -- simplify_eq. rewrite Hold. by rewrite !andb_false_r.
        -- by rewrite bool_decide_elem_of_cons_ne.
    + intros Hr. rewrite (IH _ Hr).
      destruct (activeUsers s !! j) as [u|] eqn:Hj; [|done]. cbn.
      rewrite bool_decide_elem_of_cons_ne; [done|]. congruence.
Qed.

(** A tick that came to its end. *)
Lemma cleanup_Returned (s s' : state) (j : jsstring) :
  has_map s = true ->
  cleanup now s = Returned s' ->
  activeUsers s' !! j
  = activeUsers s !! j ≫= fun u =>
      if bool_decide (now - lastUpdate u > 30000) then None else Some u.
Proof.
  unfold cleanup. intros -> Hr. cbn in Hr.
  rewrite (part000_sweep_Returned _ _ _ j Hr).
  destruct (activeUsers s !! j) as [u|] eqn:Hj; [|done]. cbn.
  rewrite bool_decide_eq_true_2; [done|].
  apply obj_elem_of_keys. by rewrite Hj.
Qed.

End Part000Sweep.

(** C3, as the specification states it, fails on the client of [part_000]: its
    timer has no test on [mySocketId].  The page connected as [me], whose
    own entry dates from time 0, has lost that entry after the tick at time
    30001. *)
Lemma part000_reaper_removes_local :
  Part000.mySocketId Scenario.part000_tracking = Str (js "me")
  /\ Part000.activeUsers Scenario.part000_tracking !! js "me"
     = Some {| Part000.user_id := Str (js "me");
               Part000.marker := Some 0%nat;
               Part000.lastUpdate := 0 |}
  /\ Part000.activeUsers
       (state_of (Part000.cleanup 30001 Scenario.part000_tracking))
       !! js "me"
     = None.
Proof. vm_compute. done. Qed.

(** C3, amended: in [script.js], for every tick, every threshold (0
    included) and every age, the clean-up timer leaves the entry whose key
    is the client's own socket id as it is; the timer of the client of
    [part_000] has no such exemption: when it comes to its end, it has
    removed the client's own entry if that entry was older than 30000 ms
    and kept it otherwise. *)
Theorem reaper_exempts_local_in_script
    (th now : Z) (s : Script.state) (me : jsstring)
    (l l' : Part000.state) (u : Part000.user)
    (Hme : Script.mySocketId s = Str me)
    (Hmap : Part000.has_map l = true)
    (Hret : Part000.cleanup now l = Returned l')
    (Hu : Part000.activeUsers l !! me = Some u) :
  Script.activeUsers (state_of (Script.sweep th now s)) !! me
  = Script.activeUsers s !! me
  /\ Script.activeUsers (state_of (Script.cleanup now s)) !! me
     = Script.activeUsers s !! me
  /\ Part000.activeUsers l' !! me
     = if bool_decide (now - Part000.lastUpdate u > 30000)
       then None else Some u.
Proof.
  assert (forall t, Script.activeUsers (state_of (Script.sweep t now s)) !! me
                    = Script.activeUsers s !! me) as Hs.
  { intros t. destruct (sweep_lookup t now s me) as [H|(_ & v & _ & He)];
      [done|].
    unfold Script.expired, strict_eq in He. rewrite Hme in He.
    rewrite (bool_decide_eq_true_2 (Str me = Str me)) in He by done.
    by rewrite andb_false_r in He. }
  split; [apply Hs|]. split; [apply Hs|].
  rewrite (cleanup_Returned now l l' me Hmap Hret), Hu. done.
Qed.

Lemma reaper_exempts_local_in_script_witness :
  Script.activeUsers (state_of (Script.sweep 0 1000000 Scenario.tracking))
    !! js "me"
  = Script.activeUsers Scenario.tracking !! js "me"
  /\ Part000.activeUsers
       (state_of (Part000.cleanup 30001 Scenario.part000_tracking))
       !! js "me"
     = None.
Proof.
  pose proof (reaper_exempts_local_in_script 0 1000000 Scenario.tracking
                (js "me") Scenario.part000_tracking
                (state_of (Part000.cleanup 30001 Scenario.part000_tracking))
                {| Part000.user_id := Str (js "me");
                   Part000.marker := Some 0%nat;
                   Part000.lastUpdate := 0 |}) as H.
  destruct H as (H1 & _ & H2); try (vm_compute; reflexivity).
  split; [exact H1 | exact H2].
Defined.
(** ** Markers *)

Section Markers.
Import Leaflet.

Lemma toLatLng_valid (lat lng : float) :
  valid lat lng = true -> toLatLng (Some lat) (Some lng) = Some (lat, lng).
Proof.
  unfold valid, toLatLng. by destruct (is_nan lat || is_nan lng).
Qed.

Lemma length_setLatLng (m : nat) (ll : float * float) (h : list Marker) :
  length (setLatLng m ll h) = length h.
Proof. apply length_alter. Qed.

Lemma getLatLng_setLatLng (m : nat) (ll : float * float) (h : list Marker) :
  (m < length h)%nat -> getLatLng (setLatLng m ll h) m = Some ll.
Proof.
  intros Hm. unfold getLatLng, setLatLng.
  destruct (lookup_lt_is_Some_2 h m Hm) as [mk Hmk].
  by rewrite list_lookup_alter_eq, Hmk.
Qed.

Lemma getLatLng_new (h : list Marker) (mk : Marker) :
  getLatLng (h ++ [mk]) (length h) = Some (latlng mk).
Proof.
  unfold getLatLng. rewrite lookup_app_r by done.
  by rewrite Nat.sub_diag.
Qed.

End Markers.

(** ** The registry of [script.js] *)

Section ScriptRegistry.
Import Leaflet Script.

Lemma wf_init : wf init.
Proof. split; [|done]. intros k u Hk. discriminate Hk. Qed.

(** A message that carries the client's own identity is dropped. *)
Lemma receive_location_own (now : Z) (data : location) (s : state) :
  data_id data = mySocketId s -> receive_location now data s = Returned s.
Proof.
  intros Hid. unfold receive_location, strict_eq.
  by rewrite bool_decide_eq_true_2.
Qed.

(** A message whose identity names a property that the registry inherits
    and does not have ends with a TypeError and writes nothing. *)
Lemma receive_location_inherited (now : Z) (data : location) (s : state) :
  data_id data <> mySocketId s ->
  activeUsers s !! key_of (data_id data) = None ->
  JsObject.inherited (key_of (data_id data)) = true ->
  receive_location now data s = Threw s.
Proof.
  intros Hne Hk Hi. unfold receive_location, strict_eq.
  rewrite bool_decide_eq_false_2 by done.
  by rewrite (get_Inherited _ _ _ Hk Hi).
Qed.

(** A message for an identity that has an entry: the entry is refreshed
    and its marker moved. *)
Lemma receive_location_refresh (now : Z) (id : jsid) (lat lng : float)
    (s : state) (u0 : user) :
  wf s ->
  id <> mySocketId s ->
  activeUsers s !! key_of id = Some u0 ->
  valid lat lng = true ->
  let u := {| user_id := user_id u0; marker := marker u0;
              lastUpdate := now |} in
  exists s',
    receive_location now
      {| data_id := id; data_latitude := Some lat;
         data_longitude := Some lng |} s = Returned s'
    /\ wf s'
    /\ mySocketId s' = mySocketId s
    /\ page s' = page s
    /\ activeUsers s' = <[key_of id := u]> (activeUsers s)
    /\ position_of s' u = Some (lat, lng)
    /\ length (markers s') = length (markers s).
Proof.
  intros [Hreg Hmy] Hne Hi Hv. cbn zeta.
  unfold receive_location, strict_eq. cbn [data_id data_latitude
    data_longitude].
  rewrite bool_decide_eq_false_2 by done.
  rewrite (get_Own _ _ _ _ Hi), (toLatLng_valid _ _ Hv).
  eexists. split; [reflexivity|]. unfold wf. cbn.
  pose proof (Hreg _ _ Hi) as Hm0.
  split_and!; try done.
  - intros k u. rewrite length_setLatLng.
    destruct (decide (key_of id = k)) as [<-|Hk].
    + rewrite obj_lookup_insert_eq. by intros [= <-].
    + rewrite obj_lookup_insert_ne by done. apply Hreg.
  - intros m Hm. rewrite length_setLatLng. by apply Hmy.
  - unfold position_of. cbn. by apply getLatLng_setLatLng.
  - apply length_setLatLng.
Qed.

(** A message for an identity that has no entry and names no inherited
    property: the entry is made, with a new marker, before the popup and the
    side bar are written, which may throw. *)
Lemma receive_location_create (now : Z) (id : jsid) (lat lng : float)
    (s : state) :
  wf s ->
  id <> mySocketId s ->
  activeUsers s !! key_of id = None ->
  JsObject.inherited (key_of id) = false ->
  valid lat lng = true ->
  let data := {| data_id := id; data_latitude := Some lat;
                 data_longitude := Some lng |} in
  let u := {| user_id := id; marker := length (markers s);
              lastUpdate := now |} in
  let s' := state_of (receive_location now data s) in
  wf s'
  /\ mySocketId s' = mySocketId s
  /\ page s' = page s
  /\ activeUsers s' = <[key_of id := u]> (activeUsers s)
  /\ position_of s' u = Some (lat, lng)
  /\ threw (receive_location now data s)
     = throws (Base64.hashId id) || updateActiveUsersList_throws s'.
Proof.
  intros [Hreg Hmy] Hne Hi Hinh Hv. cbn zeta.
  unfold receive_location, strict_eq. cbn [data_id data_latitude
    data_longitude].
  rewrite bool_decide_eq_false_2 by done.
  rewrite (get_Missing _ _ _ Hi Hinh), (toLatLng_valid _ _ Hv).
  match goal with
  | |- context [updateActiveUsersList_throws ?t] => set (s1 := t)
  end.
  assert (state_of
            (if throws (Base64.hashId id) then Threw s1
             else if updateActiveUsersList_throws s1 then Threw s1
                  else Returned s1) = s1) as ->.
  { destruct (throws (Base64.hashId id)); [done|].
    by destruct (updateActiveUsersList_throws s1). }
  split_and!; try done.
  - split; cbn.
    + intros k u. rewrite length_app. cbn.
      destruct (decide (key_of id = k)) as [<-|Hk].
      * rewrite obj_lookup_insert_eq. intros [= <-]. cbn. lia.
      * rewrite obj_lookup_insert_ne by done. intros Hu.
        pose proof (Hreg _ _ Hu). lia.
    + intros m Hm. rewrite length_app. cbn. pose proof (Hmy _ Hm). lia.
  - unfold position_of. cbn. apply getLatLng_new.
  - destruct (throws (Base64.hashId id)); [done|].
    by destruct (updateActiveUsersList_throws s1).
Qed.

(** One message for the identity [i] of somebody else, about which the
    registry inherits nothing. *)
Lemma receive_location_upsert (now : Z) (i : jsstring) (lat lng : float)
    (s : state) :
  wf s ->
  Str i <> mySocketId s ->
  JsObject.inherited i = false \/ is_Some (activeUsers s !! i) ->
  valid lat lng = true ->
  exists s' u,
    state_of (receive_location now (Scenario.from i lat lng) s) = s'
    /\ wf s'
    /\ mySocketId s' = mySocketId s
    /\ activeUsers s' = <[i := u]> (activeUsers s)
    /\ lastUpdate u = now
    /\ position_of s' u = Some (lat, lng)
    /\ match activeUsers s !! i with
       | Some u0 => marker u = marker u0 /\ user_id u = user_id u0
                    /\ length (markers s') = length (markers s)
       | None => marker u = length (markers s) /\ user_id u = Str i
       end.
Proof.
  intros Hwf Hne Hplain Hv. unfold Scenario.from.
  destruct (activeUsers s !! i) as [u0|] eqn:Hi.
  - destruct (receive_location_refresh now (Str i) lat lng s u0 Hwf Hne Hi Hv)
      as (s' & -> & Hwf' & Hmy & _ & Hreg & Hpos & Hlen).
    eexists _, _. split; [reflexivity|]. by split_and!.
  - destruct Hplain as [Hinh|[? ?]]; [|done].
    destruct (receive_location_create now (Str i) lat lng s Hwf Hne Hi Hinh
                Hv) as (Hwf' & Hmy & _ & Hreg & Hpos & _).
    eexists _, _. split; [reflexivity|]. by split_and!.
Qed.

Lemma run_cons (e : event) (es : list event) (s : state) :
  run (e :: es) s = run es (step s e).
Proof. done. Qed.

Lemma step_receive (now : Z) (data : location) (s : state) :
  step s (ReceiveLocation now data)
  = state_of (receive_location now data s).
Proof. done. Qed.

(** The messages for the fixes of one identity, that of somebody else,
    one after the other. *)
Lemma script_upserts_last (i : jsstring) (fixes : list (Z * float * float))
    (t : Z) (lat lng : float) (s : state) :
  wf s ->
  Str i <> mySocketId s ->
  JsObject.inherited i = false \/ is_Some (activeUsers s !! i) ->
  Forall (fun f => valid f.1.2 f.2 = true) fixes ->
  valid lat lng = true ->
  exists u,
    let s' := run (upserts i (fixes ++ [(t, lat, lng)])) s in
    wf s'
    /\ mySocketId s' = mySocketId s
    /\ activeUsers s' !! i = Some u
    /\ lastUpdate u = t
    /\ position_of s' u = Some (lat, lng)
    /\ dom (activeUsers s') = {[i]} ∪ dom (activeUsers s)
    /\ (forall k, k <> i -> activeUsers s' !! k = activeUsers s !! k)
    /\ (forall u0, activeUsers s !! i = Some u0 ->
                   marker u = marker u0
                   /\ user_id u = user_id u0
                   /\ length (markers s') = length (markers s)).
Proof.
  intros Hwf Hne Hplain Hfixes Hv. revert s Hwf Hne Hplain.
  induction Hfixes as [|[[t0 lat0] lng0] fixes Hv0 _ IH];
    intros s Hwf Hne Hplain.
  - destruct (receive_location_upsert t i lat lng s Hwf Hne Hplain Hv)
      as (s' & u & Hrun & Hwf' & Hmy & Hreg & Ht & Hpos & Hold).
    exists u. cbn zeta. unfold upserts. cbn [app fmap list_fmap fst snd].
    fold (Scenario.from i lat lng).
    rewrite run_cons, step_receive, Hrun. cbn [state_of run foldl].
    rewrite Hreg. split_and!; try done.
    + apply obj_lookup_insert_eq.
    + apply obj_dom_insert.
    + intros k Hk. by rewrite obj_lookup_insert_ne.
    + intros u0 Hu0. rewrite Hu0 in Hold. tauto.
  - cbn in Hv0.
    destruct (receive_location_upsert t0 i lat0 lng0 s Hwf Hne Hplain Hv0)
      as (s1 & u1 & Hrun & Hwf1 & Hmy1 & Hreg1 & Ht1 & Hpos1 & Hold1).
    destruct (IH s1 Hwf1) as (u & H); [by rewrite Hmy1| |].
    { right. rewrite Hreg1, obj_lookup_insert_eq. by eexists. }
    cbn zeta in H.
    destruct H as (Hwf' & Hmy & Hi & Ht & Hpos & Hdom & Hframe & Hsame).
    exists u. cbn zeta. unfold upserts.
    rewrite <- app_comm_cons, fmap_cons, run_cons.
    fold (upserts i (fixes ++ [(t, lat, lng)])). cbn [fst snd].
    fold (Scenario.from i lat0 lng0).
    rewrite step_receive, Hrun.
    split_and!; try done.
    + congruence.
    + rewrite Hdom, Hreg1, obj_dom_insert.
      apply set_eq. intros x. rewrite !elem_of_union. tauto.
    + intros k Hk. rewrite Hframe by done.
      by rewrite Hreg1, obj_lookup_insert_ne.
    + intros u0 Hu0. rewrite Hu0 in Hold1.
      destruct (Hsame u1) as (? & ? & ?);
        [by rewrite Hreg1, obj_lookup_insert_eq|].
      split_and!; destruct Hold1 as (? & ? & ?); congruence.
Qed.

(** The messages for an identity that names an inherited property and has
    no entry: each ends with a TypeError, and the state stays as it is. *)
Lemma script_upserts_inherited (i : jsstring)
    (fixes : list (Z * float * float)) (s : state) :
  Str i <> mySocketId s ->
  activeUsers s !! i = None ->
  JsObject.inherited i = true ->
  run (upserts i fixes) s = s.
Proof.
  intros Hne Hi Hinh. induction fixes as [|f fixes IH]; [done|].
  unfold upserts. rewrite fmap_cons, run_cons, step_receive.
  rewrite receive_location_inherited by done. apply IH.
Qed.

End ScriptRegistry.

(** ** The registry of the client of [part_000] *)

Section Part000Registry.
Import Leaflet Part000.

(** When drawing the side bar throws. *)
Lemma part000_list_throws (s : state) :
  updateActiveUsersList_throws s = true
  <-> has_users_list s = true
      /\ exists k u, activeUsers s !! k = Some u
                     /\ user_id u <> mySocketId s
                     /\ is_string (user_id u) = false.
Proof.
  unfold updateActiveUsersList_throws.
  rewrite andb_true_iff, existsb_exists. split.
  - intros [Hl (u & Hu & Hc)]. split; [done|].
    apply list_elem_of_In, obj_elem_of_values in Hu as (k & Hk).
    apply andb_true_iff in Hc as [Hme Hstr].
    exists k, u. split; [done|]. unfold strict_eq in Hme.
    apply negb_true_iff, bool_decide_eq_false in Hme.
    by apply negb_true_iff in Hstr.
  - intros [Hl (k & u & Hk & Hme & Hstr)]. split; [done|].
    exists u. split.
    + apply list_elem_of_In, obj_elem_of_values. by exists k.
    + unfold strict_eq. rewrite bool_decide_eq_false_2 by done.
      by rewrite Hstr.
Qed.

(** An entry whose identity is a string, or the client's own, does not
    change whether drawing the side bar throws. *)
Lemma part000_list_throws_insert (s : state) (k : jsstring) (v : user) :
  activeUsers s !! k = None ->
  is_string (user_id v) = true \/ user_id v = mySocketId s ->
  updateActiveUsersList_throws (with_registry (insert k v) s)
  = updateActiveUsersList_throws s.
Proof.
  intros Hk Hv. apply eq_true_iff_eq. rewrite !part000_list_throws. cbn.
  split; intros [Hl (j & u & Hj & Hme & Hstr)]; (split; [done|]).
  - destruct (decide (k = j)) as [->|Hne].
    + rewrite obj_lookup_insert_eq in Hj. simplify_eq.
      destruct Hv; congruence.
    + rewrite obj_lookup_insert_ne in Hj by done. by exists j, u.
  - exists j, u. split; [|done].
    rewrite obj_lookup_insert_ne; [done|]. congruence.
Qed.

Lemma markers_insert (reg : JsObject.obj user) (i : jsstring) (v : user)
    (n n' : nat) :
  (forall k u m, reg !! k = Some u -> marker u = Some m -> (m < n)%nat) ->
  (forall m, marker v = Some m -> (m < n')%nat) ->
  (n <= n')%nat ->
  forall k u m, <[i := v]> reg !! k = Some u -> marker u = Some m ->
                (m < n')%nat.
Proof.
  intros Hreg Hv Hle k u m. destruct (decide (i = k)) as [<-|Hne].
  - rewrite obj_lookup_insert_eq. intros [= <-]. apply Hv.
  - rewrite obj_lookup_insert_ne by done. intros Hu Hm.
    pose proof (Hreg _ _ _ Hu Hm). lia.
Qed.

(** The popup of a new marker is written without an exception for the
    client's own identity and for a string. *)
Lemma popup_is_written (id : jsid) (s : state) :
  is_string id = true \/ id = mySocketId s ->
  negb (strict_eq id (mySocketId s)) && negb (is_string id) = false.
Proof.
  intros [->| ->]; [by rewrite andb_false_r|].
  unfold strict_eq. by rewrite bool_decide_eq_true_2.
Qed.

(** A message for an identity that has an entry: the entry is refreshed,
    its marker is moved, or made when the entry has none, and [myMarker] is
    set when the identity is the client's own. *)
Lemma part000_receive_location_refresh (now : Z) (id : jsid)
    (lat lng : float) (s : state) (u0 : user) :
  has_map s = true ->
  wf s ->
  activeUsers s !! key_of id = Some u0 ->
  is_string id = true \/ id = mySocketId s ->
  valid lat lng = true ->
  exists s' u,
    receive_location now
      {| data_id := id; data_latitude := Some lat;
         data_longitude := Some lng |} s = Returned s'
    /\ has_map s' = true
    /\ wf s'
    /\ mySocketId s' = mySocketId s
    /\ written s' = written s
    /\ has_users_list s' = has_users_list s
    /\ activeUsers s' = <[key_of id := u]> (activeUsers s)
    /\ user_id u = user_id u0
    /\ lastUpdate u = now
    /\ position_of s' u = Some (lat, lng)
    /\ match marker u0 with
       | Some m => marker u = Some m
                   /\ length (markers s') = length (markers s)
       | None => marker u = Some (length (markers s))
       end
    /\ myMarker s' = if strict_eq id (mySocketId s) then marker u
                     else myMarker s.
Proof.
  intros Hmap Hwf Hi Hid Hv.
  unfold receive_location. rewrite Hmap. cbn [negb].
  cbn [data_id]. rewrite (get_Own _ _ _ _ Hi).
  unfold place_marker.
  cbn [data_id data_latitude data_longitude with_registry activeUsers
       mySocketId markers layers].
  rewrite obj_lookup_insert_eq. cbn [marker user_id lastUpdate].
  rewrite (toLatLng_valid _ _ Hv), (popup_is_written id s Hid).
  destruct (marker u0) as [m|] eqn:Hm0.
  - pose proof (Hwf _ _ _ Hi Hm0) as Hlt.
    destruct (strict_eq id (mySocketId s));
      (eexists _, {| user_id := user_id u0; marker := Some m;
                     lastUpdate := now |};
       split; [reflexivity|]; unfold wf, position_of; cbn;
       split_and!; try done;
       [ rewrite length_setLatLng;
         apply (markers_insert _ _ _ (length (markers s)));
         [done | by intros ? [= <-] | done]
       | by apply getLatLng_setLatLng
       | apply length_setLatLng ]).
  - destruct (strict_eq id (mySocketId s));
      (eexists _, {| user_id := user_id u0;
                     marker := Some (length (markers s));
                     lastUpdate := now |};
       split; [reflexivity|]; unfold wf, position_of; cbn;
       rewrite obj_insert_insert_eq;
       split_and!; try done;
       [ rewrite length_app;
         apply (markers_insert _ _ _ (length (markers s)));
         [done | intros ? [= <-]; cbn; lia | lia]
       | apply getLatLng_new ]).
Qed.

(** A message for an identity that has no entry, names nothing that the
    registry inherits, and is a string or the client's own: the entry is
    made; when the side bar is then drawn without an exception, the entry
    gets its marker. *)
Lemma part000_receive_location_create (now : Z) (id : jsid)
    (lat lng : float) (s : state) :
  has_map s = true ->
  wf s ->
  activeUsers s !! key_of id = None ->
  inherits s (key_of id) = false ->
  is_string id = true \/ id = mySocketId s ->
  valid lat lng = true ->
  let data := {| data_id := id; data_latitude := Some lat;
                 data_longitude := Some lng |} in
  exists s' u,
    state_of (receive_location now data s) = s'
    /\ has_map s' = true
    /\ wf s'
    /\ mySocketId s' = mySocketId s
    /\ written s' = written s
    /\ has_users_list s' = has_users_list s
    /\ activeUsers s' = <[key_of id := u]> (activeUsers s)
    /\ user_id u = id
    /\ lastUpdate u = now
    /\ threw (receive_location now data s) = updateActiveUsersList_throws s
    /\ if updateActiveUsersList_throws s
       then marker u = None /\ myMarker s' = myMarker s
            /\ markers s' = markers s
       else marker u = Some (length (markers s))
            /\ position_of s' u = Some (lat, lng)
            /\ myMarker s' = if strict_eq id (mySocketId s) then marker u
                             else myMarker s.
Proof.
  intros Hmap Hwf Hi Hinh Hid Hv. cbn zeta.
  unfold receive_location. rewrite Hmap. cbn [negb].
  cbn [data_id]. rewrite (get_Missing _ _ _ Hi Hinh).
  rewrite part000_list_throws_insert by done.
  destruct (updateActiveUsersList_throws s).
  - eexists _, _. split; [reflexivity|]. unfold wf. cbn.
    split_and!; try done.
    by apply (markers_insert _ _ _ (length (markers s))).
  - unfold place_marker.
    cbn [data_id data_latitude data_longitude with_registry activeUsers
         mySocketId markers layers].
    rewrite obj_lookup_insert_eq. cbn [marker user_id lastUpdate].
    rewrite (toLatLng_valid _ _ Hv), (popup_is_written id s Hid).
    destruct (strict_eq id (mySocketId s));
      (eexists _, {| user_id := id; marker := Some (length (markers s));
                     lastUpdate := now |};
       split; [reflexivity|]; unfold wf, position_of; cbn;
       rewrite obj_insert_insert_eq;
       split_and!; try done;
       [ rewrite length_app;
         apply (markers_insert _ _ _ (length (markers s)));
         [done | intros ? [= <-]; cbn; lia | lia]
       | apply getLatLng_new ]).
Qed.

(** One message for the identity [i], the client's own or not. *)
Lemma part000_receive_location_upsert (now : Z) (i : jsstring)
    (lat lng : float) (s : state) :
  has_map s = true ->
  wf s ->
  inherits s i = false \/ is_Some (activeUsers s !! i) ->
  valid lat lng = true ->
  exists s' u,
    state_of (receive_location now (Scenario.from i lat lng) s) = s'
    /\ has_map s' = true
    /\ wf s'
    /\ mySocketId s' = mySocketId s
    /\ written s' = written s
    /\ activeUsers s' = <[i := u]> (activeUsers s)
    /\ lastUpdate u = now
    /\ match activeUsers s !! i with
       | Some u0 =>
           user_id u = user_id u0
           /\ position_of s' u = Some (lat, lng)
           /\ forall m, marker u0 = Some m ->
                        marker u = Some m
                        /\ length (markers s') = length (markers s)
       | None =>
           user_id u = Str i
           /\ if updateActiveUsersList_throws s then marker u = None
              else position_of s' u = Some (lat, lng)
       end.
Proof.
  intros Hmap Hwf Hplain Hv. unfold Scenario.from.
  destruct (activeUsers s !! i) as [u0|] eqn:Hi.
  - destruct (part000_receive_location_refresh now (Str i) lat lng s u0)
      as (s' & u & -> & Hmap' & Hwf' & Hmy & Hw & _ & Hreg & Hid & Ht & Hpos
          & Hm & _); [done|done|done|by left|done|].
    exists s', u. split; [reflexivity|]. split_and!; try done.
    intros m Hm0. by rewrite Hm0 in Hm.
  - destruct Hplain as [Hinh|[? ?]]; [|done].
    destruct (part000_receive_location_create now (Str i) lat lng s)
      as (s' & u & Hs' & Hmap' & Hwf' & Hmy & Hw & _ & Hreg & Hid & Ht & _
          & Hm); [done|done|done|done|by left|done|].
    exists s', u. split_and!; try done.
    destruct (updateActiveUsersList_throws s); tauto.
Qed.

Lemma part000_run_cons (e : event) (es : list event) (s : state) :
  run (e :: es) s = run es (step s e).
Proof. done. Qed.

Lemma part000_step_receive (now : Z) (data : location) (s : state) :
  step s (ReceiveLocation now data)
  = state_of (receive_location now data s).
Proof. done. Qed.

(** The messages for the fixes of an identity that has an entry, one
    after the other. *)
Lemma part000_upserts_entry (i : jsstring)
    (fixes : list (Z * float * float)) (t : Z) (lat lng : float)
    (s : state) :
  has_map s = true ->
  wf s ->
  is_Some (activeUsers s !! i) ->
  Forall (fun f => valid f.1.2 f.2 = true) fixes ->
  valid lat lng = true ->
  exists u,
    let s' := run (upserts i (fixes ++ [(t, lat, lng)])) s in
    has_map s' = true /\ wf s'
    /\ mySocketId s' = mySocketId s
    /\ activeUsers s' !! i = Some u
    /\ lastUpdate u = t
    /\ position_of s' u = Some (lat, lng)
    /\ dom (activeUsers s') = dom (activeUsers s)
    /\ (forall k, k <> i -> activeUsers s' !! k = activeUsers s !! k)
    /\ (forall u0 m, activeUsers s !! i = Some u0 -> marker u0 = Some m ->
                     marker u = Some m
                     /\ length (markers s') = length (markers s)).
Proof.
  intros Hmap Hwf Hi Hfixes Hv. revert s Hmap Hwf Hi.
  assert (forall (s : state) (u : user),
            is_Some (activeUsers s !! i) ->
            dom (<[i := u]> (activeUsers s)) = dom (activeUsers s)) as Hdom0.
  { intros s u Hi. rewrite obj_dom_insert. apply set_eq. intros x.
    rewrite elem_of_union, elem_of_singleton. split; [|by right].
    intros [->|?]; [|done]. by apply obj_elem_of_dom. }
  induction Hfixes as [|[[t0 lat0] lng0] fixes Hv0 _ IH];
    intros s Hmap Hwf Hi.
  - destruct (part000_receive_location_upsert t i lat lng s Hmap Hwf)
      as (s' & u & Hrun & Hmap' & Hwf' & Hmy & _ & Hreg & Ht & Hold);
      [by right|done|].
    exists u. cbn zeta. unfold upserts. cbn [app fmap list_fmap fst snd].
    fold (Scenario.from i lat lng).
    rewrite part000_run_cons, part000_step_receive, Hrun.
    cbn [run foldl]. pose proof Hi as [u0 Hu0]. rewrite Hu0 in Hold.
    destruct Hold as (_ & Hpos & Hsame).
    rewrite Hreg. split_and!; try done.
    + apply obj_lookup_insert_eq.
    + by apply Hdom0.
    + intros k Hk. by rewrite obj_lookup_insert_ne.
    + intros u1 m Hu1. assert (u1 = u0) as -> by congruence. apply Hsame.
  - cbn in Hv0.
    destruct (part000_receive_location_upsert t0 i lat0 lng0 s Hmap Hwf)
      as (s1 & u1 & Hrun & Hmap1 & Hwf1 & Hmy1 & _ & Hreg1 & Ht1 & Hold1);
      [by right|done|].
    destruct (IH s1 Hmap1 Hwf1) as (u & H).
    { rewrite Hreg1, obj_lookup_insert_eq. by eexists. }
    cbn zeta in H.
    destruct H as (Hmap' & Hwf' & Hmy & Hi' & Ht & Hpos & Hdom
                   & Hframe & Hsame).
    exists u. cbn zeta. unfold upserts.
    rewrite <- app_comm_cons, fmap_cons, part000_run_cons.
    fold (upserts i (fixes ++ [(t, lat, lng)])). cbn [fst snd].
    fold (Scenario.from i lat0 lng0).
    rewrite part000_step_receive, Hrun.
    split_and!; try done.
    + congruence.
    + rewrite Hdom, Hreg1. by apply Hdom0.
    + intros k Hk. rewrite Hframe by done.
      by rewrite Hreg1, obj_lookup_insert_ne.
    + intros u0 m Hu0 Hm. rewrite Hu0 in Hold1.
      destruct Hold1 as (_ & _ & Hold1).
      destruct (Hold1 m Hm) as (Hm1 & Hlen1).
      destruct (Hsame u1 m) as (? & ?);
        [by rewrite Hreg1, obj_lookup_insert_eq | done |].
      split; congruence.
Qed.

(** The messages for the fixes of one identity, one after the other.  The
    marker is where the last message puts it, unless that message is the
    only one, has made the entry, and drawing the side bar has thrown
    before the marker was made. *)
Lemma part000_upserts_last (i : jsstring) (fixes : list (Z * float * float))
    (t : Z) (lat lng : float) (s : state) :
  has_map s = true ->
  wf s ->
  inherits s i = false \/ is_Some (activeUsers s !! i) ->
  Forall (fun f => valid f.1.2 f.2 = true) fixes ->
  valid lat lng = true ->
  exists u,
    let s' := run (upserts i (fixes ++ [(t, lat, lng)])) s in
    activeUsers s' !! i = Some u
    /\ lastUpdate u = t
    /\ dom (activeUsers s') = {[i]} ∪ dom (activeUsers s)
    /\ (forall k, k <> i -> activeUsers s' !! k = activeUsers s !! k)
    /\ (forall u0 m, activeUsers s !! i = Some u0 -> marker u0 = Some m ->
                     marker u = Some m
                     /\ length (markers s') = length (markers s))
    /\ if bool_decide (fixes = []) && JsObject.lacks (activeUsers s) i
          && updateActiveUsersList_throws s
       then marker u = None
       else position_of s' u = Some (lat, lng).
Proof.
  intros Hmap Hwf Hplain Hfixes Hv. unfold JsObject.lacks.
  assert (forall (m : JsObject.obj user) (u : user),
            is_Some (m !! i) -> dom m = {[i]} ∪ dom m) as Hdom1.
  { intros m u Hm. apply set_eq. intros x.
    rewrite elem_of_union, elem_of_singleton. split; [by right|].
    intros [->|?]; [|done]. by apply obj_elem_of_dom. }
  destruct (activeUsers s !! i) as [u0|] eqn:Hi.
  { destruct (part000_upserts_entry i fixes t lat lng s Hmap Hwf)
      as (u & H); [by rewrite Hi|done|done|]. cbn zeta in H.
    destruct H as (_ & _ & _ & Hi' & Ht & Hpos & Hdom & Hframe & Hsame).
    exists u. cbn zeta. cbn [throws]. rewrite andb_false_r. cbn.
    split_and!; try done.
    - rewrite Hdom. apply (Hdom1 _ u0). by rewrite Hi.
    - intros u1 m Hu1 Hm. apply (Hsame u1 m); [congruence|done]. }
  assert (inherits s i = false) as Hinh
    by (destruct Hplain as [?|[? ?]]; done).
  destruct fixes as [|[[t0 lat0] lng0] fixes].
  - destruct (part000_receive_location_upsert t i lat lng s Hmap Hwf
                (or_introl Hinh) Hv)
      as (s' & u & Hrun & _ & _ & _ & _ & Hreg & Ht & Hold).
    rewrite Hi in Hold. destruct Hold as [_ Hold].
    exists u. cbn zeta. unfold upserts. cbn [app fmap list_fmap fst snd].
    fold (Scenario.from i lat lng).
    rewrite part000_run_cons, part000_step_receive, Hrun.
    cbn [run foldl]. rewrite Hreg.
    rewrite bool_decide_eq_true_2 by done. cbn [throws andb].
    split_and!; try done.
    + apply obj_lookup_insert_eq.
    + apply obj_dom_insert.
    + intros k Hk. by rewrite obj_lookup_insert_ne.
  - apply Forall_cons in Hfixes as [Hv0 Hfixes]. cbn in Hv0.
    destruct (part000_receive_location_upsert t0 i lat0 lng0 s Hmap Hwf
                (or_introl Hinh) Hv0)
      as (s1 & u1 & Hrun & Hmap1 & Hwf1 & _ & _ & Hreg1 & _ & _).
    destruct (part000_upserts_entry i fixes t lat lng s1 Hmap1 Hwf1)
      as (u & H); [|done|done|].
    { rewrite Hreg1, obj_lookup_insert_eq. by eexists. }
    cbn zeta in H.
    destruct H as (_ & _ & _ & Hi' & Ht & Hpos & Hdom & Hframe & _).
    exists u. cbn zeta. unfold upserts.
    rewrite <- app_comm_cons, fmap_cons, part000_run_cons.
    fold (upserts i (fixes ++ [(t, lat, lng)])). cbn [fst snd].
    fold (Scenario.from i lat0 lng0).
    rewrite part000_step_receive, Hrun.
    rewrite bool_decide_eq_false_2 by done. cbn [andb].
    split_and!; try done.
    + rewrite Hdom, Hreg1. apply obj_dom_insert.
    + intros k Hk. rewrite Hframe by done.
      by rewrite Hreg1, obj_lookup_insert_ne.
Qed.

End Part000Registry.
(** C2, as the specification states it, fails.  In [script.js] the handler
    drops a message that carries the client's own identity: the page
    connected as [me], with an empty registry, has no entry for [me] after
    two such messages.  It ends with a TypeError, and makes no entry, for
    an identity that names a property that every object inherits, such as
    [constructor]; the client of [part_000] makes a marker for such an
    identity and no entry.  In the client of [part_000], once the registry
    has an entry without identity, a first message for [a] makes the entry
    of [a] and throws before the marker is made: the entry has no
    position. *)
Lemma own_upserts_are_dropped :
  Script.mySocketId Scenario.connected = Str (js "me")
  /\ Script.activeUsers
       (Script.run (Script.upserts (js "me") [(1, 10%float, 10%float);
                                              (2, 20%float, 20%float)])
                   Scenario.connected) !! js "me"
     = None
  /\ Script.run (Script.upserts (js "constructor")
                   [(1, 10%float, 10%float); (2, 20%float, 20%float)])
       Scenario.connected
     = Scenario.connected
  /\ Part000.activeUsers
       (Part000.run (Part000.upserts (js "constructor")
                       [(1, 10%float, 10%float); (2, 20%float, 20%float)])
          Scenario.part000_tracking) !! js "constructor"
     = None
  /\ Part000.activeUsers
       (Part000.run (Part000.upserts (js "a") [(2, 20%float, 20%float)])
          Scenario.part000_nameless) !! js "a"
     = Some {| Part000.user_id := Str (js "a"); Part000.marker := None;
               Part000.lastUpdate := 2 |}.
Proof. vm_compute. done. Qed.

(** C2, amended: for every sequence of upserts to the same identity (the
    [receive-location] messages of its fixes, each with two numbers for
    coordinates), an identity that names no property that the registry
    inherits from [Object.prototype], and in [script.js] not the client's
    own: the registry afterwards lists the identity once; [lastUpdate] of
    its entry is the time the message that came last was handled, whatever
    the earlier ones were; the keys of the registry are the former ones and
    that identity; an entry that was there before keeps its marker object,
    no marker being created; and the marker of the entry is where the
    last message puts it.  In the client of [part_000] the marker is missing
    in one case: the sequence is a single message, the identity had no
    entry, and drawing the side bar throws.  (The markers of the earlier
    registry exist and, for the client of [part_000], the map exists.) *)
Theorem last_write_wins
    (i : jsstring) (fixes : list (Z * float * float))
    (t : Z) (lat lng : float) (s : Script.state) (l : Part000.state)
    (Hs : Script.wf s) (Hother : Str i <> Script.mySocketId s)
    (Hplain : JsObject.inherited i = false)
    (Hmap : Part000.has_map l = true) (Hl : Part000.wf l)
    (Hclean : Part000.inherits l i = false)
    (Hfixes : Forall (fun f => Leaflet.valid f.1.2 f.2 = true) fixes)
    (Hlast : Leaflet.valid lat lng = true) :
  let s' := Script.run (Script.upserts i (fixes ++ [(t, lat, lng)])) s in
  let l' := Part000.run (Part000.upserts i (fixes ++ [(t, lat, lng)])) l in
  (exists u,
     filter (fun k => k = i) (JsObject.keys (Script.activeUsers s')) = [i]
     /\ Script.activeUsers s' !! i = Some u
     /\ Script.lastUpdate u = t
     /\ Script.position_of s' u = Some (lat, lng)
     /\ dom (Script.activeUsers s') = {[i]} ∪ dom (Script.activeUsers s)
     /\ (forall u0, Script.activeUsers s !! i = Some u0 ->
                    Script.marker u = Script.marker u0
                    /\ length (Script.markers s')
                       = length (Script.markers s)))
  /\ (exists u,
        filter (fun k => k = i) (JsObject.keys (Part000.activeUsers l')) = [i]
        /\ Part000.activeUsers l' !! i = Some u
        /\ Part000.lastUpdate u = t
        /\ dom (Part000.activeUsers l') = {[i]} ∪ dom (Part000.activeUsers l)
        /\ (forall u0 m, Part000.activeUsers l !! i = Some u0 ->
                         Part000.marker u0 = Some m ->
                         Part000.marker u = Some m
                         /\ length (Part000.markers l')
                            = length (Part000.markers l))
        /\ if bool_decide (fixes = [])
              && JsObject.lacks (Part000.activeUsers l) i
              && Part000.updateActiveUsersList_throws l
           then Part000.marker u = None
           else Part000.position_of l' u = Some (lat, lng)).
Proof.
  cbn zeta.
  assert (forall (V : Type) (o : JsObject.obj V) (u : V),
            o !! i = Some u ->
            filter (fun k => k = i) (JsObject.keys o) = [i]) as Honce.
  { intros V o u Hu. apply filter_key_once; [apply obj_NoDup_keys|].
    apply obj_elem_of_keys. by rewrite Hu. }
  split.
  - destruct (script_upserts_last i fixes t lat lng s Hs Hother
                (or_introl Hplain) Hfixes Hlast) as (u & H). cbn zeta in H.
    destruct H as (_ & _ & Hi & Ht & Hpos & Hdom & _ & Hsame).
    exists u. split_and!; try done.
    + by apply (Honce _ _ u).
    + intros u0 Hu0. destruct (Hsame u0 Hu0) as (? & _ & ?). done.
  - destruct (part000_upserts_last i fixes t lat lng l Hmap Hl
                (or_introl Hclean) Hfixes Hlast) as (u & H). cbn zeta in H.
    destruct H as (Hi & Ht & Hdom & _ & Hsame & Hpos).
    exists u. split_and!; try done.
    by apply (Honce _ _ u).
Qed.

(** ** The markers of every reachable state exist *)

Section ScriptInvariant.
Import Leaflet Script.

Lemma wf_insert (s : state) (i : jsstring) (v : user) (h : list Marker) :
  wf s ->
  (length (markers s) <= length h)%nat ->
  (marker v < length h)%nat ->
  forall k u, <[i := v]> (activeUsers s) !! k = Some u ->
              (marker u < length h)%nat.
Proof.
  intros [Hreg _] Hle Hv k u. destruct (decide (i = k)) as [<-|Hne].
  - rewrite obj_lookup_insert_eq. by intros [= <-].
  - rewrite obj_lookup_insert_ne by done. intros Hu.
    pose proof (Hreg _ _ Hu). lia.
Qed.

Lemma wf_receive_location (now : Z) (data : location) (s : state) :
  wf s -> wf (state_of (receive_location now data s)).
Proof.
  intros Hwf. pose proof Hwf as [Hreg Hmy]. unfold receive_location.
  destruct (strict_eq (data_id data) (mySocketId s)); [done|].
  unfold JsObject.get.
  destruct (activeUsers s !! key_of (data_id data)) as [u0|] eqn:Hi.
  - destruct (toLatLng (data_latitude data) (data_longitude data));
      [|done].
    split; cbn.
    + apply wf_insert; [done | by rewrite length_setLatLng |].
      cbn. rewrite length_setLatLng. by apply (Hreg _ _ Hi).
    + intros m Hm. rewrite length_setLatLng. by apply Hmy.
  - destruct (JsObject.inherited (key_of (data_id data))); [done|].
    destruct (toLatLng (data_latitude data) (data_longitude data));
      [|done].
    match goal with
    | |- context [updateActiveUsersList_throws ?t] =>
        assert (wf t) as Hwf1;
        [|destruct (throws (Base64.hashId (data_id data))); [done|];
          by destruct (updateActiveUsersList_throws t)]
    end.
    split; cbn.
    + apply wf_insert; [done | |]; cbn; rewrite length_app; cbn; lia.
    + intros m Hm. rewrite length_app. cbn. pose proof (Hmy _ Hm). lia.
Qed.

Lemma wf_position_success (now : Z) (lat lng : float) (s : state) :
  wf s -> wf (state_of (position_success now lat lng s)).
Proof.
  intros Hwf. pose proof Hwf as [Hreg Hmy]. unfold position_success.
  destruct (toLatLng (Some lat) (Some lng)); [|done].
  destruct (myMarker s) as [m|] eqn:Hm; split; cbn.
  - intros k u Hu. rewrite length_setLatLng. by apply (Hreg k).
  - intros m' [= <-]. rewrite length_setLatLng. by apply Hmy.
  - apply wf_insert; [done | |]; cbn; rewrite length_app; cbn; lia.
  - intros m' [= <-]. rewrite length_app. cbn. lia.
Qed.

Lemma wf_sweep (th now : Z) (s : state) :
  wf s -> wf (state_of (sweep th now s)).
Proof.
  intros [Hreg Hmy].
  destruct (sweep_frame th now s) as (_ & Hm & Hh & _). cbn zeta in Hm, Hh.
  split.
  - intros k u Hu. rewrite Hh.
    destruct (sweep_lookup th now s k) as [H|[H _]]; cbn zeta in H;
      [|congruence].
    apply (Hreg k). congruence.
  - rewrite Hh, Hm. apply Hmy.
Qed.

Lemma wf_on_connect (sid : jsstring) (s : state) :
  wf s -> wf (state_of (on_connect sid s)).
Proof.
  intros Hwf. unfold on_connect.
  by destruct (throws (Base64.hashId (Str sid))).
Qed.

(** The invariant of the page. *)
Lemma wf_step (s : state) (e : event) : wf s -> wf (step s e).
Proof.
  intros Hwf. unfold step. destruct e as [sid| |now data|w now lat lng|w e|now];
    cbn [handle].
  - by apply wf_on_connect.
  - exact Hwf.
  - by apply wf_receive_location.
  - by apply wf_position_success.
  - exact Hwf.
  - by apply wf_sweep.
Qed.

Lemma wf_run (es : list event) (s : state) : wf s -> wf (run es s).
Proof.
  revert s. induction es as [|e es IH]; intros s Hwf; [done|].
  apply IH. by apply wf_step.
Qed.

End ScriptInvariant.

Section Part000Invariant.
Import Leaflet Part000.

Lemma part000_wf_place_marker (data : location) (s : state) :
  wf s -> wf (state_of (place_marker data s)).
Proof.
  intros Hwf. unfold place_marker.
  destruct (activeUsers s !! key_of (data_id data)) as [u|] eqn:Hi;
    [|done].
  destruct (marker u) as [m|] eqn:Hm;
    destruct (toLatLng (data_latitude data) (data_longitude data));
    try done.
  - destruct (strict_eq (data_id data) (mySocketId s)); unfold wf; cbn;
      rewrite length_setLatLng; apply Hwf.
  - assert (wf
      (with_registry
         (insert (key_of (data_id data))
            {| user_id := user_id u;
               marker := Some (length (markers s));
               lastUpdate := lastUpdate u |})
         (with_markers
            (markers s
             ++ [{| latlng := p;
                    self_icon := strict_eq (data_id data) (mySocketId s) |}])
            ({[length (markers s)]} ∪ layers s) s))) as Hwf'.
    { unfold wf. cbn. rewrite length_app.
      apply (markers_insert _ _ _ (length (markers s)));
        [done | intros ? [= <-]; cbn; lia | lia]. }
    destruct (negb (strict_eq (data_id data) (mySocketId s))
              && negb (is_string (data_id data))); [done|].
    by destruct (strict_eq (data_id data) (mySocketId s)).
Qed.

(** What is written on a built-in object is no entry of the registry. *)
Lemma part000_wf_place_on_builtin (data : location) (s : state) :
  wf s -> wf (state_of (place_on_builtin data s)).
Proof.
  intros Hwf. unfold place_on_builtin.
  set (w := <[key_of (data_id data) := _]> _).
  assert (forall h l w' s0,
            wf s0 -> (length (markers s0) <= length h)%nat ->
            wf (with_written w' (with_markers h l s0))) as Hgrow.
  { intros h l w' s0 H0 Hle k u m Hk Hm. cbn in *.
    pose proof (H0 k u m Hk Hm). lia. }
  assert (wf (with_written w s)) as Hwf1 by done.
  destruct (builtin_marker w (key_of (data_id data))) as [m|];
    destruct (toLatLng (data_latitude data) (data_longitude data));
    try done.
  - assert (wf (with_markers (setLatLng m p (markers (with_written w s)))
                  (layers (with_written w s)) (with_written w s))) as H.
    { intros k u m' Hk Hm. cbn in *. rewrite length_setLatLng.
      by apply (Hwf k u). }
    by destruct (strict_eq (data_id data) (mySocketId s)).
  - match goal with
    | |- context [with_written ?w' (with_markers ?h ?l ?s0)] =>
        assert (wf (with_written w' (with_markers h l s0))) as H
    end.
    { apply Hgrow; [done|]. rewrite length_app. lia. }
    destruct (negb (strict_eq (data_id data) (mySocketId s))
              && negb (is_string (data_id data))); [done|].
    by destruct (strict_eq (data_id data) (mySocketId s)).
Qed.

Lemma part000_wf_receive_location (now : Z) (data : location) (s : state) :
  wf s -> wf (state_of (receive_location now data s)).
Proof.
  intros Hwf. unfold receive_location.
  destruct (has_map s); [|done]. cbn [negb]. unfold JsObject.get.
  destruct (activeUsers s !! key_of (data_id data)) as [u|] eqn:Hi.
  - apply part000_wf_place_marker. unfold wf. cbn.
    apply (markers_insert _ _ _ (length (markers s))); [done| |done].
    cbn. intros m Hm. by apply (Hwf _ _ _ Hi).
  - destruct (inherits s (key_of (data_id data)));
      [by apply part000_wf_place_on_builtin|].
    match goal with
    | |- context [updateActiveUsersList_throws ?t] =>
        assert (wf t) as Hwf1;
        [|destruct (updateActiveUsersList_throws t);
          [done|by apply part000_wf_place_marker]]
    end.
    unfold wf. cbn.
    by apply (markers_insert _ _ _ (length (markers s))).
Qed.

Lemma part000_wf_sweep_one (now : Z) (o : outcome state) (k : jsstring) :
  wf (state_of o) -> wf (state_of (sweep_one now o k)).
Proof.
  destruct o as [s|s]; [|done]. cbn [state_of sweep_one]. intros Hwf.
  destruct (activeUsers s !! k) as [u|]; [|done].
  destruct (bool_decide (now - lastUpdate u > 30000)); [|done].
  assert (wf (remove k u s)) as Hwf1.
  { unfold wf. cbn. intros j v m Hj.
    apply obj_lookup_delete_Some in Hj as [_ Hj]. by apply (Hwf j). }
  by destruct (updateActiveUsersList_throws (remove k u s)).
Qed.

Lemma part000_wf_cleanup (now : Z) (s : state) :
  wf s -> wf (state_of (cleanup now s)).
Proof.
  intros Hwf. unfold cleanup. destruct (has_map s); [|done]. cbn [negb].
  generalize (JsObject.keys (activeUsers s)). intros l.
  change (wf (state_of (Returned s))) in Hwf.
  revert Hwf. generalize (Returned s). induction l as [|k l IH];
    intros o Ho; [done|].
  cbn [foldl]. by apply IH, part000_wf_sweep_one.
Qed.

(** The invariant of the page of [part_000]. *)
Lemma part000_wf_step (s : state) (e : event) : wf s -> wf (step s e).
Proof.
  intros Hwf. unfold step.
  destruct e as [sid| |now data|lat lng|e|now]; cbn [handle].
  - exact Hwf.
  - exact Hwf.
  - by apply part000_wf_receive_location.
  - exact Hwf.
  - exact Hwf.
  - by apply part000_wf_cleanup.
Qed.

Lemma part000_wf_run (es : list event) (s : state) : wf s -> wf (run es s).
Proof.
  revert s. induction es as [|e es IH]; intros s Hwf; [done|].
  apply IH. by apply part000_wf_step.
Qed.

Lemma part000_wf_init : wf Scenario.part000_init.
Proof. intros k u m Hk. discriminate Hk. Qed.

End Part000Invariant.

Lemma last_write_wins_witness :
  exists u,
    Script.activeUsers
      (Script.run
         (Script.upserts (js "a") ([(1, 10%float, 10%float)]
                                   ++ [(2, 20%float, 20%float)]))
         Scenario.tracking) !! js "a"
    = Some u
    /\ Script.lastUpdate u = 2
    /\ Script.position_of
         (Script.run
            (Script.upserts (js "a") ([(1, 10%float, 10%float)]
                                      ++ [(2, 20%float, 20%float)]))
            Scenario.tracking) u
       = Some (20%float, 20%float).
Proof.
  destruct (last_write_wins (js "a") [(1, 10%float, 10%float)] 2 20%float
              20%float Scenario.tracking Scenario.part000_tracking)
    as [(u & _ & H1 & H2 & H3 & _) _].
  - apply wf_run, wf_run, wf_init.
  - vm_compute. discriminate.
  - vm_compute. reflexivity.
  - vm_compute. reflexivity.
  - apply part000_wf_run, part000_wf_init.
  - vm_compute. reflexivity.
  - repeat constructor.
  - vm_compute. reflexivity.
  - exists u. split_and!; assumption.
Defined.
(** ** The client's own identity *)

Section Part000Own.
Import Leaflet Part000.

(** The client of [part_000] applies a message that carries its own identity. *)
Lemma part000_receive_location_own (now : Z) (me : jsstring)
    (lat lng : float) (s : state) (u0 : user) :
  has_map s = true ->
  wf s ->
  mySocketId s = Str me ->
  activeUsers s !! me = Some u0 ->
  valid lat lng = true ->
  exists s' u,
    receive_location now (Scenario.from me lat lng) s = Returned s'
    /\ activeUsers s' !! me = Some u
    /\ user_id u = user_id u0
    /\ lastUpdate u = now
    /\ position_of s' u = Some (lat, lng)
    /\ myMarker s' = marker u.
Proof.
  intros Hmap Hwf Hme Hu0 Hv.
  destruct (part000_receive_location_refresh now (Str me) lat lng s u0)
    as (s' & u & Hrun & _ & _ & _ & _ & _ & Hreg & Hid & Ht & Hpos & _ & Hmy);
    [done|done|done|by left|done|].
  exists s', u. split; [exact Hrun|]. rewrite Hreg. cbn [key_of].
  rewrite obj_lookup_insert_eq. split_and!; try done.
  rewrite Hmy, Hme. unfold strict_eq. by rewrite bool_decide_eq_true_2.
Qed.

End Part000Own.

(** C5, as the specification states it, fails in [script.js]: the handler
    of [receive-location] starts with [if (id === mySocketId) return].  The
    page connected as [me], whose own entry dates from its first fix at
    time 0 at (10, 10), is sent its own identity with (20, 20) at time
    5000: the entry keeps [lastUpdate] 0 and the marker stays at
    (10, 10). *)
Lemma own_echo_is_ignored :
  let s := Scenario.tracking in
  let s' := Script.step s
              (Script.ReceiveLocation 5000
                 (Scenario.from (js "me") 20%float 20%float)) in
  let u := {| Script.user_id := Str (js "me"); Script.marker := 0%nat;
              Script.lastUpdate := 0 |} in
  Script.mySocketId s = Str (js "me")
  /\ Script.activeUsers s !! js "me" = Some u
  /\ Script.activeUsers s' !! js "me" = Some u
  /\ Script.position_of s' u = Some (10%float, 10%float).
Proof. vm_compute. done. Qed.

(** C5, amended: in [script.js] a [receive-location] message whose
    identity is the client's own is dropped, whether the client's entry
    exists or not: the handler returns and the state is as before.  In the
    client of [part_000], for every state in which its own entry exists,
    such a message is applied: the entry gets the time of the message as
    [lastUpdate], its marker is moved to the coordinates of the message,
    and [myMarker] is that marker. *)
Theorem own_upsert_dropped_by_script_applied_by_part000
    (now : Z) (data : location) (s : Script.state)
    (me : jsstring) (lat lng : float) (l : Part000.state) (u0 : Part000.user)
    (Hown : data_id data = Script.mySocketId s)
    (Hmap : Part000.has_map l = true) (Hl : Part000.wf l)
    (Hme : Part000.mySocketId l = Str me)
    (Hu0 : Part000.activeUsers l !! me = Some u0)
    (Hv : Leaflet.valid lat lng = true) :
  Script.receive_location now data s = Returned s
  /\ exists l' u,
       Part000.receive_location now (Scenario.from me lat lng) l = Returned l'
       /\ Part000.activeUsers l' !! me = Some u
       /\ Part000.user_id u = Part000.user_id u0
       /\ Part000.lastUpdate u = now
       /\ Part000.position_of l' u = Some (lat, lng)
       /\ Part000.myMarker l' = Part000.marker u.
Proof.
  split; [by apply receive_location_own|].
  by apply part000_receive_location_own.
Qed.

Lemma own_upsert_dropped_by_script_applied_by_part000_witness :
  Script.receive_location 5000 (Scenario.from (js "me") 20%float 20%float)
    Scenario.tracking
  = Returned Scenario.tracking
  /\ exists l' u,
       Part000.receive_location 5000
         (Scenario.from (js "me") 20%float 20%float)
         Scenario.part000_tracking
       = Returned l'
       /\ Part000.activeUsers l' !! js "me" = Some u
       /\ Part000.lastUpdate u = 5000.
Proof.
  destruct (own_upsert_dropped_by_script_applied_by_part000
              5000 (Scenario.from (js "me") 20%float 20%float)
              Scenario.tracking
              (js "me") 20%float 20%float Scenario.part000_tracking
              {| Part000.user_id := Str (js "me");
                 Part000.marker := Some 0%nat;
                 Part000.lastUpdate := 0 |})
    as [H1 (l' & u & H2 & H3 & _ & H4 & _)].
  - vm_compute. reflexivity.
  - vm_compute. reflexivity.
  - apply part000_wf_run, part000_wf_init.
  - vm_compute. reflexivity.
  - vm_compute. reflexivity.
  - vm_compute. reflexivity.
  - split; [exact H1|]. exists l', u. split_and!; assumption.
Defined.

(** ** Messages that miss a field *)

Section Malformed.
Import Leaflet.

Lemma toLatLng_missing (lat lng : option float) :
  lat = None \/ lng = None -> toLatLng lat lng = None.
Proof. intros [-> | ->]; [done|]. by destruct lat. Qed.

(** [script.js], no coordinates: the handler throws before anything is
    written, in Leaflet or, for an identity that names an inherited
    property, before. *)
Lemma script_no_coordinates (now : Z) (data : location) (s : Script.state) :
  data_id data <> Script.mySocketId s ->
  toLatLng (data_latitude data) (data_longitude data) = None ->
  Script.receive_location now data s = Threw s.
Proof.
  intros Hne Hbad. unfold Script.receive_location, strict_eq.
  rewrite bool_decide_eq_false_2 by done. rewrite Hbad.
  by destruct (JsObject.get _ _ _).
Qed.

(** [script.js], no identity: the message is an upsert for the key
    [undefined]; the handler throws only when the entry is new and the
    side bar cannot be drawn. *)
Lemma script_no_identity (now : Z) (lat lng : float) (s : Script.state) :
  Script.mySocketId s <> Undefined ->
  valid lat lng = true ->
  let o := Script.receive_location now
             {| data_id := Undefined; data_latitude := Some lat;
                data_longitude := Some lng |} s in
  exists u,
    Script.activeUsers (state_of o) !! js "undefined" = Some u
    /\ Script.lastUpdate u = now
    /\ threw o
       = JsObject.lacks (Script.activeUsers s) (js "undefined")
         && Script.updateActiveUsersList_throws (state_of o).
Proof.
  intros Hne Hv. cbn zeta. unfold Script.receive_location, strict_eq.
  cbn [data_id data_latitude data_longitude key_of].
  rewrite bool_decide_eq_false_2 by done.
  rewrite (toLatLng_valid _ _ Hv). unfold JsObject.get, JsObject.lacks.
  destruct (Script.activeUsers s !! js "undefined") as [u0|].
  - eexists. cbn. by rewrite obj_lookup_insert_eq.
  - replace (JsObject.inherited (js "undefined")) with false
      by (vm_compute; reflexivity).
    replace (throws (Base64.hashId Undefined)) with false
      by (vm_compute; reflexivity).
    match goal with
    | |- context [Script.updateActiveUsersList_throws ?t] =>
        destruct (Script.updateActiveUsersList_throws t) eqn:E
    end; (eexists; cbn [state_of threw throws andb]; rewrite E; cbn;
          by rewrite obj_lookup_insert_eq).
Qed.

(** The client of [part_000] writes the registry first and throws afterwards. *)
Lemma part000_no_coordinates (now : Z) (data : location) (l : Part000.state) :
  Part000.has_map l = true ->
  Part000.inherits l (key_of (data_id data)) = false
  \/ is_Some (Part000.activeUsers l !! key_of (data_id data)) ->
  toLatLng (data_latitude data) (data_longitude data) = None ->
  exists l' u,
    Part000.receive_location now data l = Threw l'
    /\ Part000.activeUsers l' !! key_of (data_id data) = Some u
    /\ Part000.lastUpdate u = now.
Proof.
  intros Hmap Hplain Hbad. unfold Part000.receive_location. rewrite Hmap.
  cbn [negb]. unfold JsObject.get.
  destruct (Part000.activeUsers l !! key_of (data_id data)) as [u0|].
  - unfold Part000.place_marker. cbn [Part000.with_registry
      Part000.activeUsers]. rewrite obj_lookup_insert_eq, Hbad.
    cbn [Part000.marker].
    destruct (Part000.marker u0);
      (eexists _, _; split; [reflexivity|]; cbn;
       by rewrite obj_lookup_insert_eq).
  - destruct Hplain as [->|[? ?]]; [|done].
    match goal with
    | |- context [Part000.updateActiveUsersList_throws ?t] =>
        destruct (Part000.updateActiveUsersList_throws t)
    end.
    + eexists _, _. split; [reflexivity|]. cbn.
      by rewrite obj_lookup_insert_eq.
    + unfold Part000.place_marker. cbn [Part000.with_registry
        Part000.activeUsers]. rewrite obj_lookup_insert_eq, Hbad.
      cbn [Part000.marker].
      eexists _, _. split; [reflexivity|]. cbn.
      by rewrite obj_lookup_insert_eq.
Qed.

End Malformed.

(** C7, as the specification states it, fails: no handler looks at the
    fields before it uses them.  In [script.js], the page connected as
    [me], with an empty registry, is sent a message that has coordinates
    and no identity at time 7: the handler returns, and the registry has an
    entry under the key [undefined]. *)
Lemma message_without_identity_is_applied :
  let o := Script.receive_location 7 Scenario.here Scenario.connected in
  data_id Scenario.here = Undefined
  /\ Script.activeUsers Scenario.connected !! js "undefined" = None
  /\ threw o = false
  /\ Script.activeUsers (state_of o) !! js "undefined"
     = Some {| Script.user_id := Undefined; Script.marker := 0%nat;
               Script.lastUpdate := 7 |}.
Proof. vm_compute. done. Qed.

(** C7, amended: the handlers of [receive-location] do not reject a
    message that misses a field.  In [script.js], a message of another
    identity that misses its latitude or its longitude leaves the state as
    it is, and the handler ends with an exception; a message that misses
    only its identity is, for a client whose own identity is set, applied
    as an upsert under the key [undefined] (the handler ends with an
    exception only when the entry is new and the side bar cannot be
    drawn).  In the client of [part_000], when the map exists, a message
    that misses its latitude or its longitude, and whose identity names no
    property that the registry inherits, first creates or refreshes the
    entry of its identity, with the time of the message as [lastUpdate],
    and the handler then ends with an exception. *)
Theorem malformed_message_is_not_rejected
    (now : Z) (data : location) (lat lng : float)
    (s : Script.state) (l : Part000.state)
    (Hmissing : data_latitude data = None \/ data_longitude data = None)
    (Hother : data_id data <> Script.mySocketId s)
    (Hset : Script.mySocketId s <> Undefined)
    (Hv : Leaflet.valid lat lng = true)
    (Hmap : Part000.has_map l = true)
    (Hplain : Part000.inherits l (key_of (data_id data)) = false) :
  Script.receive_location now data s = Threw s
  /\ (let o := Script.receive_location now
                 {| data_id := Undefined; data_latitude := Some lat;
                    data_longitude := Some lng |} s in
      exists u,
        Script.activeUsers (state_of o) !! js "undefined" = Some u
        /\ Script.lastUpdate u = now
        /\ threw o
           = JsObject.lacks (Script.activeUsers s) (js "undefined")
             && Script.updateActiveUsersList_throws (state_of o))
  /\ (exists l' u,
        Part000.receive_location now data l = Threw l'
        /\ Part000.activeUsers l' !! key_of (data_id data) = Some u
        /\ Part000.lastUpdate u = now).
Proof.
  pose proof (toLatLng_missing _ _ Hmissing) as Hbad.
  split; [by apply script_no_coordinates|].
  split; [by apply script_no_identity|].
  apply part000_no_coordinates; [done|by left|done].
Qed.

Lemma malformed_message_is_not_rejected_witness :
  Script.receive_location 7
    {| data_id := Str (js "a"); data_latitude := None;
       data_longitude := Some 10%float |} Scenario.connected
  = Threw Scenario.connected
  /\ exists l' u,
       Part000.receive_location 7
         {| data_id := Str (js "a"); data_latitude := None;
            data_longitude := Some 10%float |} Scenario.part000_tracking
       = Threw l'
       /\ Part000.activeUsers l' !! js "a" = Some u
       /\ Part000.lastUpdate u = 7.
Proof.
  destruct (malformed_message_is_not_rejected 7
              {| data_id := Str (js "a"); data_latitude := None;
                 data_longitude := Some 10%float |}
              10%float 10%float Scenario.connected Scenario.part000_tracking)
    as (H1 & _ & H2).
  - left. reflexivity.
  - vm_compute. discriminate.
  - vm_compute. discriminate.
  - vm_compute. reflexivity.
  - vm_compute. reflexivity.
  - vm_compute. reflexivity.
  - split; [exact H1 | exact H2].
Defined.

(** ** Positioning in [script.js] *)

(** C8: for every positioning failure, whatever its code and whichever of
    the two registrations reports it, the error callback of [script.js]
    returns, shows a tracking-error state (the tracking text becomes
    "Tracking Error", or "Tracking Failed" for the registration of
    [initializeApp], and a toast is put up) and leaves the registry, the
    markers and their positions, the layers of the map and [myMarker] as
    they were; so the client's own entry, when it exists, is kept with its
    last position. *)
Theorem positioning_failure_keeps_registry
    (w : watcher) (e : position_error) (s : Script.state) :
  let o := Script.position_failure w e s in
  let s' := state_of o in
  threw o = false
  /\ Script.trackingText (Script.page s')
     = match w with
       | TopLevel => "Tracking Error"%string
       | InitializeApp => "Tracking Failed"%string
       end
  /\ Script.toast (Script.page s') = Some Script.toast_text
  /\ Script.activeUsers s' = Script.activeUsers s
  /\ Script.markers s' = Script.markers s
  /\ Script.layers s' = Script.layers s
  /\ Script.myMarker s' = Script.myMarker s
  /\ Script.mySocketId s' = Script.mySocketId s
  /\ Script.activeUsers s' !! key_of (Script.mySocketId s')
     = Script.activeUsers s !! key_of (Script.mySocketId s)
  /\ forall u, Script.position_of s' u = Script.position_of s u.
Proof. cbn. by destruct w. Qed.

Section ScriptFixes.
Import Leaflet Script.

Lemma step_position (w : watcher) (now : Z) (lat lng : float) (s : state) :
  step s (Position w now lat lng)
  = state_of (position_success now lat lng s).
Proof. done. Qed.

(** A fix that follows the first one moves [myMarker] and writes nothing
    else that the protocol reads. *)
Lemma position_success_again (now : Z) (lat lng : float) (s : state)
    (m : nat) :
  myMarker s = Some m ->
  (m < length (markers s))%nat ->
  valid lat lng = true ->
  let s' := state_of (position_success now lat lng s) in
  threw (position_success now lat lng s) = false
  /\ activeUsers s' = activeUsers s
  /\ mySocketId s' = mySocketId s
  /\ myMarker s' = Some m
  /\ length (markers s') = length (markers s)
  /\ getLatLng (markers s') m = Some (lat, lng).
Proof.
  intros Hm Hlt Hv. unfold position_success.
  rewrite (toLatLng_valid _ _ Hv), Hm. cbn.
  split_and!; try done.
  - apply length_setLatLng.
  - by apply getLatLng_setLatLng.
Qed.

(** The fixes that follow the first one. *)
Lemma run_fixes (fs : list (watcher * Z * float * float)) (s : state)
    (m : nat) :
  myMarker s = Some m ->
  (m < length (markers s))%nat ->
  Forall (fun f => valid f.1.2 f.2 = true) fs ->
  let s' := run (fixes fs) s in
  activeUsers s' = activeUsers s
  /\ mySocketId s' = mySocketId s
  /\ myMarker s' = Some m
  /\ length (markers s') = length (markers s)
  /\ getLatLng (markers s') m
     = match last fs with
       | Some f => Some (f.1.2, f.2)
       | None => getLatLng (markers s) m
       end.
Proof.
  intros Hm Hlt Hfs. revert s Hm Hlt.
  induction Hfs as [|[[[w t] lat] lng] fs Hv _ IH]; intros s Hm Hlt.
  - done.
  - cbn in Hv. cbn zeta. unfold fixes. rewrite fmap_cons.
    fold (fixes fs). cbn [fst snd].
    change (run (Position w t lat lng :: fixes fs) s)
      with (run (fixes fs) (step s (Position w t lat lng))).
    rewrite step_position.
    destruct (position_success_again t lat lng s m Hm Hlt Hv)
      as (_ & Hreg & Hmy & Hm' & Hlen & Hpos).
    destruct (IH _ Hm') as (Hreg' & Hmy' & Hm'' & Hlen' & Hpos');
      [by rewrite Hlen|].
    split_and!; try congruence.
    rewrite Hpos', last_cons. by destruct (last fs).
Qed.

End ScriptFixes.

(** C10: in [script.js], the first successful fix creates the client's own
    entry, with the time of that fix as [lastUpdate]; every successful fix
    after it, from either registration, moves the marker of that entry to
    the coordinates of the fix and leaves the registry as it is, so that
    after any number of later fixes the entry still has the time of its
    creation as [lastUpdate]. *)
Theorem own_lastUpdate_is_creation_time
    (s : Script.state) (w : watcher) (t : Z) (lat lng : float)
    (fs : list (watcher * Z * float * float))
    (Hfirst : Script.myMarker s = None)
    (Hv : Leaflet.valid lat lng = true)
    (Hfs : Forall (fun f => Leaflet.valid f.1.2 f.2 = true) fs) :
  let own := {| Script.user_id := Script.mySocketId s;
                Script.marker := length (Script.markers s);
                Script.lastUpdate := t |} in
  let s1 := Script.step s (Script.Position w t lat lng) in
  let s' := Script.run (Script.fixes fs) s1 in
  Script.activeUsers s1 = <[key_of (Script.mySocketId s) := own]>
                            (Script.activeUsers s)
  /\ Script.activeUsers s' = Script.activeUsers s1
  /\ Script.activeUsers s' !! key_of (Script.mySocketId s') = Some own
  /\ Script.myMarker s' = Some (Script.marker own)
  /\ Script.position_of s' own
     = Some (match last fs with
             | Some f => (f.1.2, f.2)
             | None => (lat, lng)
             end).
Proof.
  cbn zeta. rewrite step_position. unfold Script.position_success.
  rewrite (toLatLng_valid _ _ Hv), Hfirst. cbn [state_of].
  match goal with
  | |- context [Script.run _ ?s1] =>
      destruct (run_fixes fs s1 (length (Script.markers s)))
        as (Hreg & Hmy & Hm & Hlen & Hpos);
      [done | cbn; rewrite length_app; cbn; lia | done |]
  end.
  cbn [Script.activeUsers Script.mySocketId Script.markers] in *.
  rewrite Hreg, Hmy. split_and!; try done.
  - apply obj_lookup_insert_eq.
  - unfold Script.position_of. cbn [Script.marker]. rewrite Hpos.
    rewrite getLatLng_new. by destruct (last fs).
Qed.

Lemma own_lastUpdate_is_creation_time_witness :
  Script.activeUsers
    (Script.run
       (Script.fixes [(TopLevel, 1000, 11%float, 11%float);
                      (InitializeApp, 99000, 12%float, 12%float)])
       Scenario.tracking) !! js "me"
  = Some {| Script.user_id := Str (js "me"); Script.marker := 0%nat;
            Script.lastUpdate := 0 |}.
Proof.
  destruct (own_lastUpdate_is_creation_time Scenario.connected TopLevel 0
              10%float 10%float
              [(TopLevel, 1000, 11%float, 11%float);
               (InitializeApp, 99000, 12%float, 12%float)])
    as (_ & _ & H & _).
  - vm_compute. reflexivity.
  - vm_compute. reflexivity.
  - repeat constructor.
  - exact H.
Defined.

(** ** Who removes an entry *)

Section Eviction.

(** In [script.js], no handler but the timer removes an entry. *)
Lemma script_only_timer_removes (s : Script.state) (e : Script.event) :
  Script.is_tick e = false ->
  dom (Script.activeUsers s) ⊆ dom (Script.activeUsers (Script.step s e)).
Proof.
  unfold Script.step.
  destruct e as [sid| |now data|w now lat lng|w e|now]; cbn [Script.handle];
    intros He; try done.
  - unfold Script.on_connect.
    by destruct (throws (Base64.hashId (Str sid))).
  - unfold Script.receive_location.
    destruct (strict_eq (data_id data) (Script.mySocketId s)); [done|].
    destruct (JsObject.get _ _ _); [| done |];
      destruct (Leaflet.toLatLng (data_latitude data)
                  (data_longitude data)); try done.
    + apply obj_dom_insert_subseteq.
    + match goal with
      | |- context [Script.updateActiveUsersList_throws ?t] =>
          assert (dom (Script.activeUsers s) ⊆ dom (Script.activeUsers t))
            as Hsub by apply obj_dom_insert_subseteq;
          destruct (throws (Base64.hashId (data_id data))); [done|];
          by destruct (Script.updateActiveUsersList_throws t)
      end.
  - unfold Script.position_success.
    destruct (Leaflet.toLatLng (Some lat) (Some lng)); [|done].
    destruct (Script.myMarker s); [done|]. apply obj_dom_insert_subseteq.
Qed.

Lemma part000_place_marker_keeps (data : location) (l : Part000.state) :
  dom (Part000.activeUsers l)
  ⊆ dom (Part000.activeUsers (state_of (Part000.place_marker data l))).
Proof.
  unfold Part000.place_marker.
  destruct (Part000.activeUsers l !! key_of (data_id data)) as [u|];
    [|done].
  destruct (Part000.marker u);
    destruct (Leaflet.toLatLng (data_latitude data) (data_longitude data));
    try done.
  - by destruct (strict_eq (data_id data) (Part000.mySocketId l)).
  - destruct (negb (strict_eq (data_id data) (Part000.mySocketId l))
              && negb (is_string (data_id data)));
      [apply obj_dom_insert_subseteq|].
    destruct (strict_eq (data_id data) (Part000.mySocketId l));
      apply obj_dom_insert_subseteq.
Qed.

(** What the handler writes on a built-in object leaves the registry as it
    is. *)
Lemma part000_place_on_builtin_registry (data : location)
    (l : Part000.state) :
  Part000.activeUsers (state_of (Part000.place_on_builtin data l))
  = Part000.activeUsers l.
Proof.
  unfold Part000.place_on_builtin.
  destruct (Part000.builtin_marker _ _);
    destruct (Leaflet.toLatLng (data_latitude data) (data_longitude data));
    try done.
  - by destruct (strict_eq (data_id data) (Part000.mySocketId l)).
  - destruct (negb (strict_eq (data_id data) (Part000.mySocketId l))
              && negb (is_string (data_id data))); [done|].
    by destruct (strict_eq (data_id data) (Part000.mySocketId l)).
Qed.

(** Nor does any handler of the client of [part_000]. *)
Lemma part000_only_timer_removes (l : Part000.state) (e : Part000.event) :
  Part000.is_tick e = false ->
  dom (Part000.activeUsers l) ⊆ dom (Part000.activeUsers (Part000.step l e)).
Proof.
  unfold Part000.step.
  destruct e as [sid| |now data|lat lng|e|now]; cbn [Part000.handle];
    intros He; try done.
  unfold Part000.receive_location.
  destruct (Part000.has_map l); [|done]. cbn [negb]. unfold JsObject.get.
  destruct (Part000.activeUsers l !! key_of (data_id data)) as [u|].
  - etrans; [|apply part000_place_marker_keeps].
    apply obj_dom_insert_subseteq.
  - destruct (Part000.inherits l (key_of (data_id data)));
      [by rewrite part000_place_on_builtin_registry|].
    match goal with
    | |- context [Part000.updateActiveUsersList_throws ?t] =>
        destruct (Part000.updateActiveUsersList_throws t)
    end; [apply obj_dom_insert_subseteq|].
    etrans; [|apply part000_place_marker_keeps].
    apply obj_dom_insert_subseteq.
Qed.

End Eviction.

(** C9: when the socket [c] disconnects, the relay no longer counts it
    among the connected sockets and sends no message to anybody, so that no
    handler of any client runs because of it; and in each of the two
    clients no handler other than the periodic clean-up removes an entry of
    the registry, so that the entry of [c] stays until that timer removes
    it. *)
Theorem disconnect_is_silent
    (srv : Relay.server) (c r : jsstring) (now : Z)
    (s : Script.state) (e : Script.event)
    (l : Part000.state) (e' : Part000.event)
    (He : Script.is_tick e = false) (He' : Part000.is_tick e' = false) :
  let out := Relay.on_disconnect c srv in
  Relay.sockets out.1 = Relay.sockets srv ∖ {[c]}
  /\ (c ∉ Relay.sockets out.1)
  /\ out.2 = []
  /\ Script.run (Script.ReceiveLocation now <$> Relay.received_by r out.2) s
     = s
  /\ Part000.run (Part000.ReceiveLocation now <$> Relay.received_by r out.2) l
     = l
  /\ dom (Script.activeUsers s) ⊆ dom (Script.activeUsers (Script.step s e))
  /\ dom (Part000.activeUsers l) ⊆ dom (Part000.activeUsers (Part000.step l e')).
Proof.
  cbn. split_and!; try done.
  - rewrite elem_of_difference, elem_of_singleton. tauto.
  - by apply script_only_timer_removes.
  - by apply part000_only_timer_removes.
Qed.

Lemma disconnect_is_silent_witness :
  (Relay.on_disconnect (js "a") Scenario.two_sockets).2 = []
  /\ dom (Script.activeUsers Scenario.crowded)
     ⊆ dom (Script.activeUsers
              (Script.step Scenario.crowded Script.Disconnect)).
Proof.
  destruct (disconnect_is_silent Scenario.two_sockets (js "a") (js "b") 0
              Scenario.crowded Script.Disconnect
              Scenario.part000_tracking Part000.Disconnect)
    as (_ & _ & H1 & _ & _ & H2 & _).
  - reflexivity.
  - reflexivity.
  - split; [exact H1 | exact H2].
Defined.

(** ** The scenarios of the specification, end to end *)

Section EndToEnd.
Import Scenario.

(** [a1] publishes (37, -122); the page of [b1] handles what the relay
    sends it and has two entries, its own and that of [a1]. *)
Example scenario_join :
  let ds := (Relay.on_send_location (js "a1")
               {| data_id := Undefined; data_latitude := Some 37%float;
                  data_longitude := Some (-122)%float |} relay_a1_b1).2 in
  let b := Script.run (inbox (js "b1") 50 ds) page_b1 in
  JsObject.keys (Script.activeUsers b) = [js "b1"; js "a1"]
  /\ (Script.activeUsers b !! js "a1" ≫= Script.position_of b)
     = Some (37%float, (-122)%float).
Proof. vm_compute. done. Qed.

(** [a1] is silent from time 50 on; the tick at time 30051 removes its
    entry and takes its marker off the map, and keeps the entry of [b1],
    which dates from time 0. *)
Example scenario_leave :
  let ds := (Relay.on_send_location (js "a1")
               {| data_id := Undefined; data_latitude := Some 37%float;
                  data_longitude := Some (-122)%float |} relay_a1_b1).2 in
  let b := Script.run (inbox (js "b1") 50 ds ++ [Script.Tick 30051])
             page_b1 in
  JsObject.keys (Script.activeUsers b) = [js "b1"]
  /\ elements (Script.layers b) = [0%nat].
Proof. vm_compute. done. Qed.

(** [a1] publishes (10, 10) and then (20, 20): the page of [b1] ends with
    (20, 20) for [a1]. *)
Example scenario_two_fixes :
  let fix1 := {| data_id := Undefined; data_latitude := Some 10%float;
                 data_longitude := Some 10%float |} in
  let fix2 := {| data_id := Undefined; data_latitude := Some 20%float;
                 data_longitude := Some 20%float |} in
  let ds1 := (Relay.on_send_location (js "a1") fix1 relay_a1_b1).2 in
  let ds2 := (Relay.on_send_location (js "a1") fix2 relay_a1_b1).2 in
  let b := Script.run (inbox (js "b1") 50 ds1 ++ inbox (js "b1") 60 ds2)
             page_b1 in
  (Script.activeUsers b !! js "a1" ≫= Script.position_of b)
  = Some (20%float, 20%float)
  /\ Script.lastUpdate <$> Script.activeUsers b !! js "a1" = Some 60.
Proof. vm_compute. done. Qed.

End EndToEnd.
(** * Further properties *)

(** ** [hashId] *)

Section HashId.
Import Base64.

Example btoa_rfc4648 :
  btoa (js "") = Some ""%string /\ btoa (js "f") = Some "Zg=="%string
  /\ btoa (js "fo") = Some "Zm8="%string
  /\ btoa (js "foo") = Some "Zm9v"%string
  /\ btoa (js "foob") = Some "Zm9vYg=="%string
  /\ btoa (js "fooba") = Some "Zm9vYmE="%string
  /\ btoa (js "foobar") = Some "Zm9vYmFy"%string
  /\ btoa [233%N] = Some "6Q=="%string
  /\ btoa [8364%N] = None.
Proof. vm_compute. done. Qed.

(** Different groups of six bits have different characters. *)
Lemma digit_inj (b5 b4 b3 b2 b1 b0 c5 c4 c3 c2 c1 c0 : bool) :
  digit b5 b4 b3 b2 b1 b0 = digit c5 c4 c3 c2 c1 c0 ->
  (b5, b4, b3, b2, b1, b0) = (c5, c4, c3, c2, c1, c0).
Proof.
  destruct b5, b4, b3, b2, b1, b0, c5, c4, c3, c2, c1, c0;
    vm_compute; intros H; try reflexivity; discriminate H.
Qed.

Lemma encode3_inj (a b c a' b' c' : Ascii.ascii) :
  encode3 a b c = encode3 a' b' c' -> a = a' /\ b = b' /\ c = c'.
Proof.
  destruct a as [a0 a1 a2 a3 a4 a5 a6 a7], b as [b0 b1 b2 b3 b4 b5 b6 b7],
    c as [c0 c1 c2 c3 c4 c5 c6 c7], a' as [x0 x1 x2 x3 x4 x5 x6 x7],
    b' as [y0 y1 y2 y3 y4 y5 y6 y7], c' as [z0 z1 z2 z3 z4 z5 z6 z7].
  unfold encode3. intros [= H1 H2 H3 H4].
  apply digit_inj in H1, H2, H3, H4. by simplify_eq.
Qed.

Lemma encode3_shape (a b c : Ascii.ascii) :
  exists d0 d1 d2 d3,
    encode3 a b c = String d0 (String d1 (String d2 (String d3 ""))).
Proof. destruct a, b, c. cbn. eauto. Qed.

(** The first nine bytes of a string, and what follows them. *)
Lemma nine_characters (a : string) :
  (9 <= String.length a)%nat ->
  exists c1 c2 c3 c4 c5 c6 c7 c8 c9 rest,
    a = String c1 (String c2 (String c3 (String c4 (String c5
          (String c6 (String c7 (String c8 (String c9 rest)))))))).
Proof.
  intros H.
  do 9 (destruct a as [|? a]; [cbn in H; lia|]; cbn in H).
  eauto 12.
Qed.

(** The first twelve characters of the encoding are those of the first
    nine bytes. *)
Lemma encode_first_nine (a b : string) :
  (9 <= String.length a)%nat -> (9 <= String.length b)%nat ->
  String.length (String.substring 0 12 (encode a)) = 12%nat
  /\ (String.substring 0 12 (encode a) = String.substring 0 12 (encode b)
      <-> String.substring 0 9 a = String.substring 0 9 b).
Proof.
  intros Ha Hb.
  destruct (nine_characters a Ha)
    as (a1 & a2 & a3 & a4 & a5 & a6 & a7 & a8 & a9 & ra & ->).
  destruct (nine_characters b Hb)
    as (b1 & b2 & b3 & b4 & b5 & b6 & b7 & b8 & b9 & rb & ->).
  cbn [encode].
  destruct (encode3_shape a1 a2 a3) as (p0 & p1 & p2 & p3 & Ea1).
  destruct (encode3_shape a4 a5 a6) as (p4 & p5 & p6 & p7 & Ea2).
  destruct (encode3_shape a7 a8 a9) as (p8 & p9 & pa & pb & Ea3).
  destruct (encode3_shape b1 b2 b3) as (q0 & q1 & q2 & q3 & Eb1).
  destruct (encode3_shape b4 b5 b6) as (q4 & q5 & q6 & q7 & Eb2).
  destruct (encode3_shape b7 b8 b9) as (q8 & q9 & qa & qb & Eb3).
  rewrite Ea1, Ea2, Ea3, Eb1, Eb2, Eb3.
  cbv [String.append String.app String.substring String.length].
  destruct (encode ra), (encode rb), ra, rb.
  all: split; [done|]; split.
  all: try (intros [= -> -> -> -> -> -> -> -> -> -> -> ->];
            rewrite <- Eb1 in Ea1; rewrite <- Eb2 in Ea2;
            rewrite <- Eb3 in Ea3;
            apply encode3_inj in Ea1 as (-> & -> & ->);
            apply encode3_inj in Ea2 as (-> & -> & ->);
            apply encode3_inj in Ea3 as (-> & -> & ->); done).
  all: intros [= -> -> -> -> -> -> -> -> ->];
       rewrite Ea1 in Eb1; rewrite Ea2 in Eb2; rewrite Ea3 in Eb3;
       by simplify_eq.
Qed.

(** [btoa] takes the strings whose code units are all below 256. *)
Lemma latin1_Some (s : jsstring) :
  Forall (fun c => (c < 256)%N) s ->
  exists bytes, latin1 s = Some bytes /\ String.length bytes = length s.
Proof.
  induction 1 as [|c s Hc _ (bytes & IH & Hlen)]; [by exists ""%string|].
  cbn. apply N.ltb_lt in Hc as ->. rewrite IH. cbn.
  eexists. split; [reflexivity|]. cbn. by rewrite Hlen.
Qed.

Lemma latin1_None (s : jsstring) :
  latin1 s = None <-> Exists (fun c => (256 <= c)%N) s.
Proof.
  induction s as [|c s IH]; cbn.
  - split; [done|]. by intros ?%Exists_nil.
  - rewrite Exists_cons. destruct (N.ltb_spec c 256) as [Hc|Hc].
    + destruct (latin1 s) as [bytes|]; cbn.
      * split; [done|]. intros [?|H]; [lia|]. by apply IH in H.
      * split; [|done]. intros _. right. by apply IH.
    + split; [by left|done].
Qed.

(** The bytes of two strings agree on a prefix exactly when the strings
    do. *)
Lemma latin1_prefix (n : nat) (a b : jsstring) (a' b' : string) :
  latin1 a = Some a' -> latin1 b = Some b' ->
  String.substring 0 n a' = String.substring 0 n b' <-> take n a = take n b.
Proof.
  revert a b a' b'. induction n as [|n IH]; intros a b a' b' Ha Hb.
  - rewrite !take_0. by destruct a', b'.
  - destruct a as [|c a], b as [|d b]; cbn in Ha, Hb.
    + by simplify_eq.
    + destruct (N.ltb_spec d 256); [|done].
      destruct (latin1 b); [|done]. cbn in Hb. simplify_eq.
      cbn. split; intros Hx; discriminate Hx.
    + destruct (N.ltb_spec c 256); [|done].
      destruct (latin1 a); [|done]. cbn in Ha. simplify_eq.
      cbn. split; intros Hx; discriminate Hx.
    + destruct (N.ltb_spec c 256) as [Hc|]; [|done].
      destruct (N.ltb_spec d 256) as [Hd|]; [|done].
      destruct (latin1 a) as [a0|] eqn:Ea; [|done].
      destruct (latin1 b) as [b0|] eqn:Eb; [|done].
      cbn in Ha, Hb. simplify_eq. cbn [String.substring take].
      specialize (IH a b a0 b0 Ea Eb). split.
      * intros [= Hcd H]. apply IH in H as ->. f_equal.
        rewrite <- (Ascii.N_ascii_embedding c), <- (Ascii.N_ascii_embedding d)
          by done. by rewrite Hcd.
      * intros [= -> H]. apply IH in H. by rewrite H.
Qed.

End HashId.

(** When [hashId] throws. *)
Lemma hashId_throws (id : jsid) :
  throws (Base64.hashId id) = true
  <-> Exists (fun c => (256 <= c)%N) (key_of id).
Proof.
  unfold Base64.hashId, Base64.btoa. rewrite <- latin1_None.
  by destruct (Base64.latin1 (key_of id)).
Qed.

(** X1: for identities of nine characters or more, as socket ids are, and
    made of characters that [btoa] takes, [hashId] gives twelve characters,
    and two identities get the same [hashId] exactly when their first nine
    characters are the same: what the page shows as "ID" hides nothing of
    those nine characters and nothing else tells two identities apart. *)
Theorem hashId_is_the_first_nine_characters
    (a b : jsstring)
    (Ha : (9 <= length a)%nat) (Hb : (9 <= length b)%nat)
    (Hla : Forall (fun c => (c < 256)%N) a)
    (Hlb : Forall (fun c => (c < 256)%N) b) :
  exists ha hb,
    Base64.hashId (Str a) = Some ha
    /\ Base64.hashId (Str b) = Some hb
    /\ String.length ha = 12%nat
    /\ (ha = hb <-> take 9 a = take 9 b).
Proof.
  destruct (latin1_Some a Hla) as (a' & Ea & Hlena).
  destruct (latin1_Some b Hlb) as (b' & Eb & Hlenb).
  unfold Base64.hashId, Base64.btoa. cbn [key_of]. rewrite Ea, Eb. cbn.
  eexists _, _. split; [reflexivity|]. split; [reflexivity|].
  destruct (encode_first_nine a' b') as [Hlen Heq]; [lia..|].
  split; [done|]. rewrite Heq. by apply latin1_prefix.
Qed.

Lemma hashId_is_the_first_nine_characters_witness :
  Base64.hashId (Str (js "Zk3vQ8ABCDEFGHIJKLMN"))
  = Base64.hashId (Str (js "Zk3vQ8ABC-another-id")).
Proof.
  destruct (hashId_is_the_first_nine_characters
              (js "Zk3vQ8ABCDEFGHIJKLMN") (js "Zk3vQ8ABC-another-id"))
    as (ha & hb & -> & -> & _ & Heq).
  - cbn. lia.
  - cbn. lia.
  - apply Forall_forall. intros c Hc. apply N.ltb_lt.
    revert c Hc. apply Forall_forall. vm_compute. repeat constructor.
  - apply Forall_forall. intros c Hc. apply N.ltb_lt.
    revert c Hc. apply Forall_forall. vm_compute. repeat constructor.
  - f_equal. apply Heq. reflexivity.
Defined.

Section UserLabel.
Import Base64.

Lemma five_characters (a : string) :
  (5 <= String.length a)%nat ->
  exists c1 c2 c3 c4 c5 rest,
    a = String c1 (String c2 (String c3 (String c4 (String c5 rest)))).
Proof.
  intros H.
  do 5 (destruct a as [|? a]; [cbn in H; lia|]; cbn in H).
  eauto 8.
Qed.

(** The six characters of the name of a string of five bytes or more: four
    for the first three bytes, two for the fourth and the upper half of
    the fifth. *)
Lemma label_five (c1 c2 c3 c4 c5 : Ascii.ascii) (rest : string) :
  String.substring 0 6
    (String.substring 0 12
       (encode (String c1 (String c2 (String c3 (String c4
                  (String c5 rest)))))))
  = encode3 c1 c2 c3 +:+ String.substring 0 2 (encode2 c4 c5).
Proof.
  cbn [encode].
  destruct (encode3_shape c1 c2 c3) as (d0 & d1 & d2 & d3 & ->).
  destruct c4 as [x0 x1 x2 x3 x4 x5 x6 x7], c5 as [y0 y1 y2 y3 y4 y5 y6 y7].
  destruct rest as [|c6 rest]; [reflexivity|].
  destruct c6 as [z0 z1 z2 z3 z4 z5 z6 z7].
  reflexivity.
Qed.

Lemma label_prefix (a b : string) :
  (5 <= String.length a)%nat -> (5 <= String.length b)%nat ->
  let label x := String.substring 0 6 (String.substring 0 12 (encode x)) in
  (String.substring 0 5 a = String.substring 0 5 b -> label a = label b)
  /\ (label a = label b -> String.substring 0 4 a = String.substring 0 4 b).
Proof.
  intros Ha Hb. cbn zeta.
  destruct (five_characters a Ha) as (a1 & a2 & a3 & a4 & a5 & ra & ->).
  destruct (five_characters b Hb) as (b1 & b2 & b3 & b4 & b5 & rb & ->).
  rewrite !label_five. split.
  - destruct ra, rb; cbv [String.substring];
      by intros [= -> -> -> -> ->].
  - destruct (encode3_shape a1 a2 a3) as (p0 & p1 & p2 & p3 & Ea).
    destruct (encode3_shape b1 b2 b3) as (q0 & q1 & q2 & q3 & Eb).
    rewrite Ea, Eb.
    destruct a4 as [x0 x1 x2 x3 x4 x5 x6 x7],
      a5 as [y0 y1 y2 y3 y4 y5 y6 y7],
      b4 as [u0 u1 u2 u3 u4 u5 u6 u7],
      b5 as [v0 v1 v2 v3 v4 v5 v6 v7].
    cbv [Base64.encode2 String.app String.append String.substring].
    intros [= -> -> -> -> H1 H2].
    rewrite <- Eb in Ea. apply encode3_inj in Ea as (-> & -> & ->).
    apply digit_inj in H1, H2. simplify_eq.
    by destruct ra, rb.
Qed.

End UserLabel.

(** X2: the name under which somebody else is shown (popup and side bar)
    is made of the first six characters of [hashId]: two identities of
    five characters or more, of characters that [btoa] takes, that agree on
    their first five characters are shown under the same name, and two
    identities shown under the same name agree on their first four
    characters. *)
Theorem user_label_is_a_prefix
    (a b : jsstring)
    (Ha : (5 <= length a)%nat) (Hb : (5 <= length b)%nat)
    (Hla : Forall (fun c => (c < 256)%N) a)
    (Hlb : Forall (fun c => (c < 256)%N) b) :
  is_Some (Base64.user_label (Str a))
  /\ (take 5 a = take 5 b ->
      Base64.user_label (Str a) = Base64.user_label (Str b))
  /\ (Base64.user_label (Str a) = Base64.user_label (Str b) ->
      take 4 a = take 4 b).
Proof.
  destruct (latin1_Some a Hla) as (a' & Ea & Hlena).
  destruct (latin1_Some b Hlb) as (b' & Eb & Hlenb).
  unfold Base64.user_label, Base64.hashId, Base64.btoa. cbn [key_of].
  rewrite Ea, Eb. cbn.
  destruct (label_prefix a' b') as [H5 H4]; [lia..|]. cbn zeta in H5, H4.
  split; [by eexists|]. split.
  - intros H. apply (latin1_prefix 5 a b a' b' Ea Eb) in H.
    by rewrite (H5 H).
  - intros [= H]. apply (latin1_prefix 4 a b a' b' Ea Eb). apply H4.
    revert H. generalize (String.substring 0 6
                            (String.substring 0 12 (Base64.encode a'))).
    generalize (String.substring 0 6
                  (String.substring 0 12 (Base64.encode b'))).
    intros x y. cbv [String.append String.app]. by intros [= ->].
Qed.

Lemma user_label_is_a_prefix_witness :
  Base64.user_label (Str (js "Zk3vQ8ABCDEFGHIJKLMN"))
  = Base64.user_label (Str (js "Zk3vQ-another-one")).
Proof.
  apply (user_label_is_a_prefix (js "Zk3vQ8ABCDEFGHIJKLMN")
           (js "Zk3vQ-another-one")).
  - cbn. lia.
  - cbn. lia.
  - apply Forall_forall. intros c Hc. apply N.ltb_lt.
    revert c Hc. apply Forall_forall. vm_compute. repeat constructor.
  - apply Forall_forall. intros c Hc. apply N.ltb_lt.
    revert c Hc. apply Forall_forall. vm_compute. repeat constructor.
  - reflexivity.
Defined.

(** ** [extractKeywords] *)

Section Keywords.
Import Search.

Example extractKeywords_samples :
  extractKeywords "Eiffel Tower" = "Eiffel Tower"%string
  /\ extractKeywords "Best COFFEE" = "amenity=cafe best coffee"%string
  /\ extractKeywords "supermarket"
     = "shop=supermarket amenity=market supermarket"%string
  /\ extractKeywords "" = ""%string.
Proof. vm_compute. done. Qed.

Lemma lower_char_idemp (c : Ascii.ascii) :
  lower_char (lower_char c) = lower_char c.
Proof. destruct c as [[] [] [] [] [] [] [] []]; reflexivity. Qed.

Lemma toLowerCase_idemp (s : string) :
  toLowerCase (toLowerCase s) = toLowerCase s.
Proof.
  induction s as [|c s IH]; [done|]. cbn. by rewrite lower_char_idemp, IH.
Qed.

Lemma toLowerCase_length (s : string) :
  String.length (toLowerCase s) = String.length s.
Proof. induction s as [|c s IH]; [done|]. cbn. by rewrite IH. Qed.

Lemma app_String (a : Ascii.ascii) (t post : string) :
  String a t +:+ post = String a (t +:+ post).
Proof. done. Qed.

Lemma app_empty (post : string) : "" +:+ post = post.
Proof. done. Qed.

Lemma prefix_app (t s : string) :
  String.prefix t s = true <-> exists post, s = t +:+ post.
Proof.
  revert s. induction t as [|a t IH]; intros s.
  - cbn. destruct s; split; eauto.
  - destruct s as [|b s]; cbn.
    + split; [done|]. intros [post Hp]. by rewrite app_String in Hp.
    + destruct (Ascii.ascii_dec a b) as [->|Hne].
      * rewrite IH. split; intros [post Hp]; exists post.
        -- by rewrite app_String, Hp.
        -- rewrite app_String in Hp. by simplify_eq.
      * split; [done|]. intros [post Hp]. rewrite app_String in Hp.
        by simplify_eq.
Qed.

(** [includes s t] says that [t] is met somewhere in [s]. *)
Lemma includes_app (s t : string) :
  includes s t = true <-> exists pre post, s = pre +:+ t +:+ post.
Proof.
  induction s as [|c s IH].
  - cbn [includes]. rewrite orb_false_r, prefix_app. split.
    + intros [post Hp]. by exists ""%string, post.
    + intros (pre & post & Hp). destruct pre as [|d pre].
      * by exists post.
      * by rewrite app_String in Hp.
  - cbn [includes]. rewrite orb_true_iff, prefix_app, IH. split.
    + intros [[post Hp]|(pre & post & Hp)].
      * by exists ""%string, post.
      * exists (String c pre), post. by rewrite app_String, Hp.
    + intros (pre & post & Hp). destruct pre as [|d pre].
      * left. by exists post.
      * right. rewrite app_String in Hp. exists pre, post. by simplify_eq.
Qed.

End Keywords.

(** X3: [extractKeywords] looks for its terms in the lowercased query: it
    finds the tag of a row of its table exactly when the term of that row
    occurs somewhere in the lowercased query, so what it finds does not
    depend on the capitals of the query.  When it finds no tag it returns
    the query as typed; when it finds some it returns them, in the order of
    the table, followed by the lowercased query, and the result is then the
    same for the query and the lowercased query. *)
Theorem extractKeywords_ignores_case (query : string) :
  (forall tag,
     tag ∈ Search.amenities (Search.toLowerCase query)
     <-> exists term pre post,
           (term, tag) ∈ Search.amenityKeywords
           /\ Search.toLowerCase query = pre +:+ term +:+ post)
  /\ Search.amenities (Search.toLowerCase (Search.toLowerCase query))
     = Search.amenities (Search.toLowerCase query)
  /\ (Search.amenities (Search.toLowerCase query) = [] ->
      Search.extractKeywords query = query)
  /\ (Search.amenities (Search.toLowerCase query) <> [] ->
      Search.extractKeywords query
      = String.concat " " (Search.amenities (Search.toLowerCase query))
        +:+ " " +:+ Search.toLowerCase query
      /\ Search.extractKeywords (Search.toLowerCase query)
         = Search.extractKeywords query).
Proof.
  split.
  { intros tag. unfold Search.amenities.
    rewrite list_elem_of_fmap. split.
    - intros ([term tag'] & -> & Hin).
      apply list_elem_of_In, filter_In in Hin as [Hin Hinc].
      apply includes_app in Hinc as (pre & post & Hq).
      exists term, pre, post. split; [by apply list_elem_of_In|done].
    - intros (term & pre & post & Hin & Hq).
      exists (term, tag). split; [done|].
      apply list_elem_of_In, filter_In. split; [by apply list_elem_of_In|].
      apply includes_app. by exists pre, post. }
  unfold Search.extractKeywords. rewrite !toLowerCase_idemp.
  split; [done|].
  destruct (Search.amenities (Search.toLowerCase query)); by split.
Qed.

Lemma extractKeywords_ignores_case_witness :
  Search.extractKeywords "Sushi Place" = "Sushi Place"%string
  /\ Search.extractKeywords (Search.toLowerCase "PUB Quiz")
     = Search.extractKeywords "PUB Quiz".
Proof.
  split.
  - apply (extractKeywords_ignores_case "Sushi Place"). reflexivity.
  - apply (extractKeywords_ignores_case "PUB Quiz"). discriminate.
Defined.

(** ** The registry of [script.js] and the map *)

(** X4: whenever the clean-up timer of [script.js] removes an entry from
    the registry, the marker of that entry is no longer on the map when
    the callback is over, whether it returned or threw. *)
Theorem evicted_marker_leaves_map
    (now : Z) (s : Script.state) (k : jsstring) (u : Script.user)
    (Hbefore : Script.activeUsers s !! k = Some u)
    (Hafter :
       Script.activeUsers (state_of (Script.cleanup now s)) !! k = None) :
  Script.marker u ∉ Script.layers (state_of (Script.cleanup now s)).
Proof.
  unfold Script.cleanup in *. intros Hin.
  apply sweep_layers in Hin as [_ Hall]. by apply (Hall k u).
Qed.

Lemma evicted_marker_leaves_map_witness :
  1%nat ∉ Script.layers
            (state_of (Script.cleanup 30150 Scenario.crowded)).
Proof.
  apply (evicted_marker_leaves_map 30150 Scenario.crowded (js "a")
           {| Script.user_id := Str (js "a"); Script.marker := 1;
              Script.lastUpdate := 100 |});
    vm_compute; reflexivity.
Defined.

Section ShownInvariant.
Import Leaflet Script Shown.

Lemma inv_init : inv init.
Proof.
  split; [apply wf_init|]. split.
  - intros k u Hk. discriminate Hk.
  - intros k1 k2 u1 u2 Hk. discriminate Hk.
Qed.

(** A new marker for the key [i]: the entry of [i] is written, with the
    marker that has just been created and put on the map. *)
Lemma inv_new_marker (s s' : state) (i : jsstring) (v : user) :
  inv s ->
  wf s' ->
  activeUsers s' = <[i := v]> (activeUsers s) ->
  marker v = length (markers s) ->
  layers s' = {[length (markers s)]} ∪ layers s ->
  inv s'.
Proof.
  intros ([Hreg Hmy] & Hshown & Hapart) Hwf' Hr Hv Hl.
  split; [done|]. split.
  - intros k u. rewrite Hr, Hl, elem_of_union, elem_of_singleton.
    destruct (decide (i = k)) as [<-|Hne].
    + rewrite obj_lookup_insert_eq. intros [= <-]. by left.
    + rewrite obj_lookup_insert_ne by done. intros Hu. right.
      by apply (Hshown k).
  - intros k1 k2 u1 u2. rewrite Hr.
    destruct (decide (i = k1)) as [<-|Hne1],
      (decide (i = k2)) as [<-|Hne2]; try done.
    + rewrite obj_lookup_insert_eq, obj_lookup_insert_ne by done.
      intros [= <-] Hu2 Hm. pose proof (Hreg _ _ Hu2). lia.
    + rewrite obj_lookup_insert_eq, obj_lookup_insert_ne by done.
      intros Hu1 [= <-] Hm. pose proof (Hreg _ _ Hu1). lia.
    + rewrite !obj_lookup_insert_ne by done. apply Hapart.
Qed.

(** The entry of [i] is written again, with the marker it had. *)
Lemma inv_same_marker (s s' : state) (i : jsstring) (u0 v : user) :
  inv s ->
  wf s' ->
  activeUsers s !! i = Some u0 ->
  activeUsers s' = <[i := v]> (activeUsers s) ->
  marker v = marker u0 ->
  layers s' = layers s ->
  inv s'.
Proof.
  intros (_ & Hshown & Hapart) Hwf' Hi Hr Hv Hl.
  split; [done|]. split.
  - intros k u. rewrite Hr, Hl.
    destruct (decide (i = k)) as [<-|Hne].
    + rewrite obj_lookup_insert_eq. intros [= <-]. rewrite Hv.
      by apply (Hshown i).
    + rewrite obj_lookup_insert_ne by done. apply Hshown.
  - intros k1 k2 u1 u2. rewrite Hr.
    destruct (decide (i = k1)) as [<-|Hne1],
      (decide (i = k2)) as [<-|Hne2]; try done.
    + rewrite obj_lookup_insert_eq, obj_lookup_insert_ne by done.
      intros [= <-] Hu2 Hm. rewrite Hv in Hm. by apply (Hapart i k2 u0 u2).
    + rewrite obj_lookup_insert_eq, obj_lookup_insert_ne by done.
      intros Hu1 [= <-] Hm. rewrite Hv in Hm. by apply (Hapart k1 i u1 u0).
    + rewrite !obj_lookup_insert_ne by done. apply Hapart.
Qed.

(** Nothing but the positions of the markers has changed. *)
Lemma inv_same_registry (s s' : state) :
  inv s ->
  wf s' ->
  activeUsers s' = activeUsers s ->
  layers s' = layers s ->
  inv s'.
Proof.
  intros (_ & Hshown & Hapart) Hwf' Hr Hl. split; [done|]. split.
  - intros k u. rewrite Hr, Hl. apply Hshown.
  - intros k1 k2 u1 u2. rewrite Hr. apply Hapart.
Qed.

Lemma inv_receive_location (now : Z) (data : location) (s : state) :
  inv s -> inv (state_of (receive_location now data s)).
Proof.
  intros Hinv. pose proof Hinv as (Hwf & _).
  pose proof (wf_receive_location now data s Hwf) as Hwf'.
  revert Hwf'. unfold receive_location.
  destruct (strict_eq (data_id data) (mySocketId s)); [done|].
  unfold JsObject.get.
  destruct (activeUsers s !! key_of (data_id data)) as [u0|] eqn:Hi.
  - destruct (toLatLng (data_latitude data) (data_longitude data)) as [ll|];
      [|done].
    cbn [state_of]; intros Hwf'.
    by apply (inv_same_marker s _ (key_of (data_id data)) u0
                {| user_id := user_id u0; marker := marker u0;
                   lastUpdate := now |}).
  - destruct (JsObject.inherited (key_of (data_id data))); [done|].
    destruct (toLatLng (data_latitude data) (data_longitude data)) as [ll|];
      [|done].
    match goal with
    | |- context [updateActiveUsersList_throws ?t] => set (s1 := t)
    end.
    assert (state_of
              (if throws (Base64.hashId (data_id data)) then Threw s1
               else if updateActiveUsersList_throws s1 then Threw s1
                    else Returned s1) = s1) as ->.
    { destruct (throws (Base64.hashId (data_id data))); [done|].
      by destruct (updateActiveUsersList_throws s1). }
    intros Hwf'.
    by apply (inv_new_marker s _ (key_of (data_id data))
                {| user_id := data_id data; marker := length (markers s);
                   lastUpdate := now |}).
Qed.

Lemma inv_position_success (now : Z) (lat lng : float) (s : state) :
  inv s -> inv (state_of (position_success now lat lng s)).
Proof.
  intros Hinv. pose proof Hinv as (Hwf & _).
  pose proof (wf_position_success now lat lng s Hwf) as Hwf'.
  revert Hwf'. unfold position_success.
  destruct (toLatLng (Some lat) (Some lng)) as [ll|]; cbn [state_of];
    intros Hwf'.
  - destruct (myMarker s) as [m|]; cbn [state_of] in *.
    + by apply (inv_same_registry s).
    + by apply (inv_new_marker s _ (key_of (mySocketId s))
                  {| user_id := mySocketId s; marker := length (markers s);
                     lastUpdate := now |}).
  - by apply (inv_same_registry s).
Qed.

Lemma inv_sweep (th now : Z) (s : state) :
  inv s -> inv (state_of (sweep th now s)).
Proof.
  intros (Hwf & Hshown & Hapart). split; [by apply wf_sweep|].
  assert (forall k u, activeUsers (state_of (sweep th now s)) !! k = Some u ->
                      activeUsers s !! k = Some u) as Hsub.
  { intros k u Hu.
    destruct (sweep_lookup th now s k) as [H|[H _]]; cbn zeta in H;
      congruence. }
  split.
  - intros k u Hu. pose proof (Hsub _ _ Hu) as Hk.
    apply sweep_layers. split; [by apply (Hshown k)|].
    intros k' u' Hk' Hgone Hm.
    assert (k' = k) as -> by (by apply (Hapart k' k u' u)).
    congruence.
  - intros k1 k2 u1 u2 H1 H2.
    apply (Hapart k1 k2 u1 u2); by apply Hsub.
Qed.

Lemma inv_on_connect (sid : jsstring) (s : state) :
  inv s -> inv (state_of (on_connect sid s)).
Proof.
  intros Hinv. pose proof (wf_on_connect sid s (proj1 Hinv)) as Hwf'.
  revert Hwf'. unfold on_connect.
  destruct (throws (Base64.hashId (Str sid))); cbn [state_of]; intros Hwf';
    by apply (inv_same_registry s).
Qed.

Lemma inv_step (s : state) (e : event) : inv s -> inv (step s e).
Proof.
  intros Hinv. unfold step.
  destruct e as [sid| |now data|w now lat lng|w e|now]; cbn [handle].
  - by apply inv_on_connect.
  - apply (inv_same_registry s); [done|apply Hinv|done..].
  - by apply inv_receive_location.
  - by apply inv_position_success.
  - apply (inv_same_registry s); [done|apply Hinv|done..].
  - by apply inv_sweep.
Qed.

Lemma inv_run (es : list event) (s : state) : inv s -> inv (run es s).
Proof.
  revert s. induction es as [|e es IH]; intros s Hs; [done|].
  apply IH. by apply inv_step.
Qed.

End ShownInvariant.

(** X5: in every state that the page of [script.js] reaches from its
    initial state, whatever the events and their order, and whether the
    handlers returned or threw, every entry of the registry has a marker
    that exists and is on the map, and no two entries share a marker. *)
Theorem registry_is_on_the_map (es : list Script.event) :
  Shown.inv (Script.run es Script.init).
Proof. apply inv_run, inv_init. Qed.

Section OwnMarker.
Import Leaflet Script.



End OwnMarker.



Section Frame.
Import Leaflet Script Shown.

Lemma getLatLng_app_l (h : list Marker) (x : Marker) (m : nat) :
  (m < length h)%nat -> getLatLng (h ++ [x]) m = getLatLng h m.
Proof. intros Hm. unfold getLatLng. by rewrite lookup_app_l. Qed.

Lemma getLatLng_setLatLng_ne (h : list Marker) (m m' : nat)
    (ll : float * float) :
  m' <> m -> getLatLng (setLatLng m' ll h) m = getLatLng h m.
Proof.
  intros Hne. unfold getLatLng, setLatLng.
  by rewrite list_lookup_alter_ne.
Qed.

End Frame.

(** X7: in a state of the page of [script.js] where the markers of the
    registry exist and no two entries share one, an event leaves the marker
    of an entry where it is, unless the event is a [receive-location]
    message with the key of that entry or the marker is the client's own
    [myMarker]: a message about one participant, a fix of the client, a
    tick or a change of connection never moves the marker of another
    participant. *)
Theorem marker_moves_only_for_its_owner
    (s : Script.state) (e : Script.event) (j : jsstring) (u : Script.user)
    (Hinv : Shown.inv s)
    (Hentry : Script.activeUsers s !! j = Some u)
    (Hother : Shown.is_message_for j e = false)
    (Hmine : Script.myMarker s <> Some (Script.marker u)) :
  Script.position_of (Script.step s e) u = Script.position_of s u.
Proof.
  destruct Hinv as ([Hreg Hmy] & Hshown & Hapart).
  pose proof (Hreg _ _ Hentry) as Hlt.
  unfold Script.step, Script.position_of.
  destruct e as [sid| |now data|w now lat lng|w e|now]; cbn [Script.handle];
    try done.
  - unfold Script.on_connect.
    by destruct (throws (Base64.hashId (Str sid))).
  - cbn in Hother. apply bool_decide_eq_false in Hother.
    unfold Script.receive_location.
    destruct (strict_eq (data_id data) (Script.mySocketId s)); [done|].
    unfold JsObject.get.
    destruct (Script.activeUsers s !! key_of (data_id data)) as [u0|] eqn:Hi.
    + destruct (Leaflet.toLatLng (data_latitude data) (data_longitude data));
        [|done].
      cbn. apply getLatLng_setLatLng_ne. intros Hm. apply Hother.
      by apply (Hapart _ _ u0 u).
    + destruct (JsObject.inherited (key_of (data_id data))); [done|].
      destruct (Leaflet.toLatLng (data_latitude data) (data_longitude data));
        [|done].
      destruct (throws (Base64.hashId (data_id data)));
        [by apply getLatLng_app_l|].
      match goal with
      | |- context [Script.updateActiveUsersList_throws ?t] =>
          destruct (Script.updateActiveUsersList_throws t)
      end; by apply getLatLng_app_l.
  - unfold Script.position_success.
    destruct (Leaflet.toLatLng (Some lat) (Some lng)); [|done].
    destruct (Script.myMarker s) as [m|] eqn:Hm; cbn.
    + apply getLatLng_setLatLng_ne. congruence.
    + by apply getLatLng_app_l.
  - unfold Script.cleanup.
    destruct (sweep_frame 30000 now s) as (_ & _ & -> & _). done.
Qed.

Lemma marker_moves_only_for_its_owner_witness :
  Script.position_of
    (Script.step Scenario.crowded
       (Script.ReceiveLocation 25000 (Scenario.from (js "b") 50 50)))
    {| Script.user_id := Str (js "a"); Script.marker := 1;
       Script.lastUpdate := 100 |}
  = Some (1%float, 2%float).
Proof.
  rewrite (marker_moves_only_for_its_owner Scenario.crowded
             (Script.ReceiveLocation 25000 (Scenario.from (js "b") 50 50))
             (js "a")).
  - vm_compute. reflexivity.
  - apply inv_run, inv_run, inv_run, inv_init.
  - vm_compute. reflexivity.
  - vm_compute. reflexivity.
  - vm_compute. discriminate.
Defined.
(** ** The relay, over time *)

Section RelaySession.
Import Relay Session.

Lemma received_by_app (r : jsstring) (ds1 ds2 : list delivery) :
  received_by r (ds1 ++ ds2) = received_by r ds1 ++ received_by r ds2.
Proof. unfold received_by. by rewrite filter_app, fmap_app. Qed.

Lemma received_by_handle (r : jsstring) (e : event) (srv : server) :
  received_by r (handle e srv).2
  = match e with
    | SendLocation sid data =>
        if bool_decide (r ∈ sockets srv)
        then [spread {| data_id := Str sid; data_latitude := None;
                        data_longitude := None |} data]
        else []
    | _ => []
    end.
Proof.
  destruct e as [sid|sid data|sid]; [done| |done].
  apply received_by_io_emit.
Qed.

Lemma connected_after (r : jsstring) (e : event) (srv : server) :
  bool_decide (r ∈ sockets (handle e srv).1)
  = match e with
    | Connection sid => bool_decide (r ∈ sockets srv) || bool_decide (sid = r)
    | Disconnect sid =>
        bool_decide (r ∈ sockets srv) && negb (bool_decide (sid = r))
    | SendLocation _ _ => bool_decide (r ∈ sockets srv)
    end.
Proof.
  destruct e as [sid|sid data|sid]; cbn; [| done |].
  - rewrite <- bool_decide_or. apply bool_decide_ext.
    rewrite elem_of_union, elem_of_singleton. split; intros [?|?]; auto.
  - rewrite <- bool_decide_not, <- bool_decide_and. apply bool_decide_ext.
    rewrite elem_of_difference, elem_of_singleton.
    split; intros [? Hne]; (split; [done|]); intros ->; by apply Hne.
Qed.

(** What is put on the socket [r] during a run of the relay. *)
Lemma received_by_run (r : jsstring) (es : list event) (srv : server) :
  received_by r (run es srv).2 = heard r (bool_decide (r ∈ sockets srv)) es.
Proof.
  revert srv. induction es as [|e es IH]; intros srv; [done|].
  cbn [run snd]. rewrite received_by_app, IH, received_by_handle.
  rewrite connected_after. by destruct e.
Qed.

End RelaySession.

(** X8: over any sequence of connections, fixes and disconnections, the
    messages that the relay puts on a socket are, in the order in which the
    relay got them, the fixes that were sent while that socket was
    connected, one message for each, under the identity that the relay
    gives it; a fix sent before the socket connected or after it
    disconnected never reaches it. *)
Theorem relay_delivers_in_order
    (r : jsstring) (es : list Session.event) (srv : Relay.server) :
  Relay.received_by r (Session.run es srv).2
  = Session.heard r (bool_decide (r ∈ Relay.sockets srv)) es.
Proof. apply received_by_run. Qed.

(** X9: a fix of the socket [k], through the relay and the handler of
    [script.js]: on the page of a socket that is connected and is not [k],
    the registry gets or refreshes the entry of [k], with the time of
    handling as [lastUpdate] and its marker at the coordinates of the fix
    (unless [k] is the name of a property that the registry inherits and
    has no entry yet: the handler then throws and the state is as
    before); on the page of [k] itself the state is as before, the message
    the relay sends back being dropped; and a page whose socket is not
    connected is sent nothing. *)
Theorem fix_reaches_the_other_pages
    (srv : Relay.server) (k r : jsstring) (lat lng : float) (now : Z)
    (s : Script.state)
    (Hme : Script.mySocketId s = Str r)
    (Hwf : Script.wf s)
    (Hv : Leaflet.valid lat lng = true) :
  let data := {| data_id := Undefined; data_latitude := Some lat;
                 data_longitude := Some lng |} in
  let ds := (Relay.on_send_location k data srv).2 in
  let s' := Script.run (Scenario.inbox r now ds) s in
  if bool_decide (r ∈ Relay.sockets srv) && negb (bool_decide (r = k))
     && negb (JsObject.inherited k
              && bool_decide (Script.activeUsers s !! k = None))
  then exists u,
         Script.activeUsers s' = <[k := u]> (Script.activeUsers s)
         /\ Script.lastUpdate u = now
         /\ Script.position_of s' u = Some (lat, lng)
  else s' = s.
Proof.
  cbn zeta. unfold Scenario.inbox, Relay.on_send_location. cbn [snd].
  rewrite received_by_io_emit.
  destruct (bool_decide (r ∈ Relay.sockets srv)); [|done]. cbn [andb].
  change (spread _ _) with (Scenario.from k lat lng).
  cbn [fmap list_fmap]. rewrite run_cons, step_receive. cbn [Script.run foldl].
  case_bool_decide as Hrk; cbn [negb andb].
  { subst r. by rewrite receive_location_own. }
  assert (Str k <> Script.mySocketId s) as Hne by congruence.
  destruct (JsObject.inherited k) eqn:Hinh; cbn [andb negb].
  - case_bool_decide as Hk; cbn [negb].
    + by rewrite receive_location_inherited.
    + destruct (receive_location_upsert now k lat lng s Hwf Hne)
        as (s' & u & -> & _ & _ & Hreg & Ht & Hpos & _); [|done|].
      { right. by apply not_eq_None_Some. }
      by exists u.
  - destruct (receive_location_upsert now k lat lng s Hwf Hne)
      as (s' & u & -> & _ & _ & Hreg & Ht & Hpos & _); [by left|done|].
    by exists u.
Qed.

Lemma fix_reaches_the_other_pages_witness :
  exists u,
    Script.activeUsers
      (Script.run
         (Scenario.inbox (js "b1") 50
            (Relay.on_send_location (js "a1")
               {| data_id := Undefined; data_latitude := Some 37%float;
                  data_longitude := Some (-122)%float |}
               Scenario.relay_a1_b1).2)
         Scenario.page_b1)
    = <[js "a1" := u]> (Script.activeUsers Scenario.page_b1)
    /\ Script.lastUpdate u = 50.
Proof.
  pose proof (fix_reaches_the_other_pages Scenario.relay_a1_b1 (js "a1")
                (js "b1") 37%float (-122)%float 50 Scenario.page_b1) as H.
  cbn zeta in H.
  destruct H as (u & H1 & H2 & _).
  - vm_compute. reflexivity.
  - apply wf_run, wf_init.
  - vm_compute. reflexivity.
  - exists u. split; assumption.
Defined.
(** ** The markers of places *)

Section PoiFacts.
Import Poi.

Lemma foldl_removeLayer (ms : list nat) (l : gset nat) :
  foldl (fun l m => l ∖ {[m]}) l ms = l ∖ list_to_set ms.
Proof.
  revert l. induction ms as [|m ms IH]; intros l; cbn.
  - apply set_eq. intros x. rewrite elem_of_difference, elem_of_empty. tauto.
  - rewrite IH. apply set_eq. intros x.
    rewrite !elem_of_difference, elem_of_union. tauto.
Qed.

Lemma poi_inv_init : inv init.
Proof. split; [constructor|]. split; [constructor|done]. Qed.

Lemma poi_inv_addPoiMarker (lat lng : option float) (n : string) (s : state) :
  inv s -> inv (state_of (addPoiMarker lat lng n s)).
Proof.
  intros (Hlt & Hnd & Hmap). unfold addPoiMarker.
  destruct (Leaflet.toLatLng lat lng) as [ll|]; [|done]. unfold inv. cbn.
  split_and!.
  - rewrite length_app. cbn. apply Forall_app. split.
    + eapply Forall_impl; [exact Hlt|]. cbn. lia.
    + constructor; [lia|constructor].
  - apply NoDup_app. split_and!; [done| |apply NoDup_singleton].
    intros x Hx ->%list_elem_of_singleton.
    rewrite Forall_forall in Hlt. specialize (Hlt _ Hx). lia.
  - rewrite Hmap, list_to_set_app_L. cbn.
    apply set_eq. intros x. rewrite !elem_of_union, elem_of_empty. tauto.
Qed.

Lemma poi_inv_clearPoiMarkers (s : state) :
  inv s -> inv (state_of (clearPoiMarkers s))
           /\ on_map (state_of (clearPoiMarkers s)) = ∅.
Proof.
  intros (Hlt & Hnd & Hmap). unfold inv. cbn.
  assert (foldl (fun l m => l ∖ {[m]}) (on_map s) (poiMarkers s) = ∅) as E.
  { rewrite foldl_removeLayer, Hmap. apply set_eq. intros x.
    rewrite elem_of_difference, elem_of_empty. tauto. }
  split; [|done]. split; [constructor|]. split; [constructor|].
  by rewrite E.
Qed.

Lemma poi_inv_step (s : state) (c : call) : inv s -> inv (step s c).
Proof.
  intros Hinv. unfold step. destruct c as [lat lng n|lat lng n| |];
    cbn [handle].
  - by apply poi_inv_addPoiMarker.
  - unfold viewOnMap. destruct (Leaflet.toLatLng lat lng) as [ll|]; [|done].
    by apply poi_inv_addPoiMarker.
  - by apply poi_inv_clearPoiMarkers.
  - by apply poi_inv_clearPoiMarkers.
Qed.

Lemma poi_inv_run (cs : list call) (s : state) : inv s -> inv (run cs s).
Proof.
  revert s. induction cs as [|c cs IH]; intros s Hs; [done|].
  apply IH. by apply poi_inv_step.
Qed.

End PoiFacts.

(** X10: in [script.js], after any sequence of calls of [addPoiMarker],
    [viewOnMap], [clearPoiMarkers] and [clearSearchResults], with any
    arguments, the markers of places that are on the map are exactly those
    of the array [poiMarkers], each once; so a call of [clearPoiMarkers]
    then leaves no marker of a place on the map. *)
Theorem poi_markers_are_the_array (cs : list Poi.call) :
  let s := Poi.run cs Poi.init in
  Poi.on_map s = list_to_set (Poi.poiMarkers s)
  /\ NoDup (Poi.poiMarkers s)
  /\ Poi.on_map (state_of (Poi.clearPoiMarkers s)) = ∅
  /\ Poi.poiMarkers (state_of (Poi.clearPoiMarkers s)) = [].
Proof.
  cbn zeta. pose proof (poi_inv_run cs Poi.init poi_inv_init) as Hinv.
  destruct (poi_inv_clearPoiMarkers _ Hinv) as [_ Hclear].
  destruct Hinv as (_ & Hnd & Hmap). by split_and!.
Qed.

Lemma step_viewOnMap (lat lng : float) (name : string) (s : Poi.state) :
  Leaflet.valid lat lng = true ->
  Poi.step s (Poi.ViewOnMap (Some lat) (Some lng) name)
  = {| Poi.poiMarkers := Poi.poiMarkers s ++ [length (Poi.created s)];
       Poi.created :=
         Poi.created s ++ [{| Poi.latlng := (lat, lng); Poi.name := name |}];
       Poi.on_map := {[length (Poi.created s)]} ∪ Poi.on_map s;
       Poi.center := (lat, lng) |}.
Proof.
  intros Hv. unfold Poi.step. cbn [Poi.handle].
  unfold Poi.viewOnMap, Poi.addPoiMarker.
  by rewrite (toLatLng_valid _ _ Hv).
Qed.

(** X11: in [script.js], [viewOnMap] makes a new marker at every call that
    has coordinates Leaflet accepts: after [n] calls for the same place
    the array has [n] more markers, all at that place and put on the map,
    and the map is centred there. *)
Theorem viewOnMap_adds_a_marker_each_time
    (lat lng : float) (name : string) (n : nat) (s : Poi.state)
    (Hv : Leaflet.valid lat lng = true) :
  let s' := Poi.run (replicate n (Poi.ViewOnMap (Some lat) (Some lng) name))
                    s in
  Poi.poiMarkers s'
  = Poi.poiMarkers s ++ seq (length (Poi.created s)) n
  /\ Poi.created s'
     = Poi.created s
       ++ replicate n {| Poi.latlng := (lat, lng); Poi.name := name |}
  /\ Poi.on_map s'
     = list_to_set (seq (length (Poi.created s)) n) ∪ Poi.on_map s
  /\ (n <> 0%nat -> Poi.center s' = (lat, lng)).
Proof.
  cbn zeta. revert s. induction n as [|n IH]; intros s.
  - cbn. rewrite !app_nil_r. split_and!; try done.
    apply set_eq. intros x. rewrite elem_of_union, elem_of_empty. tauto.
  - cbn [replicate].
    pose proof (step_viewOnMap lat lng name s Hv) as Hs1.
    change (Poi.run (Poi.ViewOnMap (Some lat) (Some lng) name
                     :: replicate n (Poi.ViewOnMap (Some lat) (Some lng) name))
              s)
      with (Poi.run (replicate n (Poi.ViewOnMap (Some lat) (Some lng) name))
              (Poi.step s (Poi.ViewOnMap (Some lat) (Some lng) name))).
    destruct (IH (Poi.step s (Poi.ViewOnMap (Some lat) (Some lng) name)))
      as (Hp & Hc & Hm & Hcen).
    rewrite Hp, Hc, Hm. rewrite Hs1 in *.
    cbn [Poi.poiMarkers Poi.created Poi.on_map Poi.center] in *.
    rewrite length_app. cbn [length]. rewrite Nat.add_1_r.
    split_and!.
    + cbn [seq]. by rewrite <- app_assoc.
    + cbn [replicate]. by rewrite <- app_assoc.
    + cbn [seq list_to_set foldr]. apply set_eq. intros x.
      rewrite !elem_of_union. tauto.
    + intros _. destruct n as [|n]; [done|]. by apply Hcen.
Qed.

Lemma viewOnMap_adds_a_marker_each_time_witness :
  Poi.poiMarkers
    (Poi.run (replicate 3 (Poi.ViewOnMap (Some 48%float) (Some 2%float)
                             "Louvre")) Poi.init)
  = [0; 1; 2]%nat.
Proof.
  apply (viewOnMap_adds_a_marker_each_time 48%float 2%float "Louvre" 3
           Poi.init).
  reflexivity.
Defined.

Section Part000PoiFacts.
Import Part000Poi.

Lemma eqb_refl_number (x : float) :
  PrimFloat.is_nan x = false -> PrimFloat.eqb x x = true.
Proof. unfold PrimFloat.is_nan. by destruct (PrimFloat.eqb x x). Qed.

Lemma find_app_none {A : Type} (f : A -> bool) (l : list A) (x : A) :
  List.find f l = None -> f x = true -> List.find f (l ++ [x]) = Some x.
Proof.
  induction l as [|a l IH]; cbn; [by intros _ ->|].
  destruct (f a); [done|]. apply IH.
Qed.

Lemma find_ext_Forall {A : Type} (f g : A -> bool) (l : list A) :
  Forall (fun x => f x = g x) l -> List.find f l = List.find g l.
Proof.
  induction 1 as [|a l Ha _ IH]; [done|]. cbn. by rewrite Ha, IH.
Qed.

(** What [Leaflet.toLatLng] accepts. *)
Lemma toLatLng_Some (lat lng : float) (ll : float * float) :
  Leaflet.toLatLng (Some lat) (Some lng) = Some ll ->
  PrimFloat.is_nan lat = false /\ PrimFloat.is_nan lng = false
  /\ ll = (lat, lng).
Proof.
  unfold Leaflet.toLatLng.
  destruct (PrimFloat.is_nan lat), (PrimFloat.is_nan lng); cbn;
    intros Hll; by simplify_eq.
Qed.

Lemma part000_poi_wf_addPoiMarker (lat lng : float) (n : string)
    (view : float * float) (s : state) :
  wf s -> wf (state_of (addPoiMarker lat lng n view s)).
Proof.
  intros Hwf. unfold addPoiMarker.
  destruct (has_map s); [|done]. cbn [negb].
  destruct (Leaflet.toLatLng (Some lat) (Some lng)); [|done].
  unfold wf. cbn. rewrite length_app. cbn. apply Forall_app. split.
  - eapply Forall_impl; [exact Hwf|]. cbn. intros m [Hm Hin].
    split; [lia|set_solver].
  - constructor; [|constructor]. split; [lia|set_solver].
Qed.

(** The markers of the array of the client of [part_000] have been made
    and are on the map, after every call. *)
Lemma part000_poi_wf_step (s : state) (c : call) : wf s -> wf (step s c).
Proof.
  intros Hwf. unfold step.
  destruct c as [lat lng n view|lat lng n view|]; cbn [handle].
  - by apply part000_poi_wf_addPoiMarker.
  - unfold viewOnMap. destruct (has_map s); [|done]. cbn [negb].
    destruct (Leaflet.toLatLng (Some lat) (Some lng)); [|done].
    destruct (List.find _ _); [done|]. by apply part000_poi_wf_addPoiMarker.
  - unfold clearSearchResults, wf. destruct (has_map s); [|done]. cbn.
    constructor.
Qed.

Lemma part000_poi_wf_run (cs : list call) (s : state) :
  wf s -> wf (run cs s).
Proof.
  revert s. induction cs as [|c cs IH]; intros s Hs; [done|].
  apply IH. by apply part000_poi_wf_step.
Qed.

End Part000PoiFacts.

(** X12: in the client of [part_000], [viewOnMap] looks for a marker that
    is already at the place before it makes one: a second call for the
    same place, made right after the first, makes no marker and changes
    nothing but where the map is centred (Leaflet may move the map when
    it opens the popup), whatever the names given; so viewing a place
    again and again leaves at most one marker more than before. *)
Theorem part000_viewOnMap_twice
    (lat lng : float) (n1 n2 : string) (v1 v2 : float * float)
    (s : Part000Poi.state)
    (Hwf : Part000Poi.wf s) :
  let s1 := state_of (Part000Poi.viewOnMap lat lng n1 v1 s) in
  let s2 := state_of (Part000Poi.viewOnMap lat lng n2 v2 s1) in
  s2 = Part000Poi.with_center (Part000Poi.center s2) s1
  /\ (length (Part000Poi.poiMarkers s1)
      <= S (length (Part000Poi.poiMarkers s)))%nat.
Proof.
  cbn zeta.
  remember (state_of (Part000Poi.viewOnMap lat lng n1 v1 s)) as s1 eqn:E.
  unfold Part000Poi.viewOnMap in E.
  destruct (Part000Poi.has_map s) eqn:Hmap; cbn [negb] in E.
  2: { cbn in E. subst s1. unfold Part000Poi.viewOnMap. rewrite Hmap.
       cbn. split; [by destruct s|lia]. }
  destruct (Leaflet.toLatLng (Some lat) (Some lng)) as [ll|] eqn:Hll.
  2: { cbn in E. subst s1. unfold Part000Poi.viewOnMap. rewrite Hmap, Hll.
       cbn. split; [by destruct s|lia]. }
  destruct (toLatLng_Some lat lng ll Hll) as (Hlat & Hlng & ->).
  cbn [Part000Poi.with_center Part000Poi.poiMarkers] in E.
  destruct (List.find _ (Part000Poi.poiMarkers s)) as [m|] eqn:Hfind.
  - cbn in E. subst s1. unfold Part000Poi.viewOnMap.
    cbn -[Leaflet.toLatLng]. rewrite Hmap, Hll. cbn.
    unfold Part000Poi.is_at in *. cbn in *. rewrite Hfind.
    split; [done|lia].
  - unfold Part000Poi.addPoiMarker in E. cbn -[Leaflet.toLatLng] in E.
    rewrite Hmap, Hll in E. cbn in E. subst s1.
    unfold Part000Poi.viewOnMap. cbn -[Leaflet.toLatLng].
    rewrite Hmap, Hll. cbn.
    rewrite length_app. cbn. split; [|lia].
    erewrite find_app_none; [reflexivity| |].
    + erewrite find_ext_Forall; [exact Hfind|].
      eapply Forall_impl; [exact Hwf|]. cbn. intros m [Hm _].
      unfold Part000Poi.is_at. cbn. by rewrite lookup_app_l.
    + unfold Part000Poi.is_at. cbn.
      rewrite lookup_app_r by done. rewrite Nat.sub_diag. cbn.
      by rewrite !eqb_refl_number.
Qed.

Lemma part000_viewOnMap_twice_witness :
  Part000Poi.poiMarkers
    (state_of
       (Part000Poi.viewOnMap 48%float 2%float "again" (48, 2)%float
          (state_of (Part000Poi.viewOnMap 48%float 2%float "Louvre"
                       (48.5, 2)%float Part000Poi.sample))))
  = [0%nat].
Proof.
  destruct (part000_viewOnMap_twice 48%float 2%float "Louvre" "again"
              (48.5, 2)%float (48, 2)%float Part000Poi.sample) as [-> _].
  - constructor.
  - vm_compute. reflexivity.
Defined.
(** ** The distance tool *)

Section MeasureFacts.
Import Measure.

Lemma measure_inv_init : inv init.
Proof. by split_and!. Qed.

Lemma set_add_last (l : list nat) (m : nat) :
  {[m]} ∪ list_to_set l =@{gset nat} list_to_set (l ++ [m]).
Proof.
  rewrite list_to_set_app_L. cbn. apply set_eq. intros x.
  rewrite !elem_of_union, elem_of_empty. tauto.
Qed.

Lemma measure_inv_click (latlng : float * float) (s : state) :
  inv s -> distanceMeasurementActive s = true ->
  inv (handleMeasureClick latlng s).
Proof.
  intros (Hl & Hm & Hn & Hmm & Hlm & Hoff) Hon. unfold handleMeasureClick.
  rewrite length_app. cbn [length].
  case_bool_decide as Hlen; unfold inv; cbn.
  - rewrite !length_app, Hm, Hn, Hmm, Hlm, !set_add_last. cbn.
    split_and!; try done; [lia|congruence].
  - rewrite !length_app, Hm, Hn, Hmm, !set_add_last. cbn.
    split_and!; try done; [lia|congruence].
Qed.

Lemma measure_inv_step (s : state) (e : event) : inv s -> inv (step s e).
Proof.
  intros Hinv. destruct e as [|latlng]; cbn [step].
  - unfold toggle. pose proof Hinv as (Hl & Hm & Hn & Hmm & Hlm & Hoff).
    destruct (distanceMeasurementActive s) eqn:Ha; cbn [negb].
    + unfold inv. cbn. rewrite !foldl_removeLayer, Hmm, Hlm.
      split_and!; try done;
        apply set_eq; intros x;
        rewrite elem_of_difference, elem_of_empty; tauto.
    + unfold inv. cbn. rewrite (Hoff eq_refl) in *. by split_and!.
  - destruct (listening s) eqn:Hls; [|done].
    apply measure_inv_click; [done|]. destruct Hinv as (Hl & _). congruence.
Qed.

Lemma measure_inv_run (es : list event) (s : state) :
  inv s -> inv (run es s).
Proof.
  revert s. induction es as [|e es IH]; intros s Hs; [done|].
  apply IH. by apply measure_inv_step.
Qed.

End MeasureFacts.

(** X13: at any time, whatever the clicks on the button of the distance
    tool and on the map, the tool listens to the clicks on the map exactly
    when it is switched on; every point it has recorded has one marker, two
    successive points have one line, and these markers and lines are the
    ones of the tool that are on the map; when the tool is switched off it
    has no point, no marker and no line left, on the map or in its
    arrays. *)
Theorem distance_tool_cleans_up (es : list Measure.event) :
  let s := Measure.run es Measure.init in
  Measure.listening s = Measure.distanceMeasurementActive s
  /\ length (Measure.measureMarkers s) = length (Measure.measurePoints s)
  /\ length (Measure.measureLines s)
     = pred (length (Measure.measurePoints s))
  /\ Measure.markers_on_map s = list_to_set (Measure.measureMarkers s)
  /\ Measure.lines_on_map s = list_to_set (Measure.measureLines s)
  /\ (Measure.distanceMeasurementActive s = false ->
      Measure.measurePoints s = [] /\ Measure.measureMarkers s = []
      /\ Measure.measureLines s = [] /\ Measure.markers_on_map s = ∅
      /\ Measure.lines_on_map s = ∅).
Proof.
  cbn zeta.
  destruct (measure_inv_run es Measure.init measure_inv_init)
    as (Hl & Hm & Hn & Hmm & Hlm & Hoff).
  split_and!; try done.
  intros Ha. specialize (Hoff Ha). rewrite Hoff in Hm, Hn. cbn in Hm, Hn.
  apply length_zero_iff_nil in Hm, Hn.
  rewrite Hmm, Hlm, Hm, Hn. by split_and!.
Qed.

Lemma distance_tool_cleans_up_witness :
  Measure.markers_on_map
    (Measure.run [Measure.Button; Measure.MapClick (1, 2)%float;
                  Measure.MapClick (3, 4)%float; Measure.Button]
       Measure.init)
  = ∅.
Proof.
  apply (distance_tool_cleans_up
           [Measure.Button; Measure.MapClick (1, 2)%float;
            Measure.MapClick (3, 4)%float; Measure.Button]).
  reflexivity.
Defined.

(** ** The own marker of the client of [part_000] *)

(** X14: in the client of [part_000], a fix of the client, with two
    numbers for coordinates, goes to the relay and writes neither the
    registry nor a marker; the client's own entry and marker come from the
    message that the relay sends back to the sender.  Once the page has handled it, the registry has the entry of
    the client's own identity, with the time of handling as [lastUpdate];
    its marker is at the coordinates of the fix and [myMarker] is that
    marker, unless the entry is new and the side bar cannot be drawn: the
    handler then throws before it makes the marker, the entry has no
    marker and [myMarker] is as before.  (The map exists, the markers of
    the registry exist, and the client's identity is no name of a property
    that the registry inherits.) *)
Theorem part000_own_marker_comes_from_the_echo
    (srv : Relay.server) (me : jsstring) (lat lng : float) (now : Z)
    (l : Part000.state)
    (Hconn : me ∈ Relay.sockets srv)
    (Hme : Part000.mySocketId l = Str me)
    (Hmap : Part000.has_map l = true)
    (Hwf : Part000.wf l)
    (Hplain : Part000.inherits l me = false)
    (Hv : Leaflet.valid lat lng = true) :
  let l1 := state_of (Part000.position_success lat lng l) in
  let sent := {| data_id := Undefined; data_latitude := Some lat;
                 data_longitude := Some lng |} in
  let ds := (Relay.on_send_location me sent srv).2 in
  let l2 := Part000.run
              (Part000.ReceiveLocation now <$> Relay.received_by me ds) l1 in
  Part000.emitted l1 = Part000.emitted l ++ [sent]
  /\ Part000.activeUsers l1 = Part000.activeUsers l
  /\ Part000.markers l1 = Part000.markers l
  /\ Part000.myMarker l1 = Part000.myMarker l
  /\ exists u,
       Part000.activeUsers l2 = <[me := u]> (Part000.activeUsers l)
       /\ Part000.lastUpdate u = now
       /\ if JsObject.lacks (Part000.activeUsers l) me
             && Part000.updateActiveUsersList_throws l
          then Part000.marker u = None
               /\ Part000.myMarker l2 = Part000.myMarker l
          else Part000.position_of l2 u = Some (lat, lng)
               /\ Part000.myMarker l2 = Part000.marker u.
Proof.
  cbn zeta. split_and!; try done.
  unfold Relay.on_send_location. cbn [snd].
  rewrite received_by_io_emit, bool_decide_eq_true_2 by done.
  change (spread _ _) with (Scenario.from me lat lng).
  cbn [fmap list_fmap]. rewrite part000_run_cons, part000_step_receive.
  cbn [Part000.run foldl].
  set (l1 := state_of (Part000.position_success lat lng l)).
  assert (strict_eq (Str me) (Part000.mySocketId l1) = true) as Hown.
  { unfold strict_eq. by rewrite bool_decide_eq_true_2. }
  unfold JsObject.lacks, Scenario.from.
  destruct (Part000.activeUsers l !! me) as [u0|] eqn:Hu0; cbn [andb].
  - destruct (part000_receive_location_refresh now (Str me) lat lng l1 u0)
      as (l2 & u & -> & _ & _ & _ & _ & _ & Hreg & _ & Ht & Hpos & _ & Hmy);
      [done|done|done|by left|done|].
    rewrite Hown in Hmy. exists u. by split_and!.
  - destruct (part000_receive_location_create now (Str me) lat lng l1)
      as (l2 & u & Hrun & _ & _ & _ & _ & _ & Hreg & _ & Ht & _ & Hm);
      [done|done|done|done|by left|done|].
    cbn zeta in Hrun. rewrite Hrun. exists u. split_and!; try done.
    change (Part000.updateActiveUsersList_throws l1)
      with (Part000.updateActiveUsersList_throws l) in Hm.
    destruct (Part000.updateActiveUsersList_throws l).
    + by destruct Hm as (? & ? & _).
    + destruct Hm as (_ & Hpos & Hmy). rewrite Hown in Hmy. by split.
Qed.

Lemma part000_own_marker_comes_from_the_echo_witness :
  exists u,
    Part000.activeUsers
      (Part000.run
         (Part000.ReceiveLocation 7
            <$> Relay.received_by (js "a")
                  (Relay.on_send_location (js "a")
                     {| data_id := Undefined; data_latitude := Some 10%float;
                        data_longitude := Some 10%float |}
                     Scenario.two_sockets).2)
         (state_of
            (Part000.position_success 10 10
               (Part000.step Scenario.part000_init
                  (Part000.Connect (js "a"))))))
    = <[js "a" := u]>
        (Part000.activeUsers
           (Part000.step Scenario.part000_init (Part000.Connect (js "a"))))
    /\ Part000.lastUpdate u = 7.
Proof.
  destruct (part000_own_marker_comes_from_the_echo Scenario.two_sockets
              (js "a") 10%float 10%float 7
              (Part000.step Scenario.part000_init (Part000.Connect (js "a"))))
    as (_ & _ & _ & _ & u & H1 & H2 & _).
  - vm_compute. set_solver.
  - reflexivity.
  - reflexivity.
  - apply part000_wf_step, part000_wf_init.
  - vm_compute. reflexivity.
  - reflexivity.
  - exists u. split; assumption.
Defined.
